(** * Lead-stitcher: the matching and attribution engine

    A shallow embedding of [backend/src/services/matcher.ts] (candidate
    generation, candidate resolution, the lead ledger, attribution
    recomputation and the [runMatch] orchestrator) and of
    [validatePolicyYaml] from [backend/src/routes/policies.ts], together
    with the properties the specification states about them.

    Conventions of the embedding.
    - A JavaScript [Date] is its [getTime()] value, an integer number of
      milliseconds ([Z]).
    - A JavaScript [number] read from the policy (windows, weights,
      confidence values), a similarity score or an amount is a rational
      ([Q]); not-a-number and the infinities are outside the model.
    - A string is a [string] of the Standard Library; [toLowerCase] acts on
      the ASCII letters.
    - An optional field or a nullable column is an [option]; the
      truthiness test of JavaScript on it is [truthy].
    - The database is a record of tables (lists of rows, in insertion
      order); every [await db...] is one step of the state-and-exception
      monad [M], and may be rejected by the runtime. *)

From Stdlib Require Import ZArith QArith Qround List String Ascii Bool Lia Lqa.
From Stdlib Require Import Permutation.
From Stdlib Require Import DecimalString.
Import ListNotations.

Local Open Scope string_scope.
Local Open Scope Z_scope.
Local Open Scope list_scope.

(* ================================================================== *)
(** * JavaScript values *)

Module Js.

(** [s.toLowerCase()], on ASCII letters. *)
Definition lower_ascii (c : ascii) : ascii :=
  let n := nat_of_ascii c in
  if (Nat.leb 65 n && Nat.leb n 90)%bool then ascii_of_nat (n + 32) else c.

Fixpoint toLowerCase (s : string) : string :=
  match s with
  | EmptyString => EmptyString
  | String c s' => String (lower_ascii c) (toLowerCase s')
  end.

(** White space removed by [s.trim()]: space, tab, line feed, vertical tab,
    form feed, carriage return. *)
Definition is_space (c : ascii) : bool :=
  let n := nat_of_ascii c in
  (Nat.eqb n 32 || (Nat.leb 9 n && Nat.leb n 13))%bool.

Fixpoint trimStart (s : string) : string :=
  match s with
  | EmptyString => EmptyString
  | String c s' => if is_space c then trimStart s' else s
  end.

Fixpoint trimEnd (s : string) : string :=
  match s with
  | EmptyString => EmptyString
  | String c s' =>
      match trimEnd s' with
      | EmptyString => if is_space c then EmptyString else String c EmptyString
      | t => String c t
      end
  end.

Definition trim (s : string) : string := trimEnd (trimStart s).

(** [s.includes(t)]: [t] occurs in [s] as a substring. *)
Fixpoint includes (s t : string) : bool :=
  if String.prefix t s then true
  else match s with
       | EmptyString => false
       | String _ s' => includes s' t
       end.

(** Truthiness of an optional string: present and not empty. *)
Definition truthy (o : option string) : bool :=
  match o with
  | Some (String _ _) => true
  | _ => false
  end.

(** [o || d] on an optional string. *)
Definition or_default (o : option string) (d : string) : string :=
  match o with
  | Some (String c s) => String c s
  | _ => d
  end.

(** [arr.includes(x)] on an array of strings. *)
Definition str_in (x : string) (l : list string) : bool :=
  existsb (String.eqb x) l.

(** Template-literal rendering of an integer. *)
Definition string_of_Z (z : Z) : string :=
  NilZero.string_of_int (Z.to_int z).

(** [x.toFixed(2)]: the nearest hundredth, the larger one on a tie. *)
Definition two_digits (n : Z) : string :=
  if n <? 10 then ("0" ++ string_of_Z n)%string else string_of_Z n.

Definition toFixed2 (x : Q) : string :=
  let n := Qfloor (x * 100 + (1 # 2)) in
  let a := Z.abs n in
  let sign := if n <? 0 then "-" else "" in
  let whole := string_of_Z (a / 100) in
  let cents := two_digits (a mod 100) in
  (sign ++ whole ++ "." ++ cents)%string.

End Js.

(* ================================================================== *)
(** * Data model *)

(** The five attribution modes of [PolicyConfig]. *)
Inductive AttributionMode : Type :=
  | paid_last | first_touch | last_touch | call_first | equal_weight.

Record Windows : Type := {
  w_phone_exact : Q;
  w_email_exact : Q;
  w_click_chain : Q;
  w_fuzzy_match : Q
}.

Record Weights : Type := {
  wt_phone_exact : Q;
  wt_email_exact : Q;
  wt_click_chain : Q;
  wt_fuzzy_match : Q
}.

Record ConfidenceRules : Type := {
  two_deterministic : Q;
  one_deterministic : Q;
  click_only : Q;
  fuzzy_only : Q
}.

Record PolicyConfig : Type := {
  policy_name : string;
  attribution_mode : AttributionMode;
  windows : Windows;
  weights : Weights;
  tie_breakers : list string;
  confidence_rules : ConfidenceRules
}.

(** A row of [normalized_rows] ([NormRow]). *)
Record NormRow : Type := {
  id : Z;
  accountId : Z;
  uploadId : Z;
  sourceType : string;
  occurredAt : Z;
  name : option string;
  phone : option string;
  email : option string;
  gclid : option string;
  clientId : option string;
  utmSource : option string;
  utmMedium : option string;
  utmCampaign : option string;
  location : option string;
  durationSec : option Q;
  amount : option Q
}.

Record MatchCandidate : Type := {
  stitchId : Z;
  weight : Q;
  pass : string;
  matchedOn : list string;
  reason : string;
  confidence : Q
}.

Record MatchResult : Type := {
  stitchedNew : Z;
  linksCreated : Z;
  errors : list string
}.

(** A row of [stitched_leads]. *)
Record StitchedLead : Type := {
  sl_id : Z;
  sl_accountId : Z;
  sl_stitchId : string;
  leadCreatedAt : Z;
  sl_name : option string;
  sl_phone : option string;
  sl_email : option string;
  sl_location : option string;
  revenue : Q;
  sl_confidence : Q;
  finalChannel : option string;
  finalSource : option string;
  finalMedium : option string;
  finalCampaign : option string;
  firstTouchSource : option string;
  lastTouchSource : option string;
  paidLastSource : option string
}.

(** A row of [stitch_links]. *)
Record StitchLink : Type := {
  lk_accountId : Z;
  lk_stitchId : Z;
  normalizedRowId : Z;
  matchPass : string;
  lk_keys : list string;
  lk_windowDays : Z;
  lk_reason : string
}.

(** A row of [audit_trail]. *)
Record AuditEntry : Type := {
  au_accountId : Z;
  au_stitchId : Z;
  sourceFile : string;
  originalRowId : Z;
  au_keys : list string;
  au_windowDays : Z;
  au_matchPass : string;
  au_reason : string
}.

(** A row of [usage_counters]. *)
Record UsageCounter : Type := {
  uc_accountId : Z;
  periodStart : Z;
  periodEnd : Z;
  stitchedCount : Z
}.

(** The tables the engine reads and writes, and the serial of
    [stitched_leads.id]. *)
Record Db : Type := {
  stitchedLeads : list StitchedLead;
  stitchLinks : list StitchLink;
  auditTrail : list AuditEntry;
  normalizedRows : list NormRow;
  usageCounters : list UsageCounter;
  nextStitchDbId : Z
}.

(* ================================================================== *)
(** * The runtime the engine runs on *)

(** What a [catch] receives: an [Error], the [UsageLimitError] of the
    error-handler module, or the [TypeError] of a call to something that is
    not a function; all carry a [message]. *)
Inductive exn : Type :=
  | Error (msg : string)
  | UsageLimitError (msg : string)
  | TypeError (msg : string).

Definition message (e : exn) : string :=
  match e with
  | Error m => m
  | UsageLimitError m => m
  | TypeError m => m
  end.

(** What is outside the repository.

    - [jaroWinkler]: the binding of [import { distance as jaroWinkler } from
      'natural'].  It is [inr f] when the package exports a function
      [distance], and [inl msg] when it exports nothing of that name: the
      binding is then [undefined], and a call to it throws a [TypeError]
      whose message is [msg].  The package as published has no export
      [distance] (its Jaro-Winkler function is [JaroWinklerDistance]).
    - the local calendar of [Date] (first and last day of the month of an
      instant), the wall clock, the generator of ULIDs;
    - [faults]: the database's decision to reject a call.  Steps are
      numbered; [clock], [ulid] and [faults] are read at the number of the
      step that asks;
    - [list_operand]: the database's verdict on the condition
      [upload_id = ANY(${uploadIds})] of the first query of [runMatch], in
      which the array is rendered as a parenthesised list of parameters:
      [Some msg] when it rejects the query with the message [msg], [None]
      when it answers.  PostgreSQL wants an array as the operand of [ANY]
      and rejects every such list. *)
Record Runtime : Type := {
  jaroWinkler : string + (string -> string -> Q);
  startOfMonth : Z -> Z;
  endOfMonth : Z -> Z;
  clock : nat -> Z;
  ulid : nat -> string;
  faults : nat -> option string;
  list_operand : list Z -> option string
}.

(** The state a match job runs in: the database, the number of steps taken,
    and the job's [result] object. *)
Record World : Type := {
  db : Db;
  steps : nat;
  result : MatchResult
}.

Definition tick (w : World) : World :=
  {| db := db w; steps := S (steps w); result := result w |}.

Definition set_db (d : Db) (w : World) : World :=
  {| db := d; steps := steps w; result := result w |}.

Definition set_result (r : MatchResult) (w : World) : World :=
  {| db := db w; steps := steps w; result := r |}.

(** ** State and exceptions *)

Definition M (A : Type) : Type := World -> World * (exn + A).

Definition ret {A : Type} (a : A) : M A := fun w => (w, inr a).

Definition bind {A B : Type} (m : M A) (k : A -> M B) : M B :=
  fun w =>
    match m w with
    | (w', inl e) => (w', inl e)
    | (w', inr a) => k a w'
    end.

Definition throw {A : Type} (e : exn) : M A := fun w => (w, inl e).

Definition try_catch {A : Type} (m : M A) (handler : exn -> M A) : M A :=
  fun w =>
    match m w with
    | (w', inl e) => handler e w'
    | (w', inr a) => (w', inr a)
    end.

Notation "x <- m ;; k" := (bind m (fun x => k))
  (at level 61, m at next level, right associativity).
Notation "m ;;; k" := (bind m (fun _ => k))
  (at level 61, right associativity).

Section Steps.

Variable rt : Runtime.

(** [await db.select()...]: one step; the database answers or rejects. *)
Definition db_select {A : Type} (q : Db -> A) : M A :=
  fun w =>
    match faults rt (steps w) with
    | Some msg => (tick w, inl (Error msg))
    | None => (tick w, inr (q (db w)))
    end.

(** [await db.insert()...] and [await db.update()...], returning what
    [.returning()] yields. *)
Definition db_write {A : Type} (u : Db -> Db * A) : M A :=
  fun w =>
    match faults rt (steps w) with
    | Some msg => (tick w, inl (Error msg))
    | None => let (d, a) := u (db w) in (tick (set_db d w), inr a)
    end.

(** [new Date()]. *)
Definition new_Date : M Z := fun w => (tick w, inr (clock rt (steps w))).

(** [ulid()]. *)
Definition new_ulid : M string := fun w => (tick w, inr (ulid rt (steps w))).

(** An update of the job's [result] object. *)
Definition update_result (f : MatchResult -> MatchResult) : M unit :=
  fun w => (set_result (f (result w)) w, inr tt).

End Steps.

(* ================================================================== *)
(** * Candidate generator *)

(** ** [Map<string, string>] in insertion order *)

Fixpoint map_get (keys : list (string * string)) (k : string) : option string :=
  match keys with
  | [] => None
  | (k', v) :: rest => if String.eqb k' k then Some v else map_get rest k
  end.

Definition map_has (keys : list (string * string)) (k : string) : bool :=
  match map_get keys k with
  | Some _ => true
  | None => false
  end.

Fixpoint map_set (keys : list (string * string)) (k v : string)
  : list (string * string) :=
  match keys with
  | [] => [(k, v)]
  | (k', v') :: rest =>
      if String.eqb k' k then (k', v) :: rest else (k', v') :: map_set rest k v
  end.

(** [if (field) keys.set(k, field)]. *)
Definition set_if_truthy (k : string) (field : option string)
  (keys : list (string * string)) : list (string * string) :=
  match field with
  | Some (String c s) => map_set keys k (String c s)
  | _ => keys
  end.

Definition generateMatchingKeys (row : NormRow) : list (string * string) :=
  let keys := [] in
  let keys := set_if_truthy "phone" (phone row) keys in
  let keys := set_if_truthy "email" (email row) keys in
  let keys := set_if_truthy "gclid" (gclid row) keys in
  let keys := set_if_truthy "client_id" (clientId row) keys in
  match name row, location row with
  | Some (String c1 n), Some (String c2 l) =>
      let fuzzyKey :=
        (Js.trim (Js.toLowerCase (String c1 n)) ++ "_" ++
         Js.trim (Js.toLowerCase (String c2 l)))%string in
      map_set keys "fuzzy" fuzzyKey
  | _, _ => keys
  end.

(** ** Time windows *)

Definition msPerDay : Z := 1000 * 60 * 60 * 24.

Definition isWithinWindow (date1 date2 : Z) (windowDays : Q) : bool :=
  let diffMs := Z.abs (date1 - date2) in
  let diffDays := (inject_Z diffMs / inject_Z msPerDay)%Q in
  Qle_bool diffDays windowDays.

(** ** Similarity and distance *)

(** The call of [jaroWinkler] throws when the binding is not a function. *)
Definition calculateSimilarity (rt : Runtime) (str1 str2 : string) : exn + Q :=
  match str1, str2 with
  | EmptyString, _ | _, EmptyString => inr 0%Q
  | _, _ =>
      match jaroWinkler rt with
      | inr distance =>
          inr (distance (Js.toLowerCase str1) (Js.toLowerCase str2))
      | inl msg => inl (TypeError msg)
      end
  end.

Fixpoint count_mismatches (s1 s2 : string) : Z :=
  match s1, s2 with
  | String c1 r1, String c2 r2 =>
      (if Ascii.eqb c1 c2 then 0 else 1) + count_mismatches r1 r2
  | _, _ => 0
  end.

Definition calculateHammingDistance (str1 str2 : string) : Z :=
  let n1 := Z.of_nat (String.length str1) in
  let n2 := Z.of_nat (String.length str2) in
  if negb (n1 =? n2) then Z.max n1 n2 else count_mismatches str1 str2.

(** ** The queries of the four passes *)

(** [column = value] in SQL: a NULL column equals nothing. *)
Definition col_eq (column : option string) (value : string) : bool :=
  match column with
  | Some s => String.eqb s value
  | None => false
  end.

Definition is_not_null {A : Type} (column : option A) : bool :=
  match column with
  | Some _ => true
  | None => false
  end.

Definition select_phone_matches (acct : Z) (p : string) (d : Db)
  : list StitchedLead :=
  filter (fun l => (sl_accountId l =? acct) && col_eq (sl_phone l) p)%bool
         (stitchedLeads d).

Definition select_email_matches (acct : Z) (e : string) (d : Db)
  : list StitchedLead :=
  filter (fun l => (sl_accountId l =? acct) && col_eq (sl_email l) e)%bool
         (stitchedLeads d).

(** One result row of the click-chain join: the lead of the link and the
    time of the linked event. *)
Record ClickMatch : Type := {
  cm_stitchId : Z;
  cm_occurredAt : Z
}.

Definition select_click_matches (acct : Z) (byGclid : bool) (clickKey : string)
  (d : Db) : list ClickMatch :=
  flat_map
    (fun r =>
       if ((accountId r =? acct) &&
           col_eq (if byGclid then gclid r else clientId r) clickKey)%bool
       then
         map (fun l => {| cm_stitchId := lk_stitchId l;
                          cm_occurredAt := occurredAt r |})
             (filter (fun l => normalizedRowId l =? id r) (stitchLinks d))
       else [])
    (normalizedRows d).

Definition select_fuzzy_matches (acct : Z) (d : Db) : list StitchedLead :=
  filter (fun l => (sl_accountId l =? acct) && is_not_null (sl_name l) &&
                   is_not_null (sl_location l))%bool
         (stitchedLeads d).

(** ** The loops of the four passes *)

Definition Qlt_bool (x y : Q) : bool := negb (Qle_bool y x).

Definition p1_candidates (row : NormRow) (policy : PolicyConfig) (p : string)
  (phoneMatches : list StitchedLead) : list MatchCandidate :=
  flat_map
    (fun m =>
       if isWithinWindow (occurredAt row) (leadCreatedAt m)
            (w_phone_exact (windows policy))
       then [ {| stitchId := sl_id m;
                 weight := wt_phone_exact (weights policy);
                 pass := "P1";
                 matchedOn := ["phone"];
                 reason := ("Phone exact match: " ++ p)%string;
                 confidence := one_deterministic (confidence_rules policy) |} ]
       else [])
    phoneMatches.

Definition p2_candidates (row : NormRow) (policy : PolicyConfig) (e : string)
  (emailMatches : list StitchedLead) : list MatchCandidate :=
  flat_map
    (fun m =>
       if isWithinWindow (occurredAt row) (leadCreatedAt m)
            (w_email_exact (windows policy))
       then [ {| stitchId := sl_id m;
                 weight := wt_email_exact (weights policy);
                 pass := "P2";
                 matchedOn := ["email"];
                 reason := ("Email exact match: " ++ e)%string;
                 confidence := one_deterministic (confidence_rules policy) |} ]
       else [])
    emailMatches.

Definition p3_candidates (row : NormRow) (policy : PolicyConfig)
  (byGclid : bool) (clickKey : string) (clickMatches : list ClickMatch)
  : list MatchCandidate :=
  flat_map
    (fun m =>
       if isWithinWindow (occurredAt row) (cm_occurredAt m)
            (w_click_chain (windows policy))
       then [ {| stitchId := cm_stitchId m;
                 weight := wt_click_chain (weights policy);
                 pass := "P3";
                 matchedOn := [if byGclid then "gclid" else "client_id"];
                 reason := ("Click chain match: " ++ clickKey)%string;
                 confidence := click_only (confidence_rules policy) |} ]
       else [])
    clickMatches.

(** The body of the fuzzy loop for one lead [m], after the similarity of
    the names is known. *)
Definition p4_after_similarity (row : NormRow) (policy : PolicyConfig)
  (rlocation mlocation : string) (m : StitchedLead) (nameSimilarity : Q)
  : list MatchCandidate :=
  if Qlt_bool nameSimilarity (88 # 100) then []
  else
    let locationMatch :=
      (Js.includes (Js.toLowerCase rlocation) (Js.toLowerCase mlocation)
       || Js.includes (Js.toLowerCase mlocation) (Js.toLowerCase rlocation))%bool in
    if negb locationMatch then []
    else
      let phoneMatch :=
        match phone row, sl_phone m with
        | Some (String a p), Some (String b q) =>
            calculateHammingDistance (String a p) (String b q) <=? 1
        | _, _ => true
        end in
      if phoneMatch
      then [ {| stitchId := sl_id m;
                weight := wt_fuzzy_match (weights policy);
                pass := "P4";
                matchedOn := ["name"; "location"];
                reason := ("Fuzzy match: name similarity " ++
                           Js.toFixed2 nameSimilarity ++
                           ", location match")%string;
                confidence := fuzzy_only (confidence_rules policy) |} ]
      else [].

(** The body of the fuzzy loop for one lead [m]; [rname] and [rlocation]
    are the event's name and location, both non-empty.  It yields what it
    pushes on the array, or what the similarity call throws. *)
Definition p4_step (rt : Runtime) (row : NormRow) (policy : PolicyConfig)
  (rname rlocation : string) (m : StitchedLead) : exn + list MatchCandidate :=
  match sl_name m, sl_location m with
  | Some (String c1 n), Some (String c2 l) =>
      let mname := String c1 n in
      let mlocation := String c2 l in
      if negb (isWithinWindow (occurredAt row) (leadCreatedAt m)
                 (w_fuzzy_match (windows policy)))
      then inr []
      else
        match calculateSimilarity rt rname mname with
        | inl error => inl error
        | inr nameSimilarity =>
            inr (p4_after_similarity row policy rlocation mlocation m
                   nameSimilarity)
        end
  | _, _ => inr []
  end.

(** The fuzzy loop: it stops at the first lead whose step throws. *)
Fixpoint p4_candidates (rt : Runtime) (row : NormRow) (policy : PolicyConfig)
  (rname rlocation : string) (fuzzyMatches : list StitchedLead)
  : exn + list MatchCandidate :=
  match fuzzyMatches with
  | [] => inr []
  | m :: rest =>
      match p4_step rt row policy rname rlocation m with
      | inl error => inl error
      | inr pushed =>
          match p4_candidates rt row policy rname rlocation rest with
          | inl error => inl error
          | inr more => inr (pushed ++ more)
          end
      end
  end.

(** [keys.get('gclid') || keys.get('client_id')]. *)
Definition clickKey_of (keys : list (string * string)) : option string :=
  match map_get keys "gclid" with
  | Some (String c s) => Some (String c s)
  | _ => map_get keys "client_id"
  end.

Section Generator.

Variable rt : Runtime.

(** The four blocks of [findMatchingStitches]; each receives the
    [candidates] array and returns it with what the pass pushed. *)

(* P1: phone exact match within window *)
Definition phone_pass (row : NormRow) (policy : PolicyConfig) (acct : Z)
  (keys : list (string * string)) (candidates : list MatchCandidate)
  : M (list MatchCandidate) :=
  match map_get keys "phone" with
  | Some p =>
      phoneMatches <- db_select rt (select_phone_matches acct p) ;;
      ret (candidates ++ p1_candidates row policy p phoneMatches)
  | None => ret candidates
  end.

(* P2: email exact match within window *)
Definition email_pass (row : NormRow) (policy : PolicyConfig) (acct : Z)
  (keys : list (string * string)) (candidates : list MatchCandidate)
  : M (list MatchCandidate) :=
  match map_get keys "email" with
  | Some e =>
      emailMatches <- db_select rt (select_email_matches acct e) ;;
      ret (candidates ++ p2_candidates row policy e emailMatches)
  | None => ret candidates
  end.

(* P3: click chain match (gclid or client_id) *)
Definition click_pass (row : NormRow) (policy : PolicyConfig) (acct : Z)
  (keys : list (string * string)) (candidates : list MatchCandidate)
  : M (list MatchCandidate) :=
  match clickKey_of keys with
  | Some (String c s) =>
      let clickKey := String c s in
      let byGclid := map_has keys "gclid" in
      clickMatches <-
        db_select rt (select_click_matches acct byGclid clickKey) ;;
      ret (candidates ++ p3_candidates row policy byGclid clickKey clickMatches)
  | _ => ret candidates
  end.

(* P4: fuzzy match (name + location + similar time) *)
Definition fuzzy_pass (row : NormRow) (policy : PolicyConfig) (acct : Z)
  (keys : list (string * string)) (candidates : list MatchCandidate)
  : M (list MatchCandidate) :=
  match map_has keys "fuzzy", name row, location row with
  | true, Some (String c1 n), Some (String c2 l) =>
      fuzzyMatches <- db_select rt (select_fuzzy_matches acct) ;;
      match p4_candidates rt row policy (String c1 n) (String c2 l)
              fuzzyMatches with
      | inl error => throw error
      | inr pushed => ret (candidates ++ pushed)
      end
  | _, _, _ => ret candidates
  end.

Definition findMatchingStitches (row : NormRow) (policy : PolicyConfig)
  (acct : Z) : M (list MatchCandidate) :=
  let candidates := [] in
  let keys := generateMatchingKeys row in
  candidates <- phone_pass row policy acct keys candidates ;;
  candidates <- email_pass row policy acct keys candidates ;;
  candidates <- click_pass row policy acct keys candidates ;;
  candidates <- fuzzy_pass row policy acct keys candidates ;;
  ret candidates.

End Generator.

(* ================================================================== *)
(** * Candidate resolver *)

(** [Array.prototype.sort(compare)]: a stable sort; [compare a b > 0] puts
    [b] before [a].  Written as the insertion of each element, from the last
    to the first, into the sorted rest. *)
Section StableSort.

Context {A : Type}.
Variable compare : A -> A -> Q.

Definition goes_after (a b : A) : bool := Qlt_bool 0 (compare a b).

Fixpoint insert_stable (x : A) (l : list A) : list A :=
  match l with
  | [] => [x]
  | y :: l' => if goes_after x y then y :: insert_stable x l' else x :: l
  end.

Fixpoint js_sort (l : list A) : list A :=
  match l with
  | [] => []
  | x :: l' => insert_stable x (js_sort l')
  end.

End StableSort.

(** The comparator [(a, b) => b.weight - a.weight]. *)
Definition by_weight_desc (a b : MatchCandidate) : Q := (weight b - weight a)%Q.

(** The walk over [policy.tie_breakers]: [Some c] when a rule returns,
    [None] when the loop ends. *)
Fixpoint apply_tie_breakers (tieBreakers : list string) (row : NormRow)
  (first : MatchCandidate) : option MatchCandidate :=
  match tieBreakers with
  | [] => None
  | tieBreaker :: rest =>
      if String.eqb tieBreaker "latest_event_time" then
        apply_tie_breakers rest row first
      else if String.eqb tieBreaker "longer_call_duration" then
        apply_tie_breakers rest row first
      else if String.eqb tieBreaker "higher_revenue" then
        apply_tie_breakers rest row first
      else if String.eqb tieBreaker "call_over_form" then
        if String.eqb (sourceType row) "calls" then Some first
        else apply_tie_breakers rest row first
      else if String.eqb tieBreaker "form_over_call" then
        if String.eqb (sourceType row) "forms" then Some first
        else apply_tie_breakers rest row first
      else apply_tie_breakers rest row first
  end.

(** [pickBestCandidate] after the sort: the comparison of the first two
    weights, the tie breakers, the default. *)
Definition pick_sorted (policy : PolicyConfig) (row : NormRow)
  (sorted : list MatchCandidate) : option MatchCandidate * list MatchCandidate :=
  match sorted with
  | c0 :: c1 :: _ =>
      (* If weights are different, pick highest *)
      if Qlt_bool (weight c1) (weight c0) then (Some c0, sorted)
      else
        (* Apply tie breakers *)
        match apply_tie_breakers (tie_breakers policy) row c0 with
        | Some c => (Some c, sorted)
        | None => (Some c0, sorted) (* Default to first candidate *)
        end
  | _ => (None, sorted) (* not reached: the sort keeps the length *)
  end.

(** [pickBestCandidate]: the winner, and the [candidates] array as the call
    leaves it (the sort is in place). *)
Definition pickBestCandidate (candidates : list MatchCandidate)
  (policy : PolicyConfig) (row : NormRow)
  : option MatchCandidate * list MatchCandidate :=
  match candidates with
  | [] => (None, candidates)
  | [c] => (Some c, candidates)
  | _ => pick_sorted policy row (js_sort by_weight_desc candidates)
  end.

(** Consecutive elements are in the order of the comparator. *)
Fixpoint in_order {A : Type} (compare : A -> A -> Q) (l : list A) : Prop :=
  match l with
  | [] => True
  | x :: l' =>
      match l' with
      | [] => True
      | y :: _ => goes_after compare x y = false
      end /\ in_order compare l'
  end.

(* ================================================================== *)
(** * Lead ledger *)

(** [x || 0] on an optional number. *)
Definition amount_or_zero (a : option Q) : Q :=
  match a with
  | Some q => if Qeq_bool q 0 then 0%Q else q
  | None => 0%Q
  end.

Definition insert_stitch (row : NormRow) (acct : Z) (sid : string) (d : Db)
  : Db * Z :=
  let newId := nextStitchDbId d in
  let stitch :=
    {| sl_id := newId;
       sl_accountId := acct;
       sl_stitchId := sid;
       leadCreatedAt := occurredAt row;
       sl_name := name row;
       sl_phone := phone row;
       sl_email := email row;
       sl_location := location row;
       revenue := amount_or_zero (amount row);
       sl_confidence := 1%Q;
       finalChannel := None;
       finalSource := None;
       finalMedium := None;
       finalCampaign := None;
       firstTouchSource := None;
       lastTouchSource := None;
       paidLastSource := None |} in
  ({| stitchedLeads := stitchedLeads d ++ [stitch];
      stitchLinks := stitchLinks d;
      auditTrail := auditTrail d;
      normalizedRows := normalizedRows d;
      usageCounters := usageCounters d;
      nextStitchDbId := newId + 1 |},
   newId).

(** [candidate?.pass || 'NEW'] and its two siblings. *)
Definition pass_or_new (candidate : option MatchCandidate) : string :=
  match candidate with
  | Some c => Js.or_default (Some (pass c)) "NEW"
  | None => "NEW"
  end.

Definition keys_or_empty (candidate : option MatchCandidate) : list string :=
  match candidate with
  | Some c => matchedOn c
  | None => []
  end.

Definition reason_or_new (candidate : option MatchCandidate) : string :=
  match candidate with
  | Some c => Js.or_default (Some (reason c)) "New lead created"
  | None => "New lead created"
  end.

Definition insert_link (row : NormRow) (stitchDbId : Z)
  (candidate : option MatchCandidate) (d : Db) : Db * unit :=
  let link :=
    {| lk_accountId := accountId row;
       lk_stitchId := stitchDbId;
       normalizedRowId := id row;
       matchPass := pass_or_new candidate;
       lk_keys := keys_or_empty candidate;
       lk_windowDays := 0;
       lk_reason := reason_or_new candidate |} in
  ({| stitchedLeads := stitchedLeads d;
      stitchLinks := stitchLinks d ++ [link];
      auditTrail := auditTrail d;
      normalizedRows := normalizedRows d;
      usageCounters := usageCounters d;
      nextStitchDbId := nextStitchDbId d |},
   tt).

Definition insert_audit (row : NormRow) (stitchDbId : Z)
  (candidate : option MatchCandidate) (d : Db) : Db * unit :=
  let entry :=
    {| au_accountId := accountId row;
       au_stitchId := stitchDbId;
       sourceFile := ("upload_" ++ Js.string_of_Z (uploadId row))%string;
       originalRowId := id row;
       au_keys := keys_or_empty candidate;
       au_windowDays := 0;
       au_matchPass := pass_or_new candidate;
       au_reason := reason_or_new candidate |} in
  ({| stitchedLeads := stitchedLeads d;
      stitchLinks := stitchLinks d;
      auditTrail := auditTrail d ++ [entry];
      normalizedRows := normalizedRows d;
      usageCounters := usageCounters d;
      nextStitchDbId := nextStitchDbId d |},
   tt).

(** [SET stitched_count = stitched_count + 1 WHERE account_id = acct]. *)
Definition increment_usage (acct : Z) (d : Db) : Db * unit :=
  ({| stitchedLeads := stitchedLeads d;
      stitchLinks := stitchLinks d;
      auditTrail := auditTrail d;
      normalizedRows := normalizedRows d;
      usageCounters :=
        map (fun u =>
               if uc_accountId u =? acct
               then {| uc_accountId := uc_accountId u;
                       periodStart := periodStart u;
                       periodEnd := periodEnd u;
                       stitchedCount := stitchedCount u + 1 |}
               else u)
            (usageCounters d);
      nextStitchDbId := nextStitchDbId d |},
   tt).

(** The usage counters of the account whose period lies in the month,
    [LIMIT 1]. *)
Definition select_usage (acct monthStart monthEnd : Z) (d : Db)
  : list UsageCounter :=
  firstn 1
    (filter (fun u => (uc_accountId u =? acct) &&
                      (monthStart <=? periodStart u) &&
                      (periodEnd u <=? monthEnd))%bool
            (usageCounters d)).

(** The placeholder limit of [checkUsageLimit]. *)
Definition usage_limit : Z := 250.

Section Ledger.

Variable rt : Runtime.

Definition createNewStitch (row : NormRow) (acct : Z) : M Z :=
  sid <- new_ulid rt ;;
  db_write rt (insert_stitch row acct sid).

Definition linkRowToStitch (row : NormRow) (stitchDbId : Z)
  (candidate : option MatchCandidate) : M unit :=
  db_write rt (insert_link row stitchDbId candidate) ;;;
  (* Create audit trail entry *)
  db_write rt (insert_audit row stitchDbId candidate).

Definition checkUsageLimit (acct : Z) : M unit :=
  now <- new_Date rt ;;
  let monthStart := startOfMonth rt now in
  let monthEnd := endOfMonth rt now in
  usage <- db_select rt (select_usage acct monthStart monthEnd) ;;
  match usage with
  | [] => throw (Error "Usage counter not found")
  | currentUsage :: _ =>
      let limit := usage_limit in
      if limit <=? stitchedCount currentUsage
      then throw (UsageLimitError
                    ("Monthly limit of " ++ Js.string_of_Z limit ++
                     " stitched leads exceeded")%string)
      else ret tt
  end.

End Ledger.

(* ================================================================== *)
(** * Attribution recomputation *)

(** [ORDER BY occurred_at]; rows of equal time are kept in table order. *)
Definition order_by_occurredAt (rows : list NormRow) : list NormRow :=
  js_sort (fun a b => inject_Z (occurredAt a - occurredAt b)) rows.

(** The rows linked to the lead, by the join of [normalized_rows] with
    [stitch_links]. *)
Definition select_linked_rows (stitchDbId : Z) (d : Db) : list NormRow :=
  order_by_occurredAt
    (flat_map
       (fun r =>
          map (fun _ => r)
              (filter (fun l => (normalizedRowId l =? id r) &&
                                (lk_stitchId l =? stitchDbId))%bool
                      (stitchLinks d)))
       (normalizedRows d)).

Definition paid_media : list string := ["cpc"; "paid"; "ppc"].

(** [m && ['cpc', 'paid', 'ppc'].includes(m.toLowerCase())]. *)
Definition is_paid_medium (m : option string) : bool :=
  match m with
  | Some (String c s) => Js.str_in (Js.toLowerCase (String c s)) paid_media
  | _ => false
  end.

(** The loop from the last linked row to the first, leaving at the first
    paid one. *)
Definition find_paidLastSource (linkedRows : list NormRow) : string :=
  match find (fun row => is_paid_medium (utmMedium row)) (rev linkedRows) with
  | Some row => Js.or_default (utmSource row) "paid"
  | None => ""
  end.

Record Triple : Type := {
  t_source : string;
  t_medium : string;
  t_campaign : string
}.

Definition touch (source : string) (r : NormRow) : Triple :=
  {| t_source := source;
     t_medium := Js.or_default (utmMedium r) "";
     t_campaign := Js.or_default (utmCampaign r) "" |}.

Definition empty_triple : Triple :=
  {| t_source := ""; t_medium := ""; t_campaign := "" |}.

(** The [switch] on [policy.attribution_mode]: the final triple, and the
    [linkedRows] array as the switch leaves it ([paid_last] reverses it in
    place). *)
Definition apply_attribution_mode (mode : AttributionMode)
  (linkedRows : list NormRow) (firstRow lastRow : NormRow)
  (firstTouch lastTouch paidLast : string) : Triple * list NormRow :=
  match mode with
  | first_touch => (touch firstTouch firstRow, linkedRows)
  | last_touch => (touch lastTouch lastRow, linkedRows)
  | paid_last =>
      match paidLast with
      | String _ _ =>
          let reversed := rev linkedRows in
          match find (fun r => col_eq (utmSource r) paidLast &&
                               is_paid_medium (utmMedium r))%bool reversed with
          | Some paidRow =>
              ({| t_source := Js.or_default (utmSource paidRow) "";
                  t_medium := Js.or_default (utmMedium paidRow) "";
                  t_campaign := Js.or_default (utmCampaign paidRow) "" |},
               reversed)
          | None => (empty_triple, reversed)
          end
      | EmptyString =>
          (* Fall back to last touch *)
          (touch lastTouch lastRow, linkedRows)
      end
  | call_first =>
      match find (fun r => String.eqb (sourceType r) "calls") linkedRows with
      | Some callRow =>
          ({| t_source := Js.or_default (utmSource callRow) "phone";
              t_medium := Js.or_default (utmMedium callRow) "call";
              t_campaign := Js.or_default (utmCampaign callRow) "" |},
           linkedRows)
      | None => (touch lastTouch lastRow, linkedRows)
      end
  | equal_weight => (empty_triple, linkedRows)  (* no [case] of the switch *)
  end.

Definition channel_of (finalMedium : string) : string :=
  match finalMedium with
  | EmptyString => "direct"
  | _ =>
      let medium := Js.toLowerCase finalMedium in
      if Js.str_in medium ["cpc"; "ppc"; "paid"] then "paid_search"
      else if Js.str_in medium ["social"; "facebook"; "linkedin"] then "social"
      else if String.eqb medium "email" then "email"
      else if String.eqb medium "organic" then "organic_search"
      else "other"
  end.

(** What [recomputeAttribution] writes to the lead. *)
Record Attribution : Type := {
  a_finalChannel : string;
  a_finalSource : string;
  a_finalMedium : string;
  a_finalCampaign : string;
  a_firstTouchSource : string;
  a_lastTouchSource : string;
  a_paidLastSource : string;
  a_revenue : Q
}.

(** The computation between the query and the update; [None] is the early
    [return] on no linked row. *)
Definition computeAttribution (policy : PolicyConfig)
  (linkedRows : list NormRow) : option Attribution :=
  match linkedRows with
  | [] => None
  | firstRow :: _ =>
      let firstTouch := Js.or_default (utmSource firstRow) "direct" in
      let lastRow := last linkedRows firstRow in
      let lastTouch := Js.or_default (utmSource lastRow) "direct" in
      let paidLast := find_paidLastSource linkedRows in
      let (final, linkedRows') :=
        apply_attribution_mode (attribution_mode policy) linkedRows
          firstRow lastRow firstTouch lastTouch paidLast in
      let totalRevenue :=
        fold_left (fun sum row => (sum + amount_or_zero (amount row))%Q)
                  linkedRows' 0%Q in
      Some {| a_finalChannel := channel_of (t_medium final);
              a_finalSource := t_source final;
              a_finalMedium := t_medium final;
              a_finalCampaign := t_campaign final;
              a_firstTouchSource := firstTouch;
              a_lastTouchSource := lastTouch;
              a_paidLastSource := paidLast;
              a_revenue := totalRevenue |}
  end.

Definition set_attribution (a : Attribution) (l : StitchedLead) : StitchedLead :=
  {| sl_id := sl_id l;
     sl_accountId := sl_accountId l;
     sl_stitchId := sl_stitchId l;
     leadCreatedAt := leadCreatedAt l;
     sl_name := sl_name l;
     sl_phone := sl_phone l;
     sl_email := sl_email l;
     sl_location := sl_location l;
     revenue := a_revenue a;
     sl_confidence := sl_confidence l;
     finalChannel := Some (a_finalChannel a);
     finalSource := Some (a_finalSource a);
     finalMedium := Some (a_finalMedium a);
     finalCampaign := Some (a_finalCampaign a);
     firstTouchSource := Some (a_firstTouchSource a);
     lastTouchSource := Some (a_lastTouchSource a);
     paidLastSource := Some (a_paidLastSource a) |}.

Definition update_stitch (stitchDbId : Z) (a : Attribution) (d : Db)
  : Db * unit :=
  ({| stitchedLeads :=
        map (fun l => if sl_id l =? stitchDbId then set_attribution a l else l)
            (stitchedLeads d);
      stitchLinks := stitchLinks d;
      auditTrail := auditTrail d;
      normalizedRows := normalizedRows d;
      usageCounters := usageCounters d;
      nextStitchDbId := nextStitchDbId d |},
   tt).

(* ================================================================== *)
(** * Match orchestrator *)

Definition select_rows (acct : Z) (uploadIds : list Z) (d : Db) : list NormRow :=
  order_by_occurredAt
    (filter (fun r => (accountId r =? acct) &&
                      existsb (Z.eqb (uploadId r)) uploadIds)%bool
            (normalizedRows d)).

Definition empty_result : MatchResult :=
  {| stitchedNew := 0; linksCreated := 0; errors := [] |}.

Definition incr_stitchedNew (r : MatchResult) : MatchResult :=
  {| stitchedNew := stitchedNew r + 1;
     linksCreated := linksCreated r;
     errors := errors r |}.

Definition incr_linksCreated (r : MatchResult) : MatchResult :=
  {| stitchedNew := stitchedNew r;
     linksCreated := linksCreated r + 1;
     errors := errors r |}.

Definition push_error (errorMsg : string) (r : MatchResult) : MatchResult :=
  {| stitchedNew := stitchedNew r;
     linksCreated := linksCreated r;
     errors := errors r ++ [errorMsg] |}.

Definition errorMsg_of (row : NormRow) (error : exn) : string :=
  ("Failed to process row " ++ Js.string_of_Z (id row) ++ ": " ++
   message error)%string.

Section Orchestrator.

Variable rt : Runtime.

Definition recomputeAttribution (stitchDbId : Z) (policy : PolicyConfig)
  : M unit :=
  linkedRows <- db_select rt (select_linked_rows stitchDbId) ;;
  match computeAttribution policy linkedRows with
  | None => ret tt
  | Some a => db_write rt (update_stitch stitchDbId a)
  end.

(** The body of the [try] of the loop of [runMatch]. *)
Definition process_row (policy : PolicyConfig) (acct : Z) (row : NormRow)
  : M unit :=
  (* Check usage limit before creating new stitches *)
  checkUsageLimit rt acct ;;;
  (* Find matching candidates *)
  candidates <- findMatchingStitches rt row policy acct ;;
  (* Pick best candidate *)
  let winner := fst (pickBestCandidate candidates policy row) in
  stitchDbId <-
    match winner with
    | Some w =>
        (* Link to existing stitch *)
        ret (stitchId w)
    | None =>
        (* Create new stitch *)
        newId <- createNewStitch rt row acct ;;
        update_result incr_stitchedNew ;;;
        (* Increment usage counter *)
        db_write rt (increment_usage acct) ;;;
        ret newId
    end ;;
  (* Link row to stitch *)
  linkRowToStitch rt row stitchDbId winner ;;;
  update_result incr_linksCreated ;;;
  (* Recompute attribution *)
  recomputeAttribution stitchDbId policy.

(** One turn of the loop: the body under its [catch]. *)
Definition process_row_caught (policy : PolicyConfig) (acct : Z) (row : NormRow)
  : M unit :=
  try_catch (process_row policy acct row)
    (fun error => update_result (push_error (errorMsg_of row error))).

Fixpoint process_rows (policy : PolicyConfig) (acct : Z) (rows : list NormRow)
  : M unit :=
  match rows with
  | [] => ret tt
  | row :: rest =>
      process_row_caught policy acct row ;;;
      process_rows policy acct rest
  end.

Definition get_result : M MatchResult := fun w => (w, inr (result w)).

(** The loop of [runMatch] over the rows read, and its [return result]. *)
Definition match_rows (policy : PolicyConfig) (acct : Z) (rows : list NormRow)
  : M MatchResult :=
  process_rows policy acct rows ;;;
  get_result.

(** The first query of [runMatch]: one step; the database rejects it, for a
    fault or for the list operand of [ANY], or answers with the rows of the
    account and of the uploads. *)
Definition select_batch (acct : Z) (uploadIds : list Z) : M (list NormRow) :=
  fun w =>
    match faults rt (steps w) with
    | Some msg => (tick w, inl (Error msg))
    | None =>
        match list_operand rt uploadIds with
        | Some msg => (tick w, inl (Error msg))
        | None => (tick w, inr (select_rows acct uploadIds (db w)))
        end
    end.

(** [runMatch], from the parsed policy on. *)
Definition runMatch (acct : Z) (uploadIds : list Z) (policy : PolicyConfig)
  : M MatchResult :=
  update_result (fun _ => empty_result) ;;;
  try_catch
    (rows <- select_batch acct uploadIds ;;
     match_rows policy acct rows)
    (fun error => throw error).

End Orchestrator.

(* ================================================================== *)
(** * Policy model: [validatePolicyYaml] *)

Module Policy.

(** What the [yaml] package's [parse] yields: null, a boolean, a number, a
    string, an array or a plain object (its keys are distinct: the parser
    rejects a duplicate). *)
#[warnings="-register-all"] Inductive yaml : Type :=
  | YNull
  | YBool (b : bool)
  | YNum (q : Q)
  | YStr (s : string)
  | YSeq (items : list yaml)
  | YMap (entries : list (string * yaml)).

Fixpoint lookup (entries : list (string * yaml)) (k : string) : option yaml :=
  match entries with
  | [] => None
  | (k', v) :: rest => if String.eqb k' k then Some v else lookup rest k
  end.

(** [policy.k]: a [TypeError] on null ([inl]), else the property or
    [undefined] ([None]). *)
Definition get_prop (policy : yaml) (k : string) : string + option yaml :=
  match policy with
  | YNull =>
      inl ("Cannot read properties of null (reading '" ++ k ++ "')")%string
  | YMap entries => inr (lookup entries k)
  | _ => inr None
  end.

(** [!v]. *)
Definition falsy (v : option yaml) : bool :=
  match v with
  | None => true
  | Some YNull => true
  | Some (YBool b) => negb b
  | Some (YNum q) => Qeq_bool q 0
  | Some (YStr s) => match s with EmptyString => true | _ => false end
  | Some (YSeq _) => false
  | Some (YMap _) => false
  end.

(** [typeof v]. *)
Definition typeof (v : option yaml) : string :=
  match v with
  | None => "undefined"
  | Some YNull => "object"
  | Some (YBool _) => "boolean"
  | Some (YNum _) => "number"
  | Some (YStr _) => "string"
  | Some (YSeq _) => "object"
  | Some (YMap _) => "object"
  end.

Definition attribution_modes : list string :=
  ["paid_last"; "first_touch"; "last_touch"; "call_first"; "equal_weight"].

(** [attribution_modes.includes(v)]. *)
Definition modes_include (v : option yaml) : bool :=
  match v with
  | Some (YStr s) => Js.str_in s attribution_modes
  | _ => false
  end.

(** The outcome of [validatePolicyYaml]: the policy it returns, or the
    [ValidationError] it throws. *)
Inductive outcome : Type :=
  | Returns (policy : yaml)
  | ValidationError (msg : string).

Definition invalid (msg : string) : outcome :=
  ValidationError ("Invalid YAML policy: " ++ msg)%string.

(** The body of the [try], after the parse. *)
Definition validate_parsed (policy : yaml) : outcome :=
  match get_prop policy "name" with
  | inl typeError => invalid typeError
  | inr pname =>
      if (falsy pname || negb (String.eqb (typeof pname) "string"))%bool
      then invalid "Policy must have a name"
      else
        match get_prop policy "attribution_mode" with
        | inl typeError => invalid typeError
        | inr mode =>
            if (falsy mode || negb (modes_include mode))%bool
            then invalid "Policy must have a valid attribution_mode"
            else
              match get_prop policy "windows" with
              | inl typeError => invalid typeError
              | inr pwindows =>
                  if (falsy pwindows ||
                      negb (String.eqb (typeof pwindows) "object"))%bool
                  then invalid "Policy must have windows configuration"
                  else
                    match get_prop policy "weights" with
                    | inl typeError => invalid typeError
                    | inr pweights =>
                        if (falsy pweights ||
                            negb (String.eqb (typeof pweights) "object"))%bool
                        then invalid "Policy must have weights configuration"
                        else Returns policy
                    end
              end
        end
  end.

Section Validate.

(** The parser of the [yaml] package: the parsed document, or the message
    of the error it throws. *)
Variable parseYaml : string -> string + yaml.

Definition validatePolicyYaml (yamlString : string) : outcome :=
  match parseYaml yamlString with
  | inl parseError => invalid parseError
  | inr policy => validate_parsed policy
  end.

End Validate.

(** ** The words of the specification *)

(** The document has a name: a non-empty string. *)
Definition has_name (policy : yaml) : Prop :=
  exists s, get_prop policy "name" = inr (Some (YStr s)) /\ s <> "".

(** The document has a recognized attribution mode. *)
Definition has_mode (policy : yaml) : Prop :=
  exists s, get_prop policy "attribution_mode" = inr (Some (YStr s)) /\
            In s attribution_modes.

(** The document has a map under [k]. *)
Definition has_map (policy : yaml) (k : string) : Prop :=
  exists entries, get_prop policy k = inr (Some (YMap entries)).

(** The document has a map or a sequence under [k]. *)
Definition has_map_or_seq (policy : yaml) (k : string) : Prop :=
  has_map policy k \/ exists items, get_prop policy k = inr (Some (YSeq items)).

Definition fails (o : outcome) : Prop := exists msg, o = ValidationError msg.

Definition known_key (k : string) : bool :=
  Js.str_in k ["name"; "attribution_mode"; "windows"; "weights"].

(** The document without its unknown keys. *)
Definition known_part (entries : list (string * yaml)) : list (string * yaml) :=
  filter (fun e => known_key (fst e)) entries.

(** The condition of failure in the words of the specification: no name or
    a malformed one, no recognized attribution mode, no [windows] map, no
    [weights] map.  A text that does not parse has none of them. *)
Definition spec_rejects (parsed : string + yaml) : Prop :=
  match parsed with
  | inl _ => True
  | inr policy =>
      ~ has_name policy \/ ~ has_mode policy \/
      ~ has_map policy "windows" \/ ~ has_map policy "weights"
  end.

(** The same condition with a sequence accepted where a map is asked. *)
Definition rejects (parsed : string + yaml) : Prop :=
  match parsed with
  | inl _ => True
  | inr policy =>
      ~ has_name policy \/ ~ has_mode policy \/
      ~ has_map_or_seq policy "windows" \/ ~ has_map_or_seq policy "weights"
  end.

(** The checks of [validate_parsed], as booleans. *)
Definition name_ok (policy : yaml) : bool :=
  match get_prop policy "name" with
  | inr (Some (YStr (String _ _))) => true
  | _ => false
  end.

Definition mode_ok (policy : yaml) : bool :=
  match get_prop policy "attribution_mode" with
  | inr (Some (YStr s)) => Js.str_in s attribution_modes
  | _ => false
  end.

Definition object_ok (policy : yaml) (k : string) : bool :=
  match get_prop policy k with
  | inr (Some (YSeq _)) | inr (Some (YMap _)) => true
  | _ => false
  end.

Definition accepts (policy : yaml) : bool :=
  (name_ok policy && mode_ok policy &&
   object_ok policy "windows" && object_ok policy "weights")%bool.

(** A policy whose [windows] is a sequence:
    [name: p], [attribution_mode: last_touch], [windows: []], [weights: {}]. *)
Definition windows_as_sequence : yaml :=
  YMap [("name", YStr "p"); ("attribution_mode", YStr "last_touch");
        ("windows", YSeq []); ("weights", YMap [])].

End Policy.

(* ================================================================== *)
(** * Vocabulary of the properties *)

(** A run in which the database rejects nothing. *)
Definition no_faults (rt : Runtime) : Prop := forall k, faults rt k = None.

(** The parts of the world a query leaves alone. *)
Definition same_data (w w' : World) : Prop :=
  db w' = db w /\ result w' = result w.

(** ** The candidate generator as a function of the database *)

Definition p1_of (row : NormRow) (policy : PolicyConfig) (acct : Z) (d : Db)
  : list MatchCandidate :=
  match map_get (generateMatchingKeys row) "phone" with
  | Some p => p1_candidates row policy p (select_phone_matches acct p d)
  | None => []
  end.

Definition p2_of (row : NormRow) (policy : PolicyConfig) (acct : Z) (d : Db)
  : list MatchCandidate :=
  match map_get (generateMatchingKeys row) "email" with
  | Some e => p2_candidates row policy e (select_email_matches acct e d)
  | None => []
  end.

Definition p3_of (row : NormRow) (policy : PolicyConfig) (acct : Z) (d : Db)
  : list MatchCandidate :=
  let keys := generateMatchingKeys row in
  match clickKey_of keys with
  | Some (String c s) =>
      p3_candidates row policy (map_has keys "gclid") (String c s)
        (select_click_matches acct (map_has keys "gclid") (String c s) d)
  | _ => []
  end.

Definition p4_of (rt : Runtime) (row : NormRow) (policy : PolicyConfig)
  (acct : Z) (d : Db) : exn + list MatchCandidate :=
  match map_has (generateMatchingKeys row) "fuzzy", name row, location row with
  | true, Some (String c1 n), Some (String c2 l) =>
      p4_candidates rt row policy (String c1 n) (String c2 l)
        (select_fuzzy_matches acct d)
  | _, _, _ => inr []
  end.

(** The array the generator returns, or what its fuzzy loop throws. *)
Definition candidates_of (rt : Runtime) (row : NormRow) (policy : PolicyConfig)
  (acct : Z) (d : Db) : exn + list MatchCandidate :=
  match p4_of rt row policy acct d with
  | inl error => inl error
  | inr fuzzy =>
      inr (p1_of row policy acct d ++ p2_of row policy acct d ++
           p3_of row policy acct d ++ fuzzy)
  end.

(** The fuzzy pass of the event cannot throw: the event lacks a name or a
    location, so that the pass is skipped, or [jaroWinkler] is bound to a
    function. *)
Definition fuzzy_pass_safe (rt : Runtime) (row : NormRow) : Prop :=
  (Js.truthy (name row) && Js.truthy (location row))%bool = false \/
  exists distance, jaroWinkler rt = inr distance.


(** ** The usage counter and what a computation leaves alone *)

(** The count of the usage counter that [checkUsageLimit] reads in the month
    from [monthStart] to [monthEnd]; [None] when the account has none. *)
Definition usage_of (acct monthStart monthEnd : Z) (d : Db) : option Z :=
  match select_usage acct monthStart monthEnd d with
  | [] => None
  | currentUsage :: _ => Some (stitchedCount currentUsage)
  end.

(** A computation [m] keeps the relation [P] between the world it starts in
    and the world it ends in, whether it returns or throws. *)
Definition keeps (P : World -> World -> Prop) {A : Type} (m : M A) : Prop :=
  forall w w' r, m w = (w', r) -> P w w'.

(** The error list is as it was. *)
Definition same_errors (w w' : World) : Prop :=
  errors (result w') = errors (result w).

(** The usage counters and the count of new leads are as they were, and no
    lead was added or removed. *)
Definition same_usage (w w' : World) : Prop :=
  usageCounters (db w') = usageCounters (db w) /\
  stitchedNew (result w') = stitchedNew (result w) /\
  map sl_id (stitchedLeads (db w')) = map sl_id (stitchedLeads (db w)).

(** What follows the choice of the lead in the body of the loop: the link,
    the count of links, the recomputation. *)
Definition link_and_recompute (rt : Runtime) (policy : PolicyConfig)
  (row : NormRow) (stitchDbId : Z) (winner : option MatchCandidate) : M unit :=
  linkRowToStitch rt row stitchDbId winner ;;;
  update_result incr_linksCreated ;;;
  recomputeAttribution rt stitchDbId policy.

(** The branch without a winner: the new lead, its count, the usage
    counter. *)
Definition create_and_count (rt : Runtime) (row : NormRow) (acct : Z) : M Z :=
  newId <- createNewStitch rt row acct ;;
  update_result incr_stitchedNew ;;;
  db_write rt (increment_usage acct) ;;;
  ret newId.

(** The world in which the loop of [runMatch] starts. *)
Definition loop_start (w : World) : World := tick (set_result empty_result w).

(** ** Paid-last source, in the words of the specification *)

(** Case-insensitive equality. *)
Definition ci_equal (a b : string) : bool :=
  String.eqb (Js.toLowerCase a) (Js.toLowerCase b).

(** The event's UTM medium equals one of "cpc", "paid", "ppc" up to case. *)
Definition medium_is_paid (r : NormRow) : bool :=
  match utmMedium r with
  | Some m => existsb (ci_equal m) paid_media
  | None => false
  end.

(** The first paid event met from the latest to the earliest. *)
Definition latest_paid_event (linkedRows : list NormRow) : option NormRow :=
  find medium_is_paid (rev linkedRows).

(** Its UTM source; empty when there is no such event. *)
Definition spec_paidLastSource (linkedRows : list NormRow) : string :=
  match latest_paid_event linkedRows with
  | Some r => match utmSource r with Some s => s | None => "" end
  | None => ""
  end.

(** The same, "paid" standing for a UTM source that is absent or empty. *)
Definition amended_paidLastSource (linkedRows : list NormRow) : string :=
  match latest_paid_event linkedRows with
  | Some r => Js.or_default (utmSource r) "paid"
  | None => ""
  end.

(** The final triple of a lead, as stored. *)
Definition final_triple (l : StitchedLead)
  : option string * option string * option string :=
  (finalSource l, finalMedium l, finalCampaign l).

(* ================================================================== *)
(** * Concrete data *)

Module Fixture.

(** A runtime for running the engine on concrete data: [jaroWinkler] is
    bound to a function for which two names are similar when they are equal,
    a month is a block of thirty days, the clock stands on day 100, and the
    database rejects nothing. *)
Definition month : Z := 30 * msPerDay.

Definition rt : Runtime :=
  {| jaroWinkler := inr (fun a b => if String.eqb a b then 1%Q else 0%Q);
     startOfMonth := fun t => t - t mod month;
     endOfMonth := fun t => t - t mod month + 29 * msPerDay;
     clock := fun _ => 100 * msPerDay;
     ulid := fun k => ("01J" ++ Js.string_of_Z (Z.of_nat k))%string;
     faults := fun _ => None;
     list_operand := fun _ => None |}.

(** The same runtime, the database rejecting the step numbered [k]. *)
Definition rt_rejecting (k : nat) : Runtime :=
  {| jaroWinkler := jaroWinkler rt;
     startOfMonth := startOfMonth rt;
     endOfMonth := endOfMonth rt;
     clock := clock rt;
     ulid := ulid rt;
     faults := fun n => if Nat.eqb n k then Some "connection terminated" else None;
     list_operand := list_operand rt |}.

(** The runtime of the program as it is deployed: the package has no export
    [distance], and the database rejects the list operand of [ANY]. *)
Definition deployed : Runtime :=
  {| jaroWinkler := inl "(0 , natural_1.distance) is not a function";
     startOfMonth := startOfMonth rt;
     endOfMonth := endOfMonth rt;
     clock := clock rt;
     ulid := ulid rt;
     faults := fun _ => None;
     list_operand :=
       fun _ => Some "op ANY/ALL (array) requires array on right side" |}.

(** The deployed runtime, the database rejecting the step numbered [k]. *)
Definition deployed_rejecting (k : nat) : Runtime :=
  {| jaroWinkler := jaroWinkler deployed;
     startOfMonth := startOfMonth rt;
     endOfMonth := endOfMonth rt;
     clock := clock rt;
     ulid := ulid rt;
     faults := fun n => if Nat.eqb n k then Some "connection terminated" else None;
     list_operand := list_operand deployed |}.

(** The default policy "Paid-Last Roofing Default" of the policy routes, and
    the same policy under another attribution mode. *)
Definition policy_with (mode : AttributionMode) : PolicyConfig :=
  {| policy_name := "Paid-Last Roofing Default";
     attribution_mode := mode;
     windows := {| w_phone_exact := 30; w_email_exact := 30;
                   w_click_chain := 7; w_fuzzy_match := 1 |};
     weights := {| wt_phone_exact := 1; wt_email_exact := 9 # 10;
                   wt_click_chain := 7 # 10; wt_fuzzy_match := 5 # 10 |};
     tie_breakers := ["latest_event_time"; "longer_call_duration";
                      "higher_revenue"];
     confidence_rules := {| two_deterministic := 1; one_deterministic := 9 # 10;
                            click_only := 7 # 10; fuzzy_only := 5 # 10 |} |}.

Definition policy : PolicyConfig := policy_with paid_last.

(** An event of account 1 and upload 1. *)
Definition event (rowId : Z) (kind : string) (day : Z)
  (n p : option string) (src med camp : option string) : NormRow :=
  {| id := rowId; accountId := 1; uploadId := 1; sourceType := kind;
     occurredAt := day * msPerDay;
     name := n; phone := p; email := None; gclid := None; clientId := None;
     utmSource := src; utmMedium := med; utmCampaign := camp;
     location := match n with Some _ => Some "Austin, TX" | None => None end;
     durationSec := None; amount := None |}.

(** A lead of account 1, as [createNewStitch] leaves it. *)
Definition lead (leadId : Z) (day : Z) (n p : option string) : StitchedLead :=
  {| sl_id := leadId; sl_accountId := 1;
     sl_stitchId := ("01J" ++ Js.string_of_Z leadId)%string;
     leadCreatedAt := day * msPerDay;
     sl_name := n; sl_phone := p; sl_email := None;
     sl_location := match n with Some _ => Some "Austin" | None => None end;
     revenue := 0; sl_confidence := 1;
     finalChannel := None; finalSource := None; finalMedium := None;
     finalCampaign := None; firstTouchSource := None;
     lastTouchSource := None; paidLastSource := None |}.

Definition link (leadId rowId : Z) : StitchLink :=
  {| lk_accountId := 1; lk_stitchId := leadId; normalizedRowId := rowId;
     matchPass := "NEW"; lk_keys := []; lk_windowDays := 0;
     lk_reason := "New lead created" |}.

(** The usage counter of account 1 for the month of day 100 (days 90 to
    119), at [n] leads. *)
Definition counter (n : Z) : UsageCounter :=
  {| uc_accountId := 1; periodStart := 90 * msPerDay;
     periodEnd := 119 * msPerDay; stitchedCount := n |}.

Definition database (leads : list StitchedLead) (links : list StitchLink)
  (rows : list NormRow) (counters : list UsageCounter) : Db :=
  {| stitchedLeads := leads; stitchLinks := links; auditTrail := [];
     normalizedRows := rows; usageCounters := counters;
     nextStitchDbId := 1 + Z.of_nat (List.length leads) |}.

Definition world (d : Db) : World :=
  {| db := d; steps := 0; result := empty_result |}.

Definition phone1 : option string := Some "5125550101".

(** A lead created on day 0 with a phone, and an event with the same phone
    on day 31. *)
Definition lead_day0 : StitchedLead := lead 1 0 None phone1.
Definition call_day31 : NormRow := event 10 "calls" 31 None phone1 None None None.
Definition call_day30 : NormRow := event 11 "calls" 30 None phone1 None None None.

(** A lead with a name and a location, and an event with the same name. *)
Definition lead_named : StitchedLead := lead 1 100 (Some "Maria Lopez") None.
Definition form_named : NormRow :=
  event 12 "forms" 100 (Some "maria lopez") None None None None.

(** A lead created on day 100 with a phone, and a call with the same phone
    on the same day. *)
Definition lead_day100 : StitchedLead := lead 1 100 None phone1.
Definition call_day100 : NormRow :=
  event 13 "calls" 100 None phone1 None None None.

(** Two events of upload 1 with no key to match on. *)
Definition chat_a : NormRow := event 14 "chats" 100 None None None None None.
Definition chat_b : NormRow := event 15 "chats" 101 None None None None None.

(** A paid click without a UTM source, and one with all three UTM fields. *)
Definition click_no_source : NormRow :=
  event 20 "forms" 100 None phone1 None (Some "CPC") (Some "spring").
Definition click_google : NormRow :=
  event 21 "forms" 101 None phone1 (Some "google") (Some "cpc") (Some "spring").

(** Lead 1 with the given events linked to it. *)
Definition linked_to_lead1 (rows : list NormRow) : Db :=
  database [lead 1 100 None phone1] (map (fun r => link 1 (id r)) rows) rows
           [counter 0].

End Fixture.

Module Deployed.

(** A lead with a name, a location and a phone, created on day 100, and a
    call of the same person from the same phone on that day. *)
Definition lead_maria : StitchedLead :=
  Fixture.lead 1 100 (Some "Maria Lopez") Fixture.phone1.
Definition call_maria : NormRow :=
  Fixture.event 16 "calls" 100 (Some "maria lopez") Fixture.phone1
    None None None.

End Deployed.

(* ================================================================== *)
(** * Vocabulary of the further properties *)

(** The event has no key to match on: no phone, no email, no click
    identifier, and not both a name and a location. *)
Definition keyless (row : NormRow) : bool :=
  (negb (Js.truthy (phone row)) && negb (Js.truthy (email row)) &&
   negb (Js.truthy (gclid row)) && negb (Js.truthy (clientId row)) &&
   negb (Js.truthy (name row) && Js.truthy (location row)))%bool.

(** The weight the policy gives to the pass named on a candidate. *)
Definition weight_of_pass (policy : PolicyConfig) (p : string) : Q :=
  if String.eqb p "P1" then wt_phone_exact (weights policy)
  else if String.eqb p "P2" then wt_email_exact (weights policy)
  else if String.eqb p "P3" then wt_click_chain (weights policy)
  else wt_fuzzy_match (weights policy).

(** The phone weight is not outweighed by the weight of another pass. *)
Definition phone_weight_leads (policy : PolicyConfig) : Prop :=
  (wt_email_exact (weights policy) <= wt_phone_exact (weights policy))%Q /\
  (wt_click_chain (weights policy) <= wt_phone_exact (weights policy))%Q /\
  (wt_fuzzy_match (weights policy) <= wt_phone_exact (weights policy))%Q.

Module MoreData.

(** Three candidates: the first and the third of weight 1, the second of
    weight 9/10. *)
Definition candidate (sid : Z) (wt : Q) (p : string) : MatchCandidate :=
  {| stitchId := sid; weight := wt; pass := p; matchedOn := [];
     reason := ""; confidence := 1 |}.

Definition by_email : MatchCandidate := candidate 7 (9 # 10) "P2".
Definition by_phone : MatchCandidate := candidate 8 1 "P1".
Definition by_phone_again : MatchCandidate := candidate 9 1 "P1".

End MoreData.

(** The distance in milliseconds between two instants is within a window
    given in days. *)
Definition within_days (date1 date2 : Z) (windowDays : Q) : Prop :=
  (inject_Z (Z.abs (date1 - date2)) <= windowDays * inject_Z msPerDay)%Q.

Module MoreData2.

Definition email1 : option string := Some "ana@example.com".

(** A lead with an email, created on day 100. *)
Definition lead_with_email : StitchedLead :=
  {| sl_id := 1; sl_accountId := 1; sl_stitchId := "01J1";
     leadCreatedAt := 100 * msPerDay;
     sl_name := None; sl_phone := Fixture.phone1; sl_email := email1;
     sl_location := None; revenue := 0; sl_confidence := 1;
     finalChannel := None; finalSource := None; finalMedium := None;
     finalCampaign := None; firstTouchSource := None;
     lastTouchSource := None; paidLastSource := None |}.

(** A form of day 102 with the same phone and email, a click identifier and
    a client identifier. *)
Definition form_full : NormRow :=
  {| id := 30; accountId := 1; uploadId := 1; sourceType := "forms";
     occurredAt := 102 * msPerDay;
     name := None; phone := Fixture.phone1; email := email1;
     gclid := Some "gclid-1"; clientId := Some "cid-1";
     utmSource := None; utmMedium := None; utmCampaign := None;
     location := None; durationSec := None; amount := None |}.

(** An earlier event with the same click identifier, linked to lead 1. *)
Definition earlier_click : NormRow :=
  {| id := 29; accountId := 1; uploadId := 1; sourceType := "forms";
     occurredAt := 100 * msPerDay;
     name := None; phone := None; email := None;
     gclid := Some "gclid-1"; clientId := None;
     utmSource := None; utmMedium := None; utmCampaign := None;
     location := None; durationSec := None; amount := None |}.

Definition db_full : Db :=
  Fixture.database [lead_with_email] [Fixture.link 1 29]
    [earlier_click; form_full] [Fixture.counter 0].

End MoreData2.

(** One location contains the other, up to case. *)
Definition locations_overlap (a b : string) : Prop :=
  Js.includes (Js.toLowerCase a) (Js.toLowerCase b) = true \/
  Js.includes (Js.toLowerCase b) (Js.toLowerCase a) = true.

(** Two phones of the same length that differ in at most one position. *)
Definition phones_close (p q : string) : Prop :=
  String.length p = String.length q /\ count_mismatches p q <= 1.

Module MoreData3.

(** An organic visit on day 100, then a paid click from google on day 101
    (the scenario of the paid-last mode). *)
Definition organic_visit : NormRow :=
  Fixture.event 40 "forms" 100 None Fixture.phone1
    (Some "newsletter") (Some "organic") None.

Definition two_touches : list NormRow := [organic_visit; Fixture.click_google].

End MoreData3.

(** ** What a match job keeps *)

(** The fields of a lead that identify it and that the engine seeds from
    the first event: everything but the revenue and the attribution. *)
Definition lead_identity (l : StitchedLead)
  : Z * Z * string * Z * option string * option string * option string *
    option string * Q :=
  (sl_id l, sl_accountId l, sl_stitchId l, leadCreatedAt l, sl_name l,
   sl_phone l, sl_email l, sl_location l, sl_confidence l).

(** [l'] continues [l]: [l] followed by new elements. *)
Definition extends {A : Type} (l l' : list A) : Prop :=
  exists added, l' = l ++ added.

(** The tables only grow: the events are as they were, every lead is still
    there with its identity, every link and audit entry is still there. *)
Definition grows (w w' : World) : Prop :=
  normalizedRows (db w') = normalizedRows (db w) /\
  extends (map lead_identity (stitchedLeads (db w)))
          (map lead_identity (stitchedLeads (db w'))) /\
  extends (stitchLinks (db w)) (stitchLinks (db w')) /\
  extends (auditTrail (db w)) (auditTrail (db w')).

(** The identifiers of the leads are distinct and below the serial. *)
Definition ids_fresh (d : Db) : Prop :=
  NoDup (map sl_id (stitchedLeads d)) /\
  forall l, In l (stitchedLeads d) -> sl_id l < nextStitchDbId d.

Definition keeps_ids_fresh (w w' : World) : Prop :=
  ids_fresh (db w) -> ids_fresh (db w').

(** The usage counters with [k] added to each counter of the account. *)
Definition bump (acct k : Z) (counters : list UsageCounter) : list UsageCounter :=
  map (fun u =>
         if uc_accountId u =? acct
         then {| uc_accountId := uc_accountId u;
                 periodStart := periodStart u;
                 periodEnd := periodEnd u;
                 stitchedCount := stitchedCount u + k |}
         else u)
      counters.

(** How many rows a table has. *)
Definition rows_in {A : Type} (table : list A) : Z := Z.of_nat (List.length table).

(** The books of a job between two worlds: the leads added are those the
    result counts; the usage counters of the account went up together, by no
    more than that count, those of the other accounts not at all; the links
    counted in the result have their audit entry, and every audit entry
    added has its link. *)
Definition tally (acct : Z) (w w' : World) : Prop :=
  exists k,
    usageCounters (db w') = bump acct k (usageCounters (db w)) /\
    rows_in (stitchedLeads (db w')) - rows_in (stitchedLeads (db w)) =
      stitchedNew (result w') - stitchedNew (result w) /\
    0 <= k <= stitchedNew (result w') - stitchedNew (result w) /\
    0 <= linksCreated (result w') - linksCreated (result w) /\
    linksCreated (result w') - linksCreated (result w) <=
      rows_in (auditTrail (db w')) - rows_in (auditTrail (db w)) /\
    rows_in (auditTrail (db w')) - rows_in (auditTrail (db w)) <=
      rows_in (stitchLinks (db w')) - rows_in (stitchLinks (db w)).

(** The books of one event that was processed to the end: [k] new leads
    (none or one), counted in the result and in the usage counters of the
    account; one link, one audit entry, one more link counted; the error
    list as it was. *)
Definition processed (acct : Z) (w w' : World) : Prop :=
  exists k,
    (k = 0 \/ k = 1) /\
    usageCounters (db w') = bump acct k (usageCounters (db w)) /\
    rows_in (stitchedLeads (db w')) = rows_in (stitchedLeads (db w)) + k /\
    stitchedNew (result w') = stitchedNew (result w) + k /\
    rows_in (stitchLinks (db w')) = rows_in (stitchLinks (db w)) + 1 /\
    rows_in (auditTrail (db w')) = rows_in (auditTrail (db w)) + 1 /\
    linksCreated (result w') = linksCreated (result w) + 1 /\
    errors (result w') = errors (result w).

(** The books of a batch of [n] events on a database that rejects
    nothing. *)
Definition balanced (acct n : Z) (w w' : World) : Prop :=
  usageCounters (db w') =
    bump acct (stitchedNew (result w') - stitchedNew (result w))
      (usageCounters (db w)) /\
  rows_in (stitchedLeads (db w')) - rows_in (stitchedLeads (db w)) =
    stitchedNew (result w') - stitchedNew (result w) /\
  rows_in (stitchLinks (db w')) - rows_in (stitchLinks (db w)) =
    linksCreated (result w') - linksCreated (result w) /\
  rows_in (auditTrail (db w')) - rows_in (auditTrail (db w)) =
    linksCreated (result w') - linksCreated (result w) /\
  (rows_in (errors (result w')) - rows_in (errors (result w))) +
  (linksCreated (result w') - linksCreated (result w)) = n.

(** ** New leads and their links *)

(** The identity of the lead that [createNewStitch] seeds from an event. *)
Definition seeded_identity (row : NormRow) (acct newId : Z) (sid : string) :=
  (newId, acct, sid, occurredAt row, name row, phone row, email row,
   location row, 1%Q).

(** The link of an event to a lead, by a winner or as a new lead. *)
Definition link_of (row : NormRow) (stitchDbId : Z)
  (winner : option MatchCandidate) : StitchLink :=
  {| lk_accountId := accountId row;
     lk_stitchId := stitchDbId;
     normalizedRowId := id row;
     matchPass := pass_or_new winner;
     lk_keys := keys_or_empty winner;
     lk_windowDays := 0;
     lk_reason := reason_or_new winner |}.

(** The candidate of the phone pass for a lead. *)
Definition phone_candidate (policy : PolicyConfig) (p : string) (leadId : Z)
  : MatchCandidate :=
  {| stitchId := leadId;
     weight := wt_phone_exact (weights policy);
     pass := "P1";
     matchedOn := ["phone"];
     reason := ("Phone exact match: " ++ p)%string;
     confidence := one_deterministic (confidence_rules policy) |}.

Module MoreData4.

(** Two calls from the same phone, on day 100 and on day 110. *)
Definition first_call : NormRow :=
  Fixture.event 50 "calls" 100 None Fixture.phone1 None None None.
Definition second_call : NormRow :=
  Fixture.event 51 "calls" 110 None Fixture.phone1 None None None.

Definition fresh_account : Db :=
  Fixture.database [] [] [first_call; second_call] [Fixture.counter 0].

End MoreData4.

(** * The normalizer (services/normalizer.ts) and the header detection of
      the CSV processor

    Strings are sequences of ASCII characters, as in [Js]. *)

Module Normalizer.

(** ** Regular expressions

    A pattern between [^] and [$] without flags is tested against the whole
    string; the test is by derivatives. *)

Inductive regex : Type :=
| Never
| Empty
| Class (p : ascii -> bool)
| Seq (r1 r2 : regex)
| Alt (r1 r2 : regex)
| Star (r : regex).

(** [r+] *)
Definition Plus (r : regex) : regex := Seq r (Star r).

Fixpoint nullable (r : regex) : bool :=
  match r with
  | Never => false
  | Empty => true
  | Class _ => false
  | Seq r1 r2 => nullable r1 && nullable r2
  | Alt r1 r2 => nullable r1 || nullable r2
  | Star _ => true
  end.

Fixpoint deriv (c : ascii) (r : regex) : regex :=
  match r with
  | Never => Never
  | Empty => Never
  | Class p => if p c then Empty else Never
  | Seq r1 r2 =>
      Alt (Seq (deriv c r1) r2) (if nullable r1 then deriv c r2 else Never)
  | Alt r1 r2 => Alt (deriv c r1) (deriv c r2)
  | Star r' => Seq (deriv c r') (Star r')
  end.

(** [regex.test(s)] for an anchored pattern. *)
Fixpoint test (r : regex) (s : string) : bool :=
  match s with
  | EmptyString => nullable r
  | String c s' => test (deriv c r) s'
  end.

(** The class [[^\s@]]. *)
Definition not_space_or_at (c : ascii) : bool :=
  negb (Js.is_space c || Ascii.eqb c "@"%char).

(** A literal character. *)
Definition literal (x : ascii) : regex := Class (fun c => Ascii.eqb c x).

(** [/^[^\s@]+@[^\s@]+\.[^\s@]+$/] *)
Definition emailRegex : regex :=
  Seq (Plus (Class not_space_or_at))
    (Seq (literal "@"%char)
       (Seq (Plus (Class not_space_or_at))
          (Seq (literal "."%char)
             (Plus (Class not_space_or_at))))).

(** [normalizeEmail]: [null] (here [None]) for an absent or empty value and
    for one that fails the pattern after trimming and lower-casing. *)
Definition normalizeEmail (email : option string) : option string :=
  match email with
  | Some (String c s) =>
      let trimmed := Js.toLowerCase (Js.trim (String c s)) in
      if test emailRegex trimmed then Some trimmed else None
  | _ => None
  end.

(** ** Property lookup on an object literal

    [mappings[key]] on an object written as a literal finds the literal's
    own properties and, failing that, the members of [Object.prototype],
    which are functions or objects and hence truthy. *)

Inductive value : Type :=
| null
| text (s : string)
| inherited (key : string).

Definition object_prototype_keys : list string :=
  ["constructor"; "__defineGetter__"; "__defineSetter__"; "hasOwnProperty";
   "__lookupGetter__"; "__lookupSetter__"; "isPrototypeOf";
   "propertyIsEnumerable"; "toString"; "valueOf"; "__proto__";
   "toLocaleString"].

Fixpoint own (mappings : list (string * string)) (key : string)
  : option string :=
  match mappings with
  | [] => None
  | (k, v) :: rest => if String.eqb k key then Some v else own rest key
  end.

(** [mappings[key]]; [None] is [undefined]. *)
Definition get (mappings : list (string * string)) (key : string)
  : option value :=
  match own mappings key with
  | Some v => Some (text v)
  | None =>
      if Js.str_in key object_prototype_keys then Some (inherited key)
      else None
  end.

(** [v || d] *)
Definition or_else (v : option value) (d : string) : value :=
  match v with
  | Some (text (String c s)) => text (String c s)
  | Some (inherited k) => inherited k
  | _ => text d
  end.

Definition medium_mappings : list (string * string) :=
  [("ppc", "cpc"); ("paid", "cpc"); ("google-ads", "cpc");
   ("google_ads", "cpc"); ("adwords", "cpc"); ("facebook-ads", "social");
   ("facebook_ads", "social"); ("fb-ads", "social");
   ("linkedin-ads", "social"); ("linkedin_ads", "social")].

Definition normalizeUtmMedium (medium : option string) : value :=
  match medium with
  | Some (String c s) =>
      let normalized := Js.trim (Js.toLowerCase (String c s)) in
      or_else (get medium_mappings normalized) normalized
  | _ => null
  end.

Definition source_mappings : list (string * string) :=
  [("google.com", "google"); ("google", "google");
   ("facebook.com", "facebook"); ("fb.com", "facebook");
   ("linkedin.com", "linkedin"); ("bing.com", "bing");
   ("yahoo.com", "yahoo")].

Definition normalizeUtmSource (source : option string) : value :=
  match source with
  | Some (String c s) =>
      let normalized := Js.trim (Js.toLowerCase (String c s)) in
      or_else (get source_mappings normalized) normalized
  | _ => null
  end.

(** ** [CSVProcessor.detectSourceType] *)

Definition detectSourceType (headers : list string) : option string :=
  let lowerHeaders := map Js.toLowerCase headers in
  if existsb (fun h => Js.includes h "duration" || Js.includes h "call")
       lowerHeaders
  then Some "calls"
  else if existsb (fun h => Js.includes h "form" || Js.includes h "lead")
            lowerHeaders
  then Some "forms"
  else if existsb (fun h => Js.includes h "appointment" ||
                            Js.includes h "booking") lowerHeaders
  then Some "appts"
  else if existsb (fun h => Js.includes h "invoice" ||
                            Js.includes h "amount" ||
                            Js.includes h "total") lowerHeaders
  then Some "invoices"
  else if existsb (fun h => Js.includes h "message" || Js.includes h "chat")
            lowerHeaders
  then Some "chats"
  else None.

(** ** Vocabulary *)

(** The strings a pattern denotes. *)
Inductive Matches : regex -> string -> Prop :=
| MEmpty : Matches Empty EmptyString
| MClass p c : p c = true -> Matches (Class p) (String c EmptyString)
| MSeq r1 r2 s1 s2 :
    Matches r1 s1 -> Matches r2 s2 -> Matches (Seq r1 r2) (s1 ++ s2)%string
| MAltL r1 r2 s : Matches r1 s -> Matches (Alt r1 r2) s
| MAltR r1 r2 s : Matches r2 s -> Matches (Alt r1 r2) s
| MStar0 r : Matches (Star r) EmptyString
| MStarS r s1 s2 :
    Matches r s1 -> Matches (Star r) s2 -> Matches (Star r) (s1 ++ s2)%string.

(** A string that does not begin with white space. *)
Definition starts_clean (s : string) : Prop :=
  match s with
  | EmptyString => True
  | String c _ => Js.is_space c = false
  end.

(** Every character of the string is in the class. *)
Fixpoint every (p : ascii -> bool) (s : string) : bool :=
  match s with
  | EmptyString => true
  | String c s' => p c && every p s'
  end.

(** A non-empty string without white space and without [@]. *)
Definition plain (s : string) : Prop :=
  s <> EmptyString /\ every not_space_or_at s = true.

(** [local@domain.tld], the three parts plain; the domain part may itself
    hold dots. *)
Definition email_shape (s : string) : Prop :=
  exists l d t,
    s = (l ++ "@" ++ d ++ "." ++ t)%string /\ plain l /\ plain d /\ plain t.

End Normalizer.
(* ================================================================== *)
(** * Properties *)

(** ** Steps of the monad *)

Lemma same_data_refl (w : World) : same_data w w.
Proof. split; reflexivity. Qed.

Lemma same_data_trans (w1 w2 w3 : World) :
  same_data w1 w2 -> same_data w2 w3 -> same_data w1 w3.
Proof. intros [A B] [C D]. split; congruence. Qed.

Lemma same_data_tick (w : World) : same_data w (tick w).
Proof. split; reflexivity. Qed.

Section StepFacts.

Variable rt : Runtime.

Lemma db_select_inv {A : Type} (q : Db -> A) (w w' : World) (r : exn + A) :
  db_select rt q w = (w', r) ->
  w' = tick w /\
  ((exists msg, faults rt (steps w) = Some msg /\ r = inl (Error msg)) \/
   (faults rt (steps w) = None /\ r = inr (q (db w)))).
Proof.
  unfold db_select. destruct (faults rt (steps w)) as [msg|]; intros E;
    inversion E; subst; split; auto.
  left. exists msg. auto.
Qed.

Lemma db_select_ok {A : Type} (q : Db -> A) (w : World) :
  faults rt (steps w) = None ->
  db_select rt q w = (tick w, inr (q (db w))).
Proof. unfold db_select. intros ->. reflexivity. Qed.

Lemma db_write_ok {A : Type} (u : Db -> Db * A) (w : World) :
  faults rt (steps w) = None ->
  db_write rt u w = (tick (set_db (fst (u (db w))) w), inr (snd (u (db w)))).
Proof. unfold db_write. intros ->. destruct (u (db w)). reflexivity. Qed.

Lemma db_write_rejected {A : Type} (u : Db -> Db * A) (w : World) (msg : string) :
  faults rt (steps w) = Some msg ->
  db_write rt u w = (tick w, inl (Error msg)).
Proof. unfold db_write. intros ->. reflexivity. Qed.

End StepFacts.

Section GeneratorFacts.

Variable rt : Runtime.

Lemma bind_inv {A B : Type} (m : M A) (k : A -> M B) (w w' : World) (r : exn + B) :
  bind m k w = (w', r) ->
  (exists e, m w = (w', inl e) /\ r = inl e) \/
  (exists w1 a, m w = (w1, inr a) /\ k a w1 = (w', r)).
Proof.
  unfold bind. destruct (m w) as [w1 [e|a]]; intros E.
  - inversion E; subst. left. exists e. auto.
  - right. exists w1, a. auto.
Qed.

Lemma bind_inr {A B : Type} (m : M A) (k : A -> M B) (w w' : World) (b : B) :
  bind m k w = (w', inr b) ->
  exists w1 a, m w = (w1, inr a) /\ k a w1 = (w', inr b).
Proof.
  intros E. apply bind_inv in E. destruct E as [[e [_ E]]|E]; [discriminate|exact E].
Qed.

Lemma bind_ok {A B : Type} (m : M A) (k : A -> M B) (w w1 : World) (a : A) :
  m w = (w1, inr a) -> bind m k w = k a w1.
Proof. unfold bind. intros ->. reflexivity. Qed.

Lemma bind_throws {A B : Type} (m : M A) (k : A -> M B) (w w1 : World) (e : exn) :
  m w = (w1, inl e) -> bind m k w = (w1, inl e).
Proof. unfold bind. intros ->. reflexivity. Qed.

Lemma db_select_returns {A : Type} (q : Db -> A) (w w' : World) (a : A) :
  db_select rt q w = (w', inr a) -> a = q (db w) /\ same_data w w'.
Proof.
  intros E. apply db_select_inv in E. destruct E as [-> [[msg [_ E]]|[_ E]]].
  - discriminate.
  - inversion E. split; [reflexivity|apply same_data_tick].
Qed.

(** A pass that returns has appended its candidates and written nothing. *)
Ltac pass_returns :=
  match goal with
  | E : bind (db_select _ _) _ _ = (_, inr _) |- _ =>
      apply bind_inr in E; destruct E as (w1 & a & E1 & E2);
      apply db_select_returns in E1; destruct E1 as [-> S1];
      inversion E2; subst; split; [reflexivity|exact S1]
  | E : ret _ _ = (_, inr _) |- _ =>
      inversion E; subst; rewrite app_nil_r; split;
      [reflexivity|apply same_data_refl]
  end.

Lemma phone_pass_returns row policy acct cs (w w' : World) cs' :
  phone_pass rt row policy acct (generateMatchingKeys row) cs w = (w', inr cs') ->
  cs' = cs ++ p1_of row policy acct (db w) /\ same_data w w'.
Proof.
  unfold phone_pass, p1_of.
  destruct (map_get (generateMatchingKeys row) "phone"); intros E; pass_returns.
Qed.

Lemma email_pass_returns row policy acct cs (w w' : World) cs' :
  email_pass rt row policy acct (generateMatchingKeys row) cs w = (w', inr cs') ->
  cs' = cs ++ p2_of row policy acct (db w) /\ same_data w w'.
Proof.
  unfold email_pass, p2_of.
  destruct (map_get (generateMatchingKeys row) "email"); intros E; pass_returns.
Qed.

Lemma click_pass_returns row policy acct cs (w w' : World) cs' :
  click_pass rt row policy acct (generateMatchingKeys row) cs w = (w', inr cs') ->
  cs' = cs ++ p3_of row policy acct (db w) /\ same_data w w'.
Proof.
  unfold click_pass, p3_of. cbv zeta.
  destruct (clickKey_of (generateMatchingKeys row)) as [[|c s]|];
    intros E; pass_returns.
Qed.

Lemma fuzzy_pass_returns row policy acct cs (w w' : World) cs' :
  fuzzy_pass rt row policy acct (generateMatchingKeys row) cs w = (w', inr cs') ->
  exists fuzzy,
    p4_of rt row policy acct (db w) = inr fuzzy /\
    cs' = cs ++ fuzzy /\ same_data w w'.
Proof.
  unfold fuzzy_pass, p4_of.
  destruct (map_has (generateMatchingKeys row) "fuzzy");
    destruct (name row) as [[|c1 n]|]; destruct (location row) as [[|c2 l]|];
    intros E;
    try (inversion E; subst; exists []; rewrite app_nil_r;
         split; [reflexivity|split; [reflexivity|apply same_data_refl]]).
  apply bind_inr in E. destruct E as (w1 & a & E1 & E2).
  apply db_select_returns in E1. destruct E1 as [-> S1].
  destruct (p4_candidates rt row policy (String c1 n) (String c2 l)
              (select_fuzzy_matches acct (db w))) as [e|fuzzy];
    [discriminate E2|].
  inversion E2; subst. exists fuzzy. auto.
Qed.

(** Whenever the generator returns, it returns the candidates of the four
    passes, in order, and has written nothing. *)
Lemma findMatchingStitches_returns (row : NormRow) (policy : PolicyConfig)
  (acct : Z) (w w' : World) (cands : list MatchCandidate) :
  findMatchingStitches rt row policy acct w = (w', inr cands) ->
  candidates_of rt row policy acct (db w) = inr cands /\ same_data w w'.
Proof.
  unfold findMatchingStitches. cbv zeta. intros E.
  apply bind_inr in E. destruct E as (w1 & c1 & E1 & E).
  apply bind_inr in E. destruct E as (w2 & c2 & E2 & E).
  apply bind_inr in E. destruct E as (w3 & c3 & E3 & E).
  apply bind_inr in E. destruct E as (w4 & c4 & E4 & E).
  inversion E; subst; clear E.
  apply phone_pass_returns in E1. destruct E1 as [-> S1].
  apply email_pass_returns in E2. destruct E2 as [-> S2].
  apply click_pass_returns in E3. destruct E3 as [-> S3].
  apply fuzzy_pass_returns in E4. destruct E4 as (fuzzy & P4 & -> & S4).
  destruct S1 as [D1 R1], S2 as [D2 R2], S3 as [D3 R3], S4 as [D4 R4].
  split.
  - unfold candidates_of. rewrite D3, D2, D1 in P4. rewrite P4.
    rewrite D2, D1. simpl. rewrite <- !app_assoc. reflexivity.
  - split; congruence.
Qed.

End GeneratorFacts.

(** ** Matching keys *)

Lemma map_get_map_set (keys : list (string * string)) (k v k' : string) :
  map_get (map_set keys k v) k' =
  if String.eqb k k' then Some v else map_get keys k'.
Proof.
  induction keys as [|[k0 v0] keys IH]; simpl.
  - reflexivity.
  - destruct (String.eqb k0 k) eqn:E0; simpl.
    + apply String.eqb_eq in E0. subst k0.
      destruct (String.eqb k k'); reflexivity.
    + rewrite IH. destruct (String.eqb k0 k') eqn:E1; [|reflexivity].
      apply String.eqb_eq in E1. subst k0.
      rewrite String.eqb_sym, E0. reflexivity.
Qed.

Lemma map_get_set_if_truthy (k : string) (field : option string)
  (keys : list (string * string)) (k' : string) :
  map_get (set_if_truthy k field keys) k' =
  if (String.eqb k k' && Js.truthy field)%bool then field else map_get keys k'.
Proof.
  unfold set_if_truthy, Js.truthy. destruct field as [[|c s]|].
  - rewrite andb_false_r. reflexivity.
  - rewrite map_get_map_set, andb_true_r. reflexivity.
  - rewrite andb_false_r. reflexivity.
Qed.

(** [keys.get('phone')] is the event's phone when it is not empty. *)
Lemma generateMatchingKeys_phone (row : NormRow) :
  map_get (generateMatchingKeys row) "phone" =
  if Js.truthy (phone row) then phone row else None.
Proof.
  unfold generateMatchingKeys. cbv zeta.
  assert (G : forall keys,
             keys = set_if_truthy "client_id" (clientId row)
                      (set_if_truthy "gclid" (gclid row)
                         (set_if_truthy "email" (email row)
                            (set_if_truthy "phone" (phone row) []))) ->
             map_get keys "phone" =
             if Js.truthy (phone row) then phone row else None).
  { intros keys ->. rewrite !map_get_set_if_truthy. simpl.
    destruct (Js.truthy (phone row)); reflexivity. }
  destruct (name row) as [[|c1 n]|]; try (apply G; reflexivity).
  destruct (location row) as [[|c2 l]|]; try (apply G; reflexivity).
  rewrite map_get_map_set. simpl. apply G. reflexivity.
Qed.

(** ** Time windows *)

Lemma msPerDay_pos : (0 < inject_Z msPerDay)%Q.
Proof. reflexivity. Qed.

(** [isWithinWindow] compares the distance in milliseconds with the window
    in days. *)
Lemma isWithinWindow_spec (date1 date2 : Z) (windowDays : Q) :
  isWithinWindow date1 date2 windowDays = true <->
  (inject_Z (Z.abs (date1 - date2)) <= windowDays * inject_Z msPerDay)%Q.
Proof.
  unfold isWithinWindow. cbv zeta. rewrite Qle_bool_iff. split; intros H.
  - apply (Qmult_le_compat_r _ _ (inject_Z msPerDay)) in H;
      [|apply Qlt_le_weak, msPerDay_pos].
    rewrite Qmult_comm, Qmult_div_r in H; [exact H|].
    intros E. discriminate E.
  - apply Qle_shift_div_r; [apply msPerDay_pos|exact H].
Qed.

(** ** What each pass emits *)

Lemma in_p1_candidates row policy p ms (c : MatchCandidate) :
  In c (p1_candidates row policy p ms) <->
  exists m, In m ms /\
    isWithinWindow (occurredAt row) (leadCreatedAt m)
      (w_phone_exact (windows policy)) = true /\
    c = {| stitchId := sl_id m;
           weight := wt_phone_exact (weights policy);
           pass := "P1";
           matchedOn := ["phone"];
           reason := ("Phone exact match: " ++ p)%string;
           confidence := one_deterministic (confidence_rules policy) |}.
Proof.
  unfold p1_candidates. rewrite in_flat_map. split.
  - intros (m & Hm & Hc). exists m. split; [exact Hm|].
    destruct (isWithinWindow _ _ _); simpl in Hc; [|contradiction].
    destruct Hc as [<-|[]]. auto.
  - intros (m & Hm & Hw & ->). exists m. split; [exact Hm|].
    rewrite Hw. left. reflexivity.
Qed.

Lemma p1_of_pass row policy acct d c :
  In c (p1_of row policy acct d) -> pass c = "P1".
Proof.
  unfold p1_of. destruct (map_get _ _); [|intros []].
  rewrite in_p1_candidates. intros (m & _ & _ & ->). reflexivity.
Qed.

Lemma p2_of_pass row policy acct d c :
  In c (p2_of row policy acct d) -> pass c = "P2".
Proof.
  unfold p2_of, p2_candidates. destruct (map_get _ _); [|intros []].
  rewrite in_flat_map. intros (m & _ & Hc).
  destruct (isWithinWindow _ _ _); simpl in Hc; [|contradiction].
  destruct Hc as [<-|[]]. reflexivity.
Qed.

Lemma p3_of_pass row policy acct d c :
  In c (p3_of row policy acct d) -> pass c = "P3".
Proof.
  unfold p3_of, p3_candidates. cbv zeta.
  destruct (clickKey_of _) as [[|a s]|]; try (intros []).
  rewrite in_flat_map. intros (m & _ & Hc).
  destruct (isWithinWindow _ _ _); simpl in Hc; [|contradiction].
  destruct Hc as [<-|[]]. reflexivity.
Qed.

(** A candidate of the fuzzy loop comes from a lead whose name is at least
    0.88 similar to the event's. *)
Lemma in_p4_step rt row policy rname rlocation m pushed c :
  p4_step rt row policy rname rlocation m = inr pushed -> In c pushed ->
  pass c = "P4" /\ stitchId c = sl_id m /\
  exists mname sim, sl_name m = Some mname /\
    calculateSimilarity rt rname mname = inr sim /\ (88 # 100 <= sim)%Q.
Proof.
  unfold p4_step.
  destruct (sl_name m) as [[|c1 n]|];
    try (intros [= <-] []).
  destruct (sl_location m) as [[|c2 l]|];
    try (intros [= <-] []).
  cbv zeta.
  destruct (negb (isWithinWindow _ _ _)); [intros [= <-] []|].
  destruct (calculateSimilarity rt rname (String c1 n)) as [e|sim] eqn:S;
    [discriminate|].
  intros [= <-]. unfold p4_after_similarity.
  destruct (Qlt_bool sim (88 # 100)) eqn:Q; [intros []|].
  cbv zeta.
  destruct (negb (_ || _)); [intros []|].
  match goal with |- In _ (if ?b then _ else _) -> _ => destruct b end;
    [|intros []].
  intros [<-|[]]. simpl. repeat split.
  exists (String c1 n), sim. split; [reflexivity|]. split; [exact S|].
  unfold Qlt_bool in Q. apply negb_false_iff in Q.
  apply Qle_bool_iff in Q. exact Q.
Qed.

(** What the fuzzy loop returns was pushed by the step of one of the
    leads. *)
Lemma in_p4_candidates rt row policy rname rlocation ms fuzzy c :
  p4_candidates rt row policy rname rlocation ms = inr fuzzy -> In c fuzzy ->
  exists m pushed,
    In m ms /\ p4_step rt row policy rname rlocation m = inr pushed /\
    In c pushed.
Proof.
  revert fuzzy. induction ms as [|m ms IH]; simpl; intros fuzzy E Hc.
  - inversion E; subst. destruct Hc.
  - destruct (p4_step rt row policy rname rlocation m) as [e|pushed] eqn:S;
      [discriminate|].
    destruct (p4_candidates rt row policy rname rlocation ms) as [e|more];
      [discriminate|].
    inversion E; subst. apply in_app_or in Hc. destruct Hc as [Hc|Hc].
    + exists m, pushed. auto.
    + destruct (IH more eq_refl Hc) as (m' & p' & Hm & S' & Hp).
      exists m', p'. auto.
Qed.

Lemma p4_of_inv rt row policy acct d fuzzy c :
  p4_of rt row policy acct d = inr fuzzy -> In c fuzzy ->
  pass c = "P4" /\
  exists m rname mname sim,
    In m (stitchedLeads d) /\ sl_accountId m = acct /\
    stitchId c = sl_id m /\
    name row = Some rname /\ sl_name m = Some mname /\
    calculateSimilarity rt rname mname = inr sim /\ (88 # 100 <= sim)%Q.
Proof.
  unfold p4_of.
  destruct (map_has _ _); try (intros [= <-] []).
  destruct (name row) as [[|c1 n]|]; try (intros [= <-] []).
  destruct (location row) as [[|c2 l]|]; try (intros [= <-] []).
  intros E Hc.
  destruct (in_p4_candidates _ _ _ _ _ _ _ _ E Hc) as (m & pushed & Hm & S & Hp).
  destruct (in_p4_step _ _ _ _ _ _ _ _ S Hp) as (P & I & mname & sim & N & C & Q).
  split; [exact P|].
  unfold select_fuzzy_matches in Hm. apply filter_In in Hm.
  destruct Hm as [Hm F].
  apply andb_true_iff in F. destruct F as [F _].
  apply andb_true_iff in F. destruct F as [F _].
  apply Z.eqb_eq in F.
  exists m, (String c1 n), mname, sim. repeat split; auto.
Qed.

Section GeneratorRuns.

Variable rt : Runtime.
Hypothesis quiet : no_faults rt.

Lemma db_select_quiet {A : Type} (q : Db -> A) (w : World) :
  db_select rt q w = (tick w, inr (q (db w))).
Proof. apply db_select_ok, quiet. Qed.

Lemma db_write_quiet {A : Type} (u : Db -> Db * A) (w : World) :
  db_write rt u w = (tick (set_db (fst (u (db w))) w), inr (snd (u (db w)))).
Proof. apply db_write_ok, quiet. Qed.

Lemma phone_pass_runs row policy acct cs (w : World) :
  exists w',
    phone_pass rt row policy acct (generateMatchingKeys row) cs w =
      (w', inr (cs ++ p1_of row policy acct (db w))) /\
    same_data w w'.
Proof.
  unfold phone_pass, p1_of.
  destruct (map_get (generateMatchingKeys row) "phone").
  - unfold bind. rewrite db_select_quiet. exists (tick w).
    split; [reflexivity|apply same_data_tick].
  - exists w. rewrite app_nil_r. split; [reflexivity|apply same_data_refl].
Qed.

Lemma email_pass_runs row policy acct cs (w : World) :
  exists w',
    email_pass rt row policy acct (generateMatchingKeys row) cs w =
      (w', inr (cs ++ p2_of row policy acct (db w))) /\
    same_data w w'.
Proof.
  unfold email_pass, p2_of.
  destruct (map_get (generateMatchingKeys row) "email").
  - unfold bind. rewrite db_select_quiet. exists (tick w).
    split; [reflexivity|apply same_data_tick].
  - exists w. rewrite app_nil_r. split; [reflexivity|apply same_data_refl].
Qed.

Lemma click_pass_runs row policy acct cs (w : World) :
  exists w',
    click_pass rt row policy acct (generateMatchingKeys row) cs w =
      (w', inr (cs ++ p3_of row policy acct (db w))) /\
    same_data w w'.
Proof.
  unfold click_pass, p3_of. cbv zeta.
  destruct (clickKey_of (generateMatchingKeys row)) as [[|c s]|];
    try (exists w; rewrite app_nil_r;
         split; [reflexivity|apply same_data_refl]).
  unfold bind. rewrite db_select_quiet. exists (tick w).
  split; [reflexivity|apply same_data_tick].
Qed.

(** The fuzzy pass returns what its loop pushed, or throws what the loop
    threw. *)
Lemma fuzzy_pass_runs row policy acct cs (w : World) :
  exists w',
    fuzzy_pass rt row policy acct (generateMatchingKeys row) cs w =
      (w', match p4_of rt row policy acct (db w) with
           | inl e => inl e
           | inr fuzzy => inr (cs ++ fuzzy)
           end) /\
    same_data w w'.
Proof.
  unfold fuzzy_pass, p4_of.
  destruct (map_has (generateMatchingKeys row) "fuzzy");
    destruct (name row) as [[|c1 n]|]; destruct (location row) as [[|c2 l]|];
    try (exists w; rewrite app_nil_r;
         split; [reflexivity|apply same_data_refl]).
  unfold bind. rewrite db_select_quiet. change (db (tick w)) with (db w).
  exists (tick w). split; [|apply same_data_tick].
  destruct (p4_candidates rt row policy (String c1 n) (String c2 l)
              (select_fuzzy_matches acct (db w))); reflexivity.
Qed.

(** When the database rejects nothing, the generator returns the candidates
    of the four passes or throws what the fuzzy loop threw; it writes
    nothing. *)
Lemma findMatchingStitches_runs (row : NormRow) (policy : PolicyConfig)
  (acct : Z) (w : World) :
  exists w',
    findMatchingStitches rt row policy acct w =
      (w', candidates_of rt row policy acct (db w)) /\
    same_data w w'.
Proof.
  unfold findMatchingStitches. cbv zeta.
  destruct (phone_pass_runs row policy acct [] w) as (w1 & E1 & [D1 R1]).
  rewrite (bind_ok _ _ _ _ _ E1).
  destruct (email_pass_runs row policy acct
              ([] ++ p1_of row policy acct (db w)) w1) as (w2 & E2 & [D2 R2]).
  rewrite D1 in E2. rewrite (bind_ok _ _ _ _ _ E2).
  destruct (click_pass_runs row policy acct
              (([] ++ p1_of row policy acct (db w)) ++
               p2_of row policy acct (db w)) w2) as (w3 & E3 & [D3 R3]).
  rewrite D2, D1 in E3. rewrite (bind_ok _ _ _ _ _ E3).
  destruct (fuzzy_pass_runs row policy acct
              ((([] ++ p1_of row policy acct (db w)) ++
                p2_of row policy acct (db w)) ++
               p3_of row policy acct (db w)) w3) as (w4 & E4 & [D4 R4]).
  rewrite D3, D2, D1 in E4.
  exists w4. split; [|split; congruence].
  unfold candidates_of.
  destruct (p4_of rt row policy acct (db w)) as [e|fuzzy].
  - apply (bind_throws _ _ _ _ _ E4).
  - rewrite (bind_ok _ _ _ _ _ E4). unfold ret. simpl.
    rewrite <- !app_assoc. reflexivity.
Qed.

(** The fuzzy pass of an event does not throw when the pass is skipped or
    the similarity function is there. *)
Lemma calculateSimilarity_safe (a b : string) :
  (exists distance, jaroWinkler rt = inr distance) ->
  exists sim, calculateSimilarity rt a b = inr sim.
Proof.
  intros (f & F). unfold calculateSimilarity. rewrite F.
  destruct a; [eauto|]. destruct b; eauto.
Qed.

Lemma p4_candidates_safe row policy rname rlocation ms :
  (exists distance, jaroWinkler rt = inr distance) ->
  exists fuzzy, p4_candidates rt row policy rname rlocation ms = inr fuzzy.
Proof.
  intros F. induction ms as [|m ms (more & IH)]; simpl; [eauto|].
  assert (S : exists pushed, p4_step rt row policy rname rlocation m = inr pushed).
  { unfold p4_step.
    destruct (sl_name m) as [[|c1 n]|]; eauto.
    destruct (sl_location m) as [[|c2 l]|]; eauto.
    cbv zeta. destruct (negb _); eauto.
    destruct (calculateSimilarity_safe rname (String c1 n) F) as (sim & ->).
    eauto. }
  destruct S as (pushed & ->). rewrite IH. eauto.
Qed.

Lemma p4_of_safe row policy acct d :
  fuzzy_pass_safe rt row ->
  exists fuzzy, p4_of rt row policy acct d = inr fuzzy.
Proof.
  unfold fuzzy_pass_safe, p4_of. intros [K|F].
  - destruct (map_has _ _); eauto.
    destruct (name row) as [[|c1 n]|]; eauto.
    destruct (location row) as [[|c2 l]|]; eauto. discriminate K.
  - destruct (map_has _ _); eauto.
    destruct (name row) as [[|c1 n]|]; eauto.
    destruct (location row) as [[|c2 l]|]; eauto.
    apply p4_candidates_safe, F.
Qed.

Lemma findMatchingStitches_safe (row : NormRow) (policy : PolicyConfig)
  (acct : Z) (w : World) :
  fuzzy_pass_safe rt row ->
  exists w' cands,
    findMatchingStitches rt row policy acct w = (w', inr cands) /\
    candidates_of rt row policy acct (db w) = inr cands /\
    same_data w w'.
Proof.
  intros Safe.
  destruct (findMatchingStitches_runs row policy acct w) as (w' & E & S).
  destruct (p4_of_safe row policy acct (db w) Safe) as (fuzzy & P).
  assert (C : exists cands, candidates_of rt row policy acct (db w) = inr cands)
    by (unfold candidates_of; rewrite P; eauto).
  destruct C as (cands & C). exists w', cands. rewrite C in E. auto.
Qed.

End GeneratorRuns.

Lemma NoDup_map_inj {A B : Type} (f : A -> B) (l : list A) (a b : A) :
  NoDup (map f l) -> In a l -> In b l -> f a = f b -> a = b.
Proof.
  induction l as [|x l IH]; simpl; [intros _ []|].
  intros N Ha Hb E. inversion N as [|? ? Hx N']; subst.
  destruct Ha as [->|Ha], Hb as [->|Hb].
  - reflexivity.
  - exfalso. apply Hx. rewrite E. apply in_map, Hb.
  - exfalso. apply Hx. rewrite <- E. apply in_map, Ha.
  - apply IH; assumption.
Qed.

(** The array that the generator returns is made of the four passes. *)
Lemma candidates_of_inr rt row policy acct d cands :
  candidates_of rt row policy acct d = inr cands ->
  exists fuzzy,
    p4_of rt row policy acct d = inr fuzzy /\
    cands = p1_of row policy acct d ++ p2_of row policy acct d ++
            p3_of row policy acct d ++ fuzzy.
Proof.
  unfold candidates_of.
  destruct (p4_of rt row policy acct d) as [e|fuzzy]; [discriminate|].
  intros [= <-]. eauto.
Qed.

(** The P1 candidates of the array the generator returns. *)
Lemma phone_candidate_iff rt row policy acct d p lead cands :
  phone row = Some p -> p <> "" ->
  In lead (stitchedLeads d) ->
  sl_accountId lead = acct ->
  sl_phone lead = Some p ->
  NoDup (map sl_id (stitchedLeads d)) ->
  candidates_of rt row policy acct d = inr cands ->
  ((exists c, In c cands /\ pass c = "P1" /\ stitchId c = sl_id lead) <->
   isWithinWindow (occurredAt row) (leadCreatedAt lead)
     (w_phone_exact (windows policy)) = true).
Proof.
  intros Hp Hne Hin Hacct Hphone Hids C.
  apply candidates_of_inr in C. destruct C as (fuzzy & P4 & ->).
  assert (K : map_get (generateMatchingKeys row) "phone" = Some p).
  { rewrite generateMatchingKeys_phone, Hp.
    destruct p; [contradiction Hne; reflexivity|reflexivity]. }
  split.
  - intros (c & Hc & Hpass & Hid).
    rewrite !in_app_iff in Hc.
    destruct Hc as [Hc|[Hc|[Hc|Hc]]].
    + unfold p1_of in Hc. rewrite K in Hc.
      apply in_p1_candidates in Hc. destruct Hc as (m & Hm & Hw & ->).
      simpl in Hid. unfold select_phone_matches in Hm.
      apply filter_In in Hm. destruct Hm as [Hm _].
      rewrite <- (NoDup_map_inj sl_id _ m lead Hids Hm Hin Hid). exact Hw.
    + apply p2_of_pass in Hc. congruence.
    + apply p3_of_pass in Hc. congruence.
    + apply (p4_of_inv _ _ _ _ _ _ _ P4) in Hc. destruct Hc as [Hc _].
      congruence.
  - intros Hw.
    exists {| stitchId := sl_id lead;
              weight := wt_phone_exact (weights policy);
              pass := "P1";
              matchedOn := ["phone"];
              reason := ("Phone exact match: " ++ p)%string;
              confidence := one_deterministic (confidence_rules policy) |}.
    split; [|split; reflexivity].
    apply in_or_app. left.
    unfold p1_of. rewrite K. apply in_p1_candidates.
    exists lead. split; [|split; [exact Hw|reflexivity]].
    unfold select_phone_matches. apply filter_In. split; [exact Hin|].
    rewrite Hacct, Z.eqb_refl, Hphone. simpl. apply String.eqb_refl.
Qed.

(** ** The similarity call of the fuzzy loop *)

Lemma generateMatchingKeys_fuzzy (row : NormRow) (c1 c2 : ascii) (n l : string) :
  name row = Some (String c1 n) -> location row = Some (String c2 l) ->
  map_has (generateMatchingKeys row) "fuzzy" = true.
Proof.
  intros N L. unfold generateMatchingKeys, map_has. cbv zeta. rewrite N, L.
  rewrite map_get_map_set. reflexivity.
Qed.

Section UndefinedImport.

Variable rt : Runtime.
Variable msg : string.

(** [jaroWinkler] is not a function. *)
Hypothesis undefined_import : jaroWinkler rt = inl msg.

Lemma calculateSimilarity_throws (c1 c2 : ascii) (a b : string) :
  calculateSimilarity rt (String c1 a) (String c2 b) = inl (TypeError msg).
Proof. unfold calculateSimilarity. rewrite undefined_import. reflexivity. Qed.

(** A step of the loop pushes nothing: it throws or passes the lead by. *)
Lemma p4_step_undefined row policy c1 rname rlocation m :
  p4_step rt row policy (String c1 rname) rlocation m = inl (TypeError msg) \/
  p4_step rt row policy (String c1 rname) rlocation m = inr [].
Proof.
  unfold p4_step.
  destruct (sl_name m) as [[|c n]|]; auto.
  destruct (sl_location m) as [[|c' l]|]; auto.
  cbv zeta. destruct (negb _); auto.
  rewrite calculateSimilarity_throws. auto.
Qed.

(** The step of a lead with a name and a location, created within the
    window, throws. *)
Lemma p4_step_throws row policy c1 rname rlocation m mname mlocation :
  sl_name m = Some mname -> mname <> EmptyString ->
  sl_location m = Some mlocation -> mlocation <> EmptyString ->
  isWithinWindow (occurredAt row) (leadCreatedAt m)
    (w_fuzzy_match (windows policy)) = true ->
  p4_step rt row policy (String c1 rname) rlocation m = inl (TypeError msg).
Proof.
  intros N Nn L Ln W. unfold p4_step. rewrite N, L.
  destruct mname as [|c n]; [contradiction Nn; reflexivity|].
  destruct mlocation as [|c' l]; [contradiction Ln; reflexivity|].
  cbv zeta. rewrite W. unfold negb.
  rewrite calculateSimilarity_throws. reflexivity.
Qed.

Lemma p4_candidates_throws row policy c1 rname rlocation ms m mname mlocation :
  In m ms ->
  sl_name m = Some mname -> mname <> EmptyString ->
  sl_location m = Some mlocation -> mlocation <> EmptyString ->
  isWithinWindow (occurredAt row) (leadCreatedAt m)
    (w_fuzzy_match (windows policy)) = true ->
  p4_candidates rt row policy (String c1 rname) rlocation ms
    = inl (TypeError msg).
Proof.
  intros Hm N Nn L Ln W.
  induction ms as [|x ms IH]; [destruct Hm|]. simpl.
  destruct Hm as [->|Hm].
  - rewrite (p4_step_throws row policy c1 rname rlocation m mname
               mlocation N Nn L Ln W).
    reflexivity.
  - destruct (p4_step_undefined row policy c1 rname rlocation x) as [->| ->];
      [reflexivity|].
    rewrite (IH Hm). reflexivity.
Qed.

(** The generator throws on an event with a name and a location when a lead
    of the account with a name and a location was created within the fuzzy
    window of the event. *)
Lemma candidates_of_throws row policy acct d rname rlocation m mname mlocation :
  name row = Some rname -> rname <> EmptyString ->
  location row = Some rlocation -> rlocation <> EmptyString ->
  In m (stitchedLeads d) -> sl_accountId m = acct ->
  sl_name m = Some mname -> mname <> EmptyString ->
  sl_location m = Some mlocation -> mlocation <> EmptyString ->
  isWithinWindow (occurredAt row) (leadCreatedAt m)
    (w_fuzzy_match (windows policy)) = true ->
  candidates_of rt row policy acct d = inl (TypeError msg).
Proof.
  intros N Nn L Ln Hm A Nm Nmn Lm Lmn W.
  destruct rname as [|c1 rname]; [contradiction Nn; reflexivity|].
  destruct rlocation as [|c2 rlocation]; [contradiction Ln; reflexivity|].
  unfold candidates_of, p4_of.
  rewrite (generateMatchingKeys_fuzzy row c1 c2 rname rlocation N L), N, L.
  rewrite (p4_candidates_throws row policy c1 rname (String c2 rlocation)
             (select_fuzzy_matches acct d) m mname mlocation); auto.
  unfold select_fuzzy_matches. apply filter_In. split; [exact Hm|].
  rewrite A, Z.eqb_refl, Nm, Lm. reflexivity.
Qed.

End UndefinedImport.

(** C7 on the code.  With [jaroWinkler] bound to nothing, an event that
    carries a name and a location besides its phone, met by a lead of the
    account with a name and a location created within the fuzzy window,
    makes the generator throw the [TypeError] of the similarity call: the
    phone pass has pushed its candidate for the lead with the identical
    phone, created within [windows.phone_exact] days, but the generator
    returns no array and so emits no P1 candidate. *)
Theorem C7_phone_candidate_lost_to_similarity_call
  (rt : Runtime) (row : NormRow) (policy : PolicyConfig) (acct : Z)
  (w : World) (msg p rname rlocation mname mlocation : string)
  (lead m : StitchedLead) :
  no_faults rt ->
  jaroWinkler rt = inl msg ->
  phone row = Some p -> p <> "" ->
  In lead (stitchedLeads (db w)) ->
  sl_accountId lead = acct ->
  sl_phone lead = Some p ->
  within_days (occurredAt row) (leadCreatedAt lead)
    (w_phone_exact (windows policy)) ->
  name row = Some rname -> rname <> "" ->
  location row = Some rlocation -> rlocation <> "" ->
  In m (stitchedLeads (db w)) ->
  sl_accountId m = acct ->
  sl_name m = Some mname -> mname <> "" ->
  sl_location m = Some mlocation -> mlocation <> "" ->
  within_days (occurredAt row) (leadCreatedAt m)
    (w_fuzzy_match (windows policy)) ->
  (exists c, In c (p1_of row policy acct (db w)) /\ pass c = "P1" /\
             stitchId c = sl_id lead) /\
  exists w',
    findMatchingStitches rt row policy acct w = (w', inl (TypeError msg)) /\
    db w' = db w.
Proof.
  intros quiet U Hp Hne Hin Hacct Hphone Wp N Nn L Ln Hm A Nm Nmn Lm Lmn Wf.
  split.
  - exists {| stitchId := sl_id lead;
              weight := wt_phone_exact (weights policy);
              pass := "P1";
              matchedOn := ["phone"];
              reason := ("Phone exact match: " ++ p)%string;
              confidence := one_deterministic (confidence_rules policy) |}.
    split; [|split; reflexivity].
    assert (K : map_get (generateMatchingKeys row) "phone" = Some p).
    { rewrite generateMatchingKeys_phone, Hp.
      destruct p; [contradiction Hne; reflexivity|reflexivity]. }
    unfold p1_of. rewrite K. apply in_p1_candidates.
    exists lead. split; [|split; [apply isWithinWindow_spec, Wp|reflexivity]].
    unfold select_phone_matches. apply filter_In. split; [exact Hin|].
    rewrite Hacct, Z.eqb_refl, Hphone. simpl. apply String.eqb_refl.
  - destruct (findMatchingStitches_runs rt quiet row policy acct w)
      as (w' & E & [D _]).
    exists w'. split; [|exact D].
    rewrite E. f_equal.
    apply (candidates_of_throws rt msg U row policy acct (db w) rname rlocation
             m mname mlocation); auto.
    apply isWithinWindow_spec, Wf.
Qed.

(** The failing input: a call of Maria Lopez from Austin on day 100, and the
    lead of Maria Lopez with the same phone created on that day. *)
Lemma C7_witness_named_caller :
  let w := Fixture.world
             (Fixture.database [Deployed.lead_maria] [] [] []) in
  (exists c, In c (p1_of Deployed.call_maria Fixture.policy 1 (db w)) /\
             pass c = "P1" /\ stitchId c = sl_id Deployed.lead_maria) /\
  exists w',
    findMatchingStitches Fixture.deployed Deployed.call_maria Fixture.policy 1 w
      = (w', inl (TypeError "(0 , natural_1.distance) is not a function")) /\
    db w' = db w.
Proof.
  intros w.
  apply (C7_phone_candidate_lost_to_similarity_call Fixture.deployed
           Deployed.call_maria Fixture.policy 1 w
           "(0 , natural_1.distance) is not a function" "5125550101"
           "maria lopez" "Austin, TX" "Maria Lopez" "Austin"
           Deployed.lead_maria Deployed.lead_maria).
  - intros k. reflexivity.
  - reflexivity.
  - reflexivity.
  - discriminate.
  - left. reflexivity.
  - reflexivity.
  - reflexivity.
  - vm_compute. discriminate.
  - reflexivity.
  - discriminate.
  - reflexivity.
  - discriminate.
  - left. reflexivity.
  - reflexivity.
  - reflexivity.
  - discriminate.
  - reflexivity.
  - discriminate.
  - vm_compute. discriminate.
Defined.

(** X25.  For an event with a non-empty phone and a lead of the account with
    the identical phone: whenever the generator returns, the array it
    returns holds a P1 candidate for that lead if and only if the event's
    time and the lead's creation time are at most [windows.phone_exact] days
    apart; and the generator does return when the database rejects no query
    and the fuzzy pass cannot throw (the event lacks a name or a location,
    or [jaroWinkler] is bound to a function). *)
Theorem phone_exact_iff_within_window
  (rt : Runtime) (row : NormRow) (policy : PolicyConfig) (acct : Z)
  (w : World) (p : string) (lead : StitchedLead) :
  phone row = Some p -> p <> "" ->
  In lead (stitchedLeads (db w)) ->
  sl_accountId lead = acct ->
  sl_phone lead = Some p ->
  NoDup (map sl_id (stitchedLeads (db w))) ->
  (forall w' cands,
     findMatchingStitches rt row policy acct w = (w', inr cands) ->
     ((exists c, In c cands /\ pass c = "P1" /\ stitchId c = sl_id lead) <->
      within_days (occurredAt row) (leadCreatedAt lead)
        (w_phone_exact (windows policy)))) /\
  (no_faults rt -> fuzzy_pass_safe rt row ->
   exists w' cands,
     findMatchingStitches rt row policy acct w = (w', inr cands)).
Proof.
  intros Hp Hne Hin Hacct Hphone Hids. split.
  - intros w' cands E.
    apply findMatchingStitches_returns in E. destruct E as [C _].
    unfold within_days. rewrite <- isWithinWindow_spec.
    apply (phone_candidate_iff rt row policy acct (db w) p lead cands); auto.
  - intros quiet Safe.
    destruct (findMatchingStitches_safe rt quiet row policy acct w Safe)
      as (w' & cands & E & _).
    eauto.
Qed.

(** The scenario of the specification: the phone matches, the event is 31
    days after the lead's creation, the window is 30 days; the generator of
    the deployed program returns, and no P1 candidate is in the array. *)
Lemma phone_exact_witness_31_days :
  let w := Fixture.world (Fixture.database [Fixture.lead_day0] [] [] []) in
  (forall w' cands,
     findMatchingStitches Fixture.deployed Fixture.call_day31 Fixture.policy 1 w
       = (w', inr cands) ->
     ((exists c, In c cands /\ pass c = "P1" /\
                 stitchId c = sl_id Fixture.lead_day0) <->
      within_days (occurredAt Fixture.call_day31)
        (leadCreatedAt Fixture.lead_day0)
        (w_phone_exact (windows Fixture.policy)))) /\
  (no_faults Fixture.deployed ->
   fuzzy_pass_safe Fixture.deployed Fixture.call_day31 ->
   exists w' cands,
     findMatchingStitches Fixture.deployed Fixture.call_day31 Fixture.policy 1 w
       = (w', inr cands)).
Proof.
  intros w.
  apply (phone_exact_iff_within_window Fixture.deployed Fixture.call_day31
           Fixture.policy 1 w "5125550101" Fixture.lead_day0).
  - reflexivity.
  - discriminate.
  - simpl. left. reflexivity.
  - reflexivity.
  - reflexivity.
  - simpl. constructor; [intros []|constructor].
Defined.

Example no_candidate_on_day_31 :
  candidates_of Fixture.deployed Fixture.call_day31 Fixture.policy 1
    (Fixture.database [Fixture.lead_day0] [] [] []) = inr [] /\
  option_map (map pass)
    (match candidates_of Fixture.deployed Fixture.call_day30 Fixture.policy 1
             (Fixture.database [Fixture.lead_day0] [] [] []) with
     | inr cands => Some cands
     | inl _ => None
     end) = Some ["P1"].
Proof. split; vm_compute; reflexivity. Qed.

(** C8.  Every P4 candidate the generator returns points to a lead of the
    account whose name is at least 0.88 similar (case-insensitive
    Jaro-Winkler) to the event's name, whatever the location and phone
    fields are. *)
Theorem C8_fuzzy_candidate_name_similarity
  (rt : Runtime) (row : NormRow) (policy : PolicyConfig) (acct : Z)
  (w w' : World) (cands : list MatchCandidate) (c : MatchCandidate) :
  findMatchingStitches rt row policy acct w = (w', inr cands) ->
  In c cands -> pass c = "P4" ->
  exists m rname mname sim,
    In m (stitchedLeads (db w)) /\ sl_accountId m = acct /\
    stitchId c = sl_id m /\
    name row = Some rname /\ sl_name m = Some mname /\
    calculateSimilarity rt rname mname = inr sim /\
    (88 # 100 <= sim)%Q.
Proof.
  intros E Hc Hpass.
  apply findMatchingStitches_returns in E. destruct E as [C _].
  apply candidates_of_inr in C. destruct C as (fuzzy & P4 & ->).
  rewrite !in_app_iff in Hc.
  destruct Hc as [Hc|[Hc|[Hc|Hc]]].
  - apply p1_of_pass in Hc. congruence.
  - apply p2_of_pass in Hc. congruence.
  - apply p3_of_pass in Hc. congruence.
  - apply (p4_of_inv _ _ _ _ _ _ _ P4) in Hc. apply Hc.
Qed.

Lemma C8_witness_same_name :
  let w := Fixture.world (Fixture.database [Fixture.lead_named] [] [] []) in
  exists m rname mname sim,
    In m (stitchedLeads (db w)) /\ sl_accountId m = 1 /\
    sl_id Fixture.lead_named = sl_id m /\
    name Fixture.form_named = Some rname /\ sl_name m = Some mname /\
    calculateSimilarity Fixture.rt rname mname = inr sim /\
    (88 # 100 <= sim)%Q.
Proof.
  intros w.
  pose (c := {| stitchId := 1;
                weight := 5 # 10;
                pass := "P4";
                matchedOn := ["name"; "location"];
                reason := "Fuzzy match: name similarity 1.00, location match";
                confidence := 5 # 10 |}).
  apply (C8_fuzzy_candidate_name_similarity Fixture.rt Fixture.form_named
           Fixture.policy 1 w (tick w) [c] c).
  - vm_compute. reflexivity.
  - left. reflexivity.
  - reflexivity.
Defined.

(** ** The sort of the resolver *)

Section StableSortFacts.

Context {A : Type}.
Variable compare : A -> A -> Q.

(** The comparator never puts each of two elements after the other. *)
Hypothesis compare_asym :
  forall a b, goes_after compare a b = true -> goes_after compare b a = false.

Lemma insert_stable_length (x : A) (l : list A) :
  List.length (insert_stable compare x l) = S (List.length l).
Proof.
  induction l as [|y l IH]; simpl; [reflexivity|].
  destruct (goes_after compare x y); simpl; [rewrite IH|]; reflexivity.
Qed.

Lemma js_sort_length (l : list A) :
  List.length (js_sort compare l) = List.length l.
Proof.
  induction l as [|x l IH]; simpl; [reflexivity|].
  rewrite insert_stable_length, IH. reflexivity.
Qed.

Lemma insert_stable_in_order (x : A) (l : list A) :
  in_order compare l -> in_order compare (insert_stable compare x l).
Proof.
  induction l as [|y l IH]; simpl.
  - auto.
  - intros [Hy Hl]. destruct (goes_after compare x y) eqn:G.
    + simpl. split; [|apply IH, Hl].
      destruct l as [|z l]; simpl.
      * apply compare_asym, G.
      * destruct (goes_after compare x z); [exact Hy|apply compare_asym, G].
    + simpl. auto.
Qed.

Lemma js_sort_in_order (l : list A) : in_order compare (js_sort compare l).
Proof.
  induction l as [|x l IH]; simpl; [exact I|].
  apply insert_stable_in_order, IH.
Qed.

(** The sort leaves an array that is in order as it is. *)
Lemma js_sort_fixed (l : list A) :
  in_order compare l -> js_sort compare l = l.
Proof.
  induction l as [|x l IH]; simpl; [reflexivity|].
  intros [Hx Hl]. rewrite (IH Hl).
  destruct l as [|y l]; simpl; [reflexivity|].
  rewrite Hx. reflexivity.
Qed.

Lemma js_sort_idempotent (l : list A) :
  js_sort compare (js_sort compare l) = js_sort compare l.
Proof. apply js_sort_fixed, js_sort_in_order. Qed.

End StableSortFacts.

Lemma by_weight_desc_asym (a b : MatchCandidate) :
  goes_after by_weight_desc a b = true -> goes_after by_weight_desc b a = false.
Proof.
  unfold goes_after, Qlt_bool, by_weight_desc.
  rewrite negb_true_iff, negb_false_iff, Qle_bool_iff.
  intros H.
  assert (N : ~ (weight b - weight a <= 0)%Q).
  { intros C. apply Qle_bool_iff in C. congruence. }
  lra.
Qed.

Lemma pick_sorted_snd policy row sorted :
  snd (pick_sorted policy row sorted) = sorted.
Proof.
  unfold pick_sorted. destruct sorted as [|c0 [|c1 r]]; try reflexivity.
  destruct (Qlt_bool _ _); [reflexivity|].
  destruct (apply_tie_breakers _ _ _); reflexivity.
Qed.

Lemma insert_stable_perm {A : Type} (compare : A -> A -> Q) (x : A) (l : list A) :
  Permutation (insert_stable compare x l) (x :: l).
Proof.
  induction l as [|y l IH]; simpl; [apply Permutation_refl|].
  destruct (goes_after compare x y); [|apply Permutation_refl].
  apply (perm_trans (perm_skip y IH)), perm_swap.
Qed.

Lemma js_sort_perm {A : Type} (compare : A -> A -> Q) (l : list A) :
  Permutation (js_sort compare l) l.
Proof.
  induction l as [|x l IH]; simpl; [apply perm_nil|].
  apply (perm_trans (insert_stable_perm compare x _)), perm_skip, IH.
Qed.

(** In an array in descending order of weight no element outweighs the
    first. *)
Lemma head_outweighs (c0 : MatchCandidate) (l : list MatchCandidate) :
  in_order by_weight_desc (c0 :: l) ->
  forall c, In c (c0 :: l) -> (weight c <= weight c0)%Q.
Proof.
  revert c0. induction l as [|c1 l IH]; intros c0 O c Hc.
  - destruct Hc as [<-|[]]. apply Qle_refl.
  - destruct O as [G O]. destruct Hc as [<-|Hc]; [apply Qle_refl|].
    apply (Qle_trans _ (weight c1)); [apply (IH c1 O c Hc)|].
    unfold goes_after, Qlt_bool, by_weight_desc in G.
    apply negb_false_iff, Qle_bool_iff in G. lra.
Qed.

Lemma apply_tie_breakers_first tieBreakers row first c :
  apply_tie_breakers tieBreakers row first = Some c -> c = first.
Proof.
  induction tieBreakers as [|t rest IH]; simpl; [discriminate|].
  repeat match goal with
         | |- context [if ?b then _ else _] => destruct b
         end; auto; intros E; inversion E; reflexivity.
Qed.

(** The winner is one of the candidates, and none outweighs it. *)
Lemma pickBestCandidate_winner candidates policy row (winner : MatchCandidate) :
  fst (pickBestCandidate candidates policy row) = Some winner ->
  In winner candidates /\
  forall c, In c candidates -> (weight c <= weight winner)%Q.
Proof.
  destruct candidates as [|c [|c' rest]].
  - simpl. discriminate.
  - simpl. intros E. inversion E; subst. split; [left; reflexivity|].
    intros c0 [<-|[]]. apply Qle_refl.
  - change (pickBestCandidate (c :: c' :: rest) policy row)
      with (pick_sorted policy row (js_sort by_weight_desc (c :: c' :: rest))).
    pose proof (js_sort_perm by_weight_desc (c :: c' :: rest)) as Pm.
    pose proof (js_sort_in_order by_weight_desc by_weight_desc_asym
                  (c :: c' :: rest)) as O.
    pose proof (Permutation_length Pm) as L.
    remember (js_sort by_weight_desc (c :: c' :: rest)) as sorted eqn:S.
    clear S. destruct sorted as [|c0 [|c1 r]]; try discriminate L.
    intros E.
    assert (W : winner = c0).
    { unfold pick_sorted in E. destruct (Qlt_bool _ _); simpl in E.
      - congruence.
      - destruct (apply_tie_breakers _ _ _) eqn:T; simpl in E.
        + inversion E; subst. apply (apply_tie_breakers_first _ _ _ _ T).
        + congruence. }
    subst winner. split.
    + apply (Permutation_in _ Pm). left. reflexivity.
    + intros x Hx. apply (head_outweighs c0 (c1 :: r) O).
      apply (Permutation_in _ (Permutation_sym Pm)), Hx.
Qed.

(** C9.  The resolver is a function of its three arguments, and a second
    call on the same array, which the first call has sorted in place,
    returns the same winner (or no winner again). *)
Theorem C9_resolver_deterministic
  (candidates : list MatchCandidate) (policy : PolicyConfig) (row : NormRow) :
  let first_call := pickBestCandidate candidates policy row in
  let second_call := pickBestCandidate (snd first_call) policy row in
  fst second_call = fst first_call /\ snd second_call = snd first_call.
Proof.
  cbv zeta.
  destruct candidates as [|c [|c' rest]]; try (split; reflexivity).
  change (pickBestCandidate (c :: c' :: rest) policy row)
    with (pick_sorted policy row (js_sort by_weight_desc (c :: c' :: rest))).
  rewrite pick_sorted_snd.
  remember (js_sort by_weight_desc (c :: c' :: rest)) as sorted eqn:S.
  assert (L : List.length sorted = List.length (c :: c' :: rest))
    by (rewrite S; apply js_sort_length).
  assert (F : js_sort by_weight_desc sorted = sorted)
    by (rewrite S; apply (js_sort_idempotent _ by_weight_desc_asym)).
  clear S. destruct sorted as [|c0 [|c1 r]]; try discriminate L.
  change (pickBestCandidate (c0 :: c1 :: r) policy row)
    with (pick_sorted policy row (js_sort by_weight_desc (c0 :: c1 :: r))).
  rewrite F. split; [reflexivity|].
  rewrite !pick_sorted_snd. reflexivity.
Qed.

(** ** Policy validation *)

Module PolicyFacts.
Import Policy.

Lemma str_in_In (x : string) (l : list string) :
  Js.str_in x l = true <-> In x l.
Proof.
  unfold Js.str_in. rewrite existsb_exists. split.
  - intros (y & Hy & E). apply String.eqb_eq in E. subst. exact Hy.
  - intros H. exists x. split; [exact H|apply String.eqb_refl].
Qed.

Lemma name_ok_spec (policy : yaml) : name_ok policy = true <-> has_name policy.
Proof.
  unfold name_ok, has_name. split.
  - destruct (get_prop policy "name") as [|[[| | |[|c s]| |]|]];
      try discriminate.
    intros _. exists (String c s). split; [reflexivity|discriminate].
  - intros (s & -> & Hs). destruct s; [contradiction Hs; reflexivity|reflexivity].
Qed.

Lemma mode_ok_spec (policy : yaml) : mode_ok policy = true <-> has_mode policy.
Proof.
  unfold mode_ok, has_mode. split.
  - destruct (get_prop policy "attribution_mode") as [|[[| | |s| |]|]];
      try discriminate.
    intros H. exists s. split; [reflexivity|apply str_in_In, H].
  - intros (s & -> & Hs). apply str_in_In, Hs.
Qed.

Lemma object_ok_spec (policy : yaml) (k : string) :
  object_ok policy k = true <-> has_map_or_seq policy k.
Proof.
  unfold object_ok, has_map_or_seq, has_map. split.
  - destruct (get_prop policy k) as [|[[| | | |items|entries]|]];
      try discriminate; intros _; eauto.
  - intros [(entries & ->)|(items & ->)]; reflexivity.
Qed.

Lemma not_true_iff (b : bool) (P : Prop) : (b = true <-> P) -> (b = false <-> ~ P).
Proof.
  intros H. destruct b; split; intros G; try discriminate; try reflexivity.
  - exfalso. apply G, H. reflexivity.
  - intros p. apply H in p. discriminate.
Qed.

Lemma accepts_false (policy : yaml) :
  accepts policy = false <-> rejects (inr policy).
Proof.
  unfold accepts, rejects.
  rewrite <- (not_true_iff _ _ (name_ok_spec policy)).
  rewrite <- (not_true_iff _ _ (mode_ok_spec policy)).
  rewrite <- (not_true_iff _ _ (object_ok_spec policy "windows")).
  rewrite <- (not_true_iff _ _ (object_ok_spec policy "weights")).
  rewrite !andb_false_iff. tauto.
Qed.

Lemma check_name (v : option yaml) :
  (falsy v || negb (String.eqb (typeof v) "string"))%bool =
  negb (match v with Some (YStr (String _ _)) => true | _ => false end).
Proof.
  destruct v as [[|b|q|[|c s]|items|entries]|]; simpl;
    rewrite ?orb_true_r; reflexivity.
Qed.

Lemma check_mode (v : option yaml) :
  (falsy v || negb (modes_include v))%bool =
  negb (match v with
        | Some (YStr s) => Js.str_in s attribution_modes
        | _ => false
        end).
Proof.
  destruct v as [[|b|q|[|c s]|items|entries]|]; simpl;
    rewrite ?orb_true_r; reflexivity.
Qed.

Lemma check_object (v : option yaml) :
  (falsy v || negb (String.eqb (typeof v) "object"))%bool =
  negb (match v with
        | Some (YSeq _) | Some (YMap _) => true
        | _ => false
        end).
Proof.
  destruct v as [[|b|q|[|c s]|items|entries]|]; simpl;
    rewrite ?orb_true_r; reflexivity.
Qed.

(** [validate_parsed] returns the document when the four checks pass and
    throws otherwise. *)
Lemma validate_parsed_accepts (policy : yaml) :
  if accepts policy then validate_parsed policy = Returns policy
  else fails (validate_parsed policy).
Proof.
  unfold accepts, name_ok, mode_ok, object_ok, validate_parsed, fails, invalid.
  destruct policy as [| | | | |entries]; simpl; eauto.
  rewrite check_name, check_mode, !check_object.
  repeat match goal with
         | |- context [negb ?b] => destruct b; simpl; eauto
         end.
Qed.

Lemma lookup_known_part (entries : list (string * yaml)) (k : string) :
  known_key k = true -> lookup (known_part entries) k = lookup entries k.
Proof.
  intros K. unfold known_part.
  induction entries as [|[k0 v0] entries IH]; simpl; [reflexivity|].
  destruct (known_key k0) eqn:K0; simpl.
  - rewrite IH. reflexivity.
  - rewrite IH. destruct (String.eqb k0 k) eqn:E; [|reflexivity].
    apply String.eqb_eq in E. congruence.
Qed.

Lemma accepts_known_part (entries : list (string * yaml)) :
  accepts (YMap (known_part entries)) = accepts (YMap entries).
Proof.
  unfold accepts, name_ok, mode_ok, object_ok, get_prop.
  rewrite !lookup_known_part by reflexivity. reflexivity.
Qed.

Lemma fails_iff_not_accepts (policy : yaml) :
  fails (validate_parsed policy) <-> accepts policy = false.
Proof.
  pose proof (validate_parsed_accepts policy) as H.
  destruct (accepts policy); split; intros G; try discriminate; try exact H.
  - destruct G as (msg & G). congruence.
  - reflexivity.
Qed.

End PolicyFacts.

(** C5, as amended.  [validatePolicyYaml] throws its validation error
    exactly when the text does not parse, or the document has no non-empty
    string name, no recognized attribution mode, or, under [windows] or
    under [weights], neither a map nor a sequence; otherwise it returns the
    parsed document as it is, and the keys other than these four have no
    part in the outcome. *)
Theorem C5_validation_fails_exactly_when
  (parseYaml : string -> string + Policy.yaml) (yamlString : string) :
  (Policy.fails (Policy.validatePolicyYaml parseYaml yamlString) <->
   Policy.rejects (parseYaml yamlString)) /\
  (forall policy,
     Policy.validatePolicyYaml parseYaml yamlString = Policy.Returns policy <->
     parseYaml yamlString = inr policy /\
     ~ Policy.rejects (parseYaml yamlString)) /\
  (forall entries,
     parseYaml yamlString = inr (Policy.YMap entries) ->
     (Policy.fails (Policy.validatePolicyYaml parseYaml yamlString) <->
      Policy.fails (Policy.validate_parsed
                      (Policy.YMap (Policy.known_part entries))))).
Proof.
  unfold Policy.validatePolicyYaml.
  destruct (parseYaml yamlString) as [parseError|policy] eqn:P.
  - split; [|split].
    + simpl. split; [auto|]. intros _. eexists. reflexivity.
    + intros policy. split; [discriminate|]. intros [E _]. discriminate.
    + discriminate.
  - pose proof (PolicyFacts.validate_parsed_accepts policy) as V.
    pose proof (PolicyFacts.accepts_false policy) as R.
    split; [|split].
    + rewrite PolicyFacts.fails_iff_not_accepts. exact R.
    + intros policy'. destruct (Policy.accepts policy).
      * rewrite V. split.
        -- intros E. inversion E; subst. split; [reflexivity|].
           intros C. apply R in C. discriminate.
        -- intros [E _]. inversion E. reflexivity.
      * split.
        -- intros E. destruct V as (msg & V). congruence.
        -- intros [_ C]. exfalso. apply C, R. reflexivity.
    + intros entries E. inversion E; subst.
      rewrite !PolicyFacts.fails_iff_not_accepts.
      rewrite PolicyFacts.accepts_known_part. tauto.
Qed.

(** C5 as the specification words it fails on a document whose [windows] is
    a sequence: there is no [windows] map, and the validation returns. *)
Lemma C5_counterexample_windows_sequence :
  let parseYaml := fun _ : string => inr Policy.windows_as_sequence in
  let text := "name: p" in
  ~ (Policy.fails (Policy.validatePolicyYaml parseYaml text) <->
     Policy.spec_rejects (parseYaml text)).
Proof.
  cbv zeta. intros [_ H].
  assert (F : Policy.fails (Policy.Returns Policy.windows_as_sequence)).
  { apply H. simpl. right. right. left.
    intros (entries & E). discriminate E. }
  destruct F as (msg & F). discriminate F.
Qed.

(** ** Attribution recomputation *)

Lemma is_paid_medium_spec (r : NormRow) :
  is_paid_medium (utmMedium r) = medium_is_paid r.
Proof.
  unfold is_paid_medium, medium_is_paid, Js.str_in, ci_equal, paid_media.
  destruct (utmMedium r) as [[|c s]|]; reflexivity.
Qed.

Lemma find_same {A : Type} (f g : A -> bool) (l : list A) :
  (forall x, f x = g x) -> find f l = find g l.
Proof.
  intros E. induction l as [|x l IH]; simpl; [reflexivity|].
  rewrite E, IH. reflexivity.
Qed.

Lemma find_paidLastSource_spec (linkedRows : list NormRow) :
  find_paidLastSource linkedRows = amended_paidLastSource linkedRows.
Proof.
  unfold find_paidLastSource, amended_paidLastSource, latest_paid_event.
  rewrite (find_same _ medium_is_paid); [reflexivity|].
  intros r. apply is_paid_medium_spec.
Qed.

(** On a lead with a linked event the computation yields a summary, with
    the paid-last source of the loop. *)
Lemma computeAttribution_some (policy : PolicyConfig) (linkedRows : list NormRow) :
  linkedRows <> [] ->
  exists a, computeAttribution policy linkedRows = Some a /\
            a_paidLastSource a = find_paidLastSource linkedRows.
Proof.
  intros N. unfold computeAttribution.
  destruct linkedRows as [|firstRow rest]; [contradiction N; reflexivity|].
  cbv zeta. destruct (apply_attribution_mode _ _ _ _ _ _ _) as [final rows'].
  eexists. split; reflexivity.
Qed.

(** Under the mode [equal_weight] the final triple stays empty. *)
Lemma computeAttribution_equal_weight (policy : PolicyConfig)
  (linkedRows : list NormRow) (a : Attribution) :
  attribution_mode policy = equal_weight ->
  computeAttribution policy linkedRows = Some a ->
  a_finalSource a = "" /\ a_finalMedium a = "" /\ a_finalCampaign a = "" /\
  a_finalChannel a = "direct".
Proof.
  intros Hm. unfold computeAttribution.
  destruct linkedRows as [|firstRow rest]; [discriminate|].
  cbv zeta. rewrite Hm. simpl. intros E. inversion E. simpl. auto.
Qed.

Lemma recomputeAttribution_quiet (rt : Runtime) (sid : Z) (policy : PolicyConfig)
  (w : World) :
  no_faults rt ->
  recomputeAttribution rt sid policy w =
  match computeAttribution policy (select_linked_rows sid (db w)) with
  | None => (tick w, inr tt)
  | Some a =>
      (tick (set_db (fst (update_stitch sid a (db w))) (tick w)), inr tt)
  end.
Proof.
  intros quiet. unfold recomputeAttribution, bind.
  rewrite (db_select_quiet rt quiet).
  destruct (computeAttribution _ _) as [a|]; [|reflexivity].
  rewrite (db_write_quiet rt quiet). reflexivity.
Qed.

(** C4, as amended.  On a lead with at least one linked event (and a
    database that rejects nothing) the recomputation stores as
    [paid_last_source] of that lead, and of no other, the UTM source of the
    first event, from the latest to the earliest, whose UTM medium is "cpc",
    "paid" or "ppc" up to case, or "paid" when that event's UTM source is
    absent or empty; and the empty string when no linked event has such a
    medium. *)
Theorem C4_paid_last_source
  (rt : Runtime) (sid : Z) (policy : PolicyConfig) (w : World) :
  no_faults rt ->
  select_linked_rows sid (db w) <> [] ->
  exists w',
    recomputeAttribution rt sid policy w = (w', inr tt) /\
    map (fun l => (sl_id l, paidLastSource l)) (stitchedLeads (db w')) =
    map (fun l => (sl_id l,
                   if sl_id l =? sid
                   then Some (amended_paidLastSource
                                (select_linked_rows sid (db w)))
                   else paidLastSource l))
        (stitchedLeads (db w)).
Proof.
  intros quiet N.
  rewrite (recomputeAttribution_quiet rt sid policy w quiet).
  destruct (computeAttribution_some policy _ N) as (a & -> & P).
  eexists. split; [reflexivity|].
  simpl. rewrite map_map. apply map_ext. intros l.
  destruct (sl_id l =? sid); [|reflexivity].
  simpl. rewrite P, find_paidLastSource_spec. reflexivity.
Qed.

Lemma C4_witness_paid_click :
  let w := Fixture.world (Fixture.linked_to_lead1 [Fixture.click_google]) in
  exists w',
    recomputeAttribution Fixture.rt 1 Fixture.policy w = (w', inr tt) /\
    map (fun l => (sl_id l, paidLastSource l)) (stitchedLeads (db w')) =
    map (fun l => (sl_id l,
                   if sl_id l =? 1
                   then Some (amended_paidLastSource
                                (select_linked_rows 1 (db w)))
                   else paidLastSource l))
        (stitchedLeads (db w)).
Proof.
  apply (C4_paid_last_source Fixture.rt 1 Fixture.policy).
  - intros k. reflexivity.
  - vm_compute. discriminate.
Defined.

Example paid_last_source_of_paid_click :
  amended_paidLastSource
    (select_linked_rows 1 (Fixture.linked_to_lead1 [Fixture.click_google]))
  = "google".
Proof. vm_compute. reflexivity. Qed.

(** C4 as the specification words it fails on a paid click that carries no
    UTM source: the stored [paid_last_source] is "paid", not that event's
    (empty) UTM source. *)
Lemma C4_counterexample_absent_source :
  let w := Fixture.world (Fixture.linked_to_lead1 [Fixture.click_no_source]) in
  exists w' l,
    recomputeAttribution Fixture.rt 1 Fixture.policy w = (w', inr tt) /\
    In l (stitchedLeads (db w')) /\ sl_id l = 1 /\
    paidLastSource l = Some "paid" /\
    spec_paidLastSource (select_linked_rows 1 (db w)) = "" /\
    paidLastSource l <>
      Some (spec_paidLastSource (select_linked_rows 1 (db w))).
Proof.
  cbv zeta. eexists. eexists. split; [vm_compute; reflexivity|].
  split; [left; reflexivity|].
  split; [reflexivity|]. split; [reflexivity|].
  split; [vm_compute; reflexivity|]. vm_compute. discriminate.
Qed.

(** C3 on the code.  A lead whose only linked event carries the UTM fields
    google / cpc / spring: under [last_touch] the recomputation stores them
    as the final triple; under [equal_weight] it stores three empty strings
    and the channel "direct". *)
Theorem C3_equal_weight_on_one_event :
  let w := Fixture.world (Fixture.linked_to_lead1 [Fixture.click_google]) in
  let final_under mode :=
    map (fun l => (final_triple l, finalChannel l))
        (stitchedLeads
           (db (fst (recomputeAttribution Fixture.rt 1
                       (Fixture.policy_with mode) w)))) in
  final_under last_touch =
    [((Some "google", Some "cpc", Some "spring"), Some "paid_search")] /\
  final_under equal_weight =
    [((Some "", Some "", Some ""), Some "direct")].
Proof. cbv zeta. split; vm_compute; reflexivity. Qed.

(** ** What the steps of a computation keep *)

Section Keeps.

Variable rt : Runtime.
Variable P : World -> World -> Prop.
Hypothesis P_refl : forall w, P w w.
Hypothesis P_trans : forall w1 w2 w3, P w1 w2 -> P w2 w3 -> P w1 w3.
Hypothesis P_tick : forall w, P w (tick w).

Lemma keeps_ret {A : Type} (a : A) : keeps P (ret a).
Proof. intros w w' r E. inversion E. apply P_refl. Qed.

Lemma keeps_throw {A : Type} (e : exn) : keeps P (@throw A e).
Proof. intros w w' r E. inversion E. apply P_refl. Qed.

Lemma keeps_bind {A B : Type} (m : M A) (k : A -> M B) :
  keeps P m -> (forall a, keeps P (k a)) -> keeps P (bind m k).
Proof.
  intros Hm Hk w w' r E. apply bind_inv in E.
  destruct E as [(e & E & _)|(w1 & a & E1 & E2)].
  - apply (Hm _ _ _ E).
  - apply (P_trans _ w1); [apply (Hm _ _ _ E1)|apply (Hk _ _ _ _ E2)].
Qed.

Lemma keeps_try_catch {A : Type} (m : M A) (h : exn -> M A) :
  keeps P m -> (forall e, keeps P (h e)) -> keeps P (try_catch m h).
Proof.
  intros Hm Hh w w' r. unfold try_catch.
  destruct (m w) as [w1 [e|a]] eqn:E1; intros E.
  - apply (P_trans _ w1); [apply (Hm _ _ _ E1)|apply (Hh _ _ _ _ E)].
  - inversion E; subst. apply (Hm _ _ _ E1).
Qed.

Lemma keeps_db_select {A : Type} (q : Db -> A) : keeps P (db_select rt q).
Proof.
  intros w w' r E. apply db_select_inv in E. destruct E as [-> _]. apply P_tick.
Qed.

Lemma keeps_new_Date : keeps P (new_Date rt).
Proof. intros w w' r E. inversion E. apply P_tick. Qed.

Lemma keeps_new_ulid : keeps P (new_ulid rt).
Proof. intros w w' r E. inversion E. apply P_tick. Qed.

Lemma keeps_db_write {A : Type} (u : Db -> Db * A) :
  (forall w, P w (set_db (fst (u (db w))) w)) -> keeps P (db_write rt u).
Proof.
  intros Hu w w' r. unfold db_write.
  destruct (faults rt (steps w)); intros E.
  - inversion E. apply P_tick.
  - specialize (Hu w). destruct (u (db w)) as [d a]. inversion E.
    apply (P_trans _ (set_db d w)); [exact Hu|apply P_tick].
Qed.

Lemma keeps_update_result (f : MatchResult -> MatchResult) :
  (forall w, P w (set_result (f (result w)) w)) -> keeps P (update_result f).
Proof. intros Hf w w' r E. inversion E. apply Hf. Qed.

(** The usage check and the generator write nothing. *)
Lemma keeps_checkUsageLimit (acct : Z) : keeps P (checkUsageLimit rt acct).
Proof.
  unfold checkUsageLimit.
  apply keeps_bind; [apply keeps_new_Date|]. intros now. cbv zeta.
  apply keeps_bind; [apply keeps_db_select|]. intros [|u usage].
  - apply keeps_throw.
  - destruct (usage_limit <=? stitchedCount u);
      [apply keeps_throw|apply keeps_ret].
Qed.

Lemma keeps_findMatchingStitches row policy acct :
  keeps P (findMatchingStitches rt row policy acct).
Proof.
  unfold findMatchingStitches. cbv zeta.
  apply keeps_bind.
  { unfold phone_pass. destruct (map_get _ _).
    - apply keeps_bind; [apply keeps_db_select|intros; apply keeps_ret].
    - apply keeps_ret. }
  intros c1. apply keeps_bind.
  { unfold email_pass. destruct (map_get _ _).
    - apply keeps_bind; [apply keeps_db_select|intros; apply keeps_ret].
    - apply keeps_ret. }
  intros c2. apply keeps_bind.
  { unfold click_pass. cbv zeta. destruct (clickKey_of _) as [[|c s]|].
    - apply keeps_ret.
    - apply keeps_bind; [apply keeps_db_select|intros; apply keeps_ret].
    - apply keeps_ret. }
  intros c3. apply keeps_bind.
  { unfold fuzzy_pass.
    destruct (map_has _ _); destruct (name row) as [[|c1' n]|];
      destruct (location row) as [[|c2' l]|]; try apply keeps_ret.
    apply keeps_bind; [apply keeps_db_select|].
    intros ms. destruct (p4_candidates _ _ _ _ _ ms);
      [apply keeps_throw|apply keeps_ret]. }
  intros c4. apply keeps_ret.
Qed.

(** The link, the audit entry and the recomputation keep what the tables of
    leads (up to their attribution), links and audit entries do not
    carry. *)
Hypothesis P_insert_link : forall row sid c w,
  P w (set_db (fst (insert_link row sid c (db w))) w).
Hypothesis P_insert_audit : forall row sid c w,
  P w (set_db (fst (insert_audit row sid c (db w))) w).
Hypothesis P_update_stitch : forall sid a w,
  P w (set_db (fst (update_stitch sid a (db w))) w).

Lemma keeps_linkRowToStitch row sid c : keeps P (linkRowToStitch rt row sid c).
Proof.
  unfold linkRowToStitch.
  apply keeps_bind; [apply keeps_db_write, P_insert_link|].
  intros _. apply keeps_db_write, P_insert_audit.
Qed.

Lemma keeps_recomputeAttribution sid policy :
  keeps P (recomputeAttribution rt sid policy).
Proof.
  unfold recomputeAttribution.
  apply keeps_bind; [apply keeps_db_select|]. intros rows.
  destruct (computeAttribution policy rows).
  - apply keeps_db_write, P_update_stitch.
  - apply keeps_ret.
Qed.

Hypothesis P_incr_linksCreated : forall w,
  P w (set_result (incr_linksCreated (result w)) w).

Lemma keeps_link_and_recompute policy row sid c :
  keeps P (link_and_recompute rt policy row sid c).
Proof.
  unfold link_and_recompute.
  apply keeps_bind; [apply keeps_linkRowToStitch|]. intros _.
  apply keeps_bind; [apply keeps_update_result, P_incr_linksCreated|].
  intros _. apply keeps_recomputeAttribution.
Qed.

End Keeps.

(** ** The relations kept *)

Lemma same_usage_refl (w : World) : same_usage w w.
Proof. repeat split. Qed.

Lemma same_usage_trans (w1 w2 w3 : World) :
  same_usage w1 w2 -> same_usage w2 w3 -> same_usage w1 w3.
Proof. intros (A & B & C) (D & E & F). repeat split; congruence. Qed.

Lemma same_usage_tick (w : World) : same_usage w (tick w).
Proof. repeat split. Qed.

Lemma same_usage_insert_link row sid c (w : World) :
  same_usage w (set_db (fst (insert_link row sid c (db w))) w).
Proof. repeat split. Qed.

Lemma same_usage_insert_audit row sid c (w : World) :
  same_usage w (set_db (fst (insert_audit row sid c (db w))) w).
Proof. repeat split. Qed.

Lemma same_usage_update_stitch sid a (w : World) :
  same_usage w (set_db (fst (update_stitch sid a (db w))) w).
Proof.
  repeat split. simpl. rewrite map_map. apply map_ext.
  intros l. destruct (sl_id l =? sid); reflexivity.
Qed.

Lemma same_usage_incr_linksCreated (w : World) :
  same_usage w (set_result (incr_linksCreated (result w)) w).
Proof. repeat split. Qed.




Lemma same_errors_set_db (d : Db) (w : World) : same_errors w (set_db d w).
Proof. reflexivity. Qed.

(** With a winner, the body of the loop goes from the resolution to the
    link. *)
Lemma process_row_winner (rt : Runtime) (policy : PolicyConfig) (acct : Z)
  (row : NormRow) (w w1 w2 : World) (cands : list MatchCandidate)
  (c : MatchCandidate) :
  checkUsageLimit rt acct w = (w1, inr tt) ->
  findMatchingStitches rt row policy acct w1 = (w2, inr cands) ->
  fst (pickBestCandidate cands policy row) = Some c ->
  process_row rt policy acct row w =
  link_and_recompute rt policy row (stitchId c) (Some c) w2.
Proof.
  intros E1 E2 Hw. unfold process_row.
  rewrite (bind_ok _ _ _ _ _ E1), (bind_ok _ _ _ _ _ E2).
  cbv zeta. rewrite Hw. reflexivity.
Qed.

(** At the limit the usage check throws, before any candidate is sought. *)
Lemma checkUsageLimit_at_limit (rt : Runtime) (acct : Z) (w : World)
  (u : UsageCounter) (rest : list UsageCounter) :
  faults rt (S (steps w)) = None ->
  select_usage acct (startOfMonth rt (clock rt (steps w)))
    (endOfMonth rt (clock rt (steps w))) (db w) = u :: rest ->
  usage_limit <= stitchedCount u ->
  checkUsageLimit rt acct w =
  (tick (tick w),
   inl (UsageLimitError "Monthly limit of 250 stitched leads exceeded")).
Proof.
  intros F S L. unfold checkUsageLimit, bind, new_Date. cbv zeta.
  rewrite db_select_ok by exact F.
  change (db (tick w)) with (db w). rewrite S.
  apply Z.leb_le in L. rewrite L. reflexivity.
Qed.

Lemma process_row_check_throws (rt : Runtime) (policy : PolicyConfig) (acct : Z)
  (row : NormRow) (w w1 : World) (e : exn) :
  checkUsageLimit rt acct w = (w1, inl e) ->
  process_row rt policy acct row w = (w1, inl e).
Proof. intros E. unfold process_row. apply bind_throws, E. Qed.

(** C2, as amended.  For an event that has passed the usage check (which the
    loop runs for every event, before the generator) and for which the
    resolver returns a winner, the body of the loop goes directly to the
    creation of the link: no usage counter is incremented, the count of new
    leads stays, and no lead is created.  When the counter read by the check
    has reached the limit, the body throws the usage-limit error for any
    event, matching or not. *)
Theorem C2_winner_skips_usage_increment
  (rt : Runtime) (policy : PolicyConfig) (acct : Z) (row : NormRow)
  (w w1 w2 : World) (cands : list MatchCandidate) (c : MatchCandidate) :
  checkUsageLimit rt acct w = (w1, inr tt) ->
  findMatchingStitches rt row policy acct w1 = (w2, inr cands) ->
  fst (pickBestCandidate cands policy row) = Some c ->
  process_row rt policy acct row w =
    link_and_recompute rt policy row (stitchId c) (Some c) w2 /\
  (forall w' r, process_row rt policy acct row w = (w', r) ->
     usageCounters (db w') = usageCounters (db w) /\
     stitchedNew (result w') = stitchedNew (result w) /\
     map sl_id (stitchedLeads (db w')) = map sl_id (stitchedLeads (db w))) /\
  (forall w0 u rest,
     faults rt (S (steps w0)) = None ->
     select_usage acct (startOfMonth rt (clock rt (steps w0)))
       (endOfMonth rt (clock rt (steps w0))) (db w0) = u :: rest ->
     usage_limit <= stitchedCount u ->
     process_row rt policy acct row w0 =
     (tick (tick w0),
      inl (UsageLimitError "Monthly limit of 250 stitched leads exceeded"))).
Proof.
  intros E1 E2 Hw.
  pose proof (process_row_winner rt policy acct row w w1 w2 cands c E1 E2 Hw) as R.
  split; [exact R|]. split.
  - intros w' r E. rewrite R in E.
    assert (S1 : same_usage w w1).
    { apply (keeps_checkUsageLimit rt same_usage same_usage_refl same_usage_trans
               same_usage_tick acct _ _ _ E1). }
    assert (S2 : same_usage w1 w2).
    { apply (keeps_findMatchingStitches rt same_usage same_usage_refl
               same_usage_trans same_usage_tick row policy acct _ _ _ E2). }
    assert (S3 : same_usage w2 w').
    { apply (keeps_link_and_recompute rt same_usage same_usage_refl
               same_usage_trans same_usage_tick same_usage_insert_link
               same_usage_insert_audit same_usage_update_stitch
               same_usage_incr_linksCreated policy row (stitchId c) (Some c)
               _ _ _ E). }
    apply (same_usage_trans _ _ _ (same_usage_trans _ _ _ S1 S2) S3).
  - intros w0 u rest F S L.
    apply process_row_check_throws.
    apply (checkUsageLimit_at_limit rt acct w0 u rest F S L).
Qed.

Lemma C2_witness_matching_call :
  let w := Fixture.world
             (Fixture.database [Fixture.lead_day100] [] [Fixture.call_day100]
                [Fixture.counter 0]) in
  let c := {| stitchId := 1; weight := 1; pass := "P1";
              matchedOn := ["phone"];
              reason := "Phone exact match: 5125550101";
              confidence := 9 # 10 |} in
  let rt := Fixture.rt in
  let row := Fixture.call_day100 in
  process_row rt Fixture.policy 1 row w =
    link_and_recompute rt Fixture.policy row 1 (Some c) (tick (tick (tick w))) /\
  (forall w' r,
     process_row rt Fixture.policy 1 row w = (w', r) ->
     usageCounters (db w') = usageCounters (db w) /\
     stitchedNew (result w') = stitchedNew (result w) /\
     map sl_id (stitchedLeads (db w')) = map sl_id (stitchedLeads (db w))) /\
  (forall w0 u rest,
     faults rt (S (steps w0)) = None ->
     select_usage 1 (startOfMonth rt (clock rt (steps w0)))
       (endOfMonth rt (clock rt (steps w0))) (db w0) = u :: rest ->
     usage_limit <= stitchedCount u ->
     process_row rt Fixture.policy 1 row w0 =
     (tick (tick w0),
      inl (UsageLimitError "Monthly limit of 250 stitched leads exceeded"))).
Proof.
  intros w c rt row.
  apply (C2_winner_skips_usage_increment rt Fixture.policy 1 row
           w (tick (tick w)) (tick (tick (tick w))) [c] c).
  - vm_compute. reflexivity.
  - vm_compute. reflexivity.
  - reflexivity.
Defined.

(** C2 as the specification words it fails on an account at its limit: the
    event's phone matches a lead created the same day, so the resolver has a
    winner for it, and the loop's body throws the usage-limit error before
    it looks for candidates; no link is created. *)
Lemma C2_counterexample_match_at_limit :
  let w := Fixture.world
             (Fixture.database [Fixture.lead_day100] [] [Fixture.call_day100]
                [Fixture.counter 250]) in
  (exists cands c,
     candidates_of Fixture.rt Fixture.call_day100 Fixture.policy 1 (db w)
       = inr cands /\
     fst (pickBestCandidate cands Fixture.policy Fixture.call_day100)
       = Some c /\ stitchId c = sl_id Fixture.lead_day100) /\
  exists w',
    process_row Fixture.rt Fixture.policy 1 Fixture.call_day100 w =
      (w', inl (UsageLimitError "Monthly limit of 250 stitched leads exceeded")) /\
    stitchLinks (db w') = [].
Proof.
  cbv zeta. split.
  - eexists. eexists. split; [vm_compute; reflexivity|].
    split; vm_compute; reflexivity.
  - eexists. split; vm_compute; reflexivity.
Qed.

(** ** The loop of [runMatch] *)

Section Loop.

Variable rt : Runtime.
Variable policy : PolicyConfig.
Variable acct : Z.

(** One turn of the loop never throws: what the body throws is pushed on
    the error list. *)
Lemma process_row_caught_eq (row : NormRow) (w : World) :
  process_row_caught rt policy acct row w =
  match process_row rt policy acct row w with
  | (w2, inl e) =>
      (set_result (push_error (errorMsg_of row e) (result w2)) w2, inr tt)
  | (w2, inr _) => (w2, inr tt)
  end.
Proof.
  unfold process_row_caught, try_catch.
  destruct (process_row rt policy acct row w) as [w2 [e|[]]]; reflexivity.
Qed.

Lemma process_row_caught_returns (row : NormRow) (w : World) :
  exists w', process_row_caught rt policy acct row w = (w', inr tt).
Proof.
  rewrite process_row_caught_eq.
  destruct (process_row rt policy acct row w) as [w2 [e|u]]; eauto.
Qed.

Lemma process_rows_returns (rows : list NormRow) (w : World) :
  exists w', process_rows rt policy acct rows w = (w', inr tt).
Proof.
  revert w. induction rows as [|row rows IH]; intros w; simpl.
  - exists w. reflexivity.
  - destruct (process_row_caught_returns row w) as (w1 & E).
    rewrite (bind_ok _ _ _ _ _ E). apply IH.
Qed.




(** The loop returns, and after it the [result] object is returned. *)
Lemma match_rows_returns (rows : list NormRow) (w : World) :
  exists w',
    process_rows rt policy acct rows w = (w', inr tt) /\
    match_rows rt policy acct rows w = (w', inr (result w')).
Proof.
  destruct (process_rows_returns rows w) as (w' & E).
  exists w'. split; [exact E|].
  unfold match_rows, bind. rewrite E. reflexivity.
Qed.

End Loop.

(** On a database that rejects the list operand of [ANY], as the deployed
    one does, [runMatch] rethrows the rejection of its first query: the loop
    is not entered and nothing is written. *)
Lemma runMatch_first_query_rejected (rt : Runtime) (acct : Z)
  (uploadIds : list Z) (policy : PolicyConfig) (w : World) (msg : string) :
  list_operand rt uploadIds = Some msg ->
  exists w' msg',
    runMatch rt acct uploadIds policy w = (w', inl (Error msg')) /\
    db w' = db w.
Proof.
  intros R.
  unfold runMatch, bind at 1, update_result, try_catch, bind at 1,
    select_batch. simpl.
  destruct (faults rt (steps w)) as [m|]; [|rewrite R];
    eexists; eexists; split; reflexivity.
Qed.



(** The batch of the witness. *)
Example match_rows_after_rejected_insert :
  let rt := Fixture.deployed_rejecting 3 in
  let w := Fixture.world
             (Fixture.database [] [] [Fixture.chat_a; Fixture.chat_b]
                [Fixture.counter 0]) in
  snd (match_rows rt Fixture.policy 1 [Fixture.chat_a; Fixture.chat_b] w) =
  inr {| stitchedNew := 1; linksCreated := 1;
         errors := ["Failed to process row 14: connection terminated"] |}.
Proof. vm_compute. reflexivity. Qed.

(** ** An account without a usage counter for the month *)

Lemma filter_none {A : Type} (f : A -> bool) (l : list A) :
  (forall x, In x l -> f x = false) -> filter f l = [].
Proof.
  induction l as [|x l IH]; simpl; [reflexivity|]. intros H.
  rewrite (H x (or_introl eq_refl)). apply IH. intros y Hy. apply H. auto.
Qed.


Section NoCounter.

Variable rt : Runtime.
Variable policy : PolicyConfig.
Variable acct : Z.
Variable d : Db.

(** At no reading of the clock does the account have a usage counter within
    the month. *)
Hypothesis no_counter : forall k u,
  In u (usageCounters d) -> uc_accountId u = acct ->
  ~ (startOfMonth rt (clock rt k) <= periodStart u /\
     periodEnd u <= endOfMonth rt (clock rt k)).



End NoCounter.



Example match_rows_without_counter :
  let rows := [Fixture.chat_a; Fixture.chat_b] in
  let w := Fixture.world (Fixture.database [] [] rows []) in
  snd (match_rows Fixture.deployed Fixture.policy 1 rows w) =
  inr {| stitchedNew := 0; linksCreated := 0;
         errors := ["Failed to process row 14: Usage counter not found";
                    "Failed to process row 15: Usage counter not found"] |}.
Proof. vm_compute. reflexivity. Qed.

(** ** The usage counter along a batch *)

Lemma usage_of_same (acct ms me : Z) (d d' : Db) :
  usageCounters d' = usageCounters d ->
  usage_of acct ms me d' = usage_of acct ms me d.
Proof. unfold usage_of, select_usage. intros ->. reflexivity. Qed.

(** The increment adds one to the counter that the check reads. *)
Lemma usage_of_increment (acct ms me : Z) (d : Db) :
  usage_of acct ms me (fst (increment_usage acct d)) =
  option_map (fun u => u + 1) (usage_of acct ms me d).
Proof.
  unfold usage_of, select_usage. simpl.
  induction (usageCounters d) as [|u l IH]; simpl; [reflexivity|].
  destruct (uc_accountId u =? acct) eqn:A; simpl; rewrite A; simpl.
  - destruct ((ms <=? periodStart u) && (periodEnd u <=? me))%bool; simpl.
    + reflexivity.
    + exact IH.
  - exact IH.
Qed.

Section Batch.

Variable rt : Runtime.
Variable policy : PolicyConfig.
Variable acct : Z.
Variables ms me : Z.

Hypothesis quiet : no_faults rt.

(** The batch runs within one calendar month. *)
Hypothesis one_month : forall k,
  startOfMonth rt (clock rt k) = ms /\ endOfMonth rt (clock rt k) = me.

Lemma select_usage_of (w : World) (u : Z) :
  usage_of acct ms me (db w) = Some u ->
  exists cu rest,
    select_usage acct (startOfMonth rt (clock rt (steps w)))
      (endOfMonth rt (clock rt (steps w))) (db w) = cu :: rest /\
    stitchedCount cu = u.
Proof.
  destruct (one_month (steps w)) as [-> ->]. unfold usage_of.
  destruct (select_usage acct ms me (db w)) as [|cu rest]; [discriminate|].
  intros E. inversion E. eauto.
Qed.

Lemma checkUsageLimit_at_limit_quiet (w : World) (u : Z) :
  usage_of acct ms me (db w) = Some u -> usage_limit <= u ->
  checkUsageLimit rt acct w =
  (tick (tick w),
   inl (UsageLimitError "Monthly limit of 250 stitched leads exceeded")).
Proof.
  intros U L. destruct (select_usage_of w u U) as (cu & rest & S & C).
  apply (checkUsageLimit_at_limit rt acct w cu rest); [apply quiet|exact S|lia].
Qed.

Lemma checkUsageLimit_below_limit (w : World) (u : Z) :
  usage_of acct ms me (db w) = Some u -> u < usage_limit ->
  checkUsageLimit rt acct w = (tick (tick w), inr tt).
Proof.
  intros U L. destruct (select_usage_of w u U) as (cu & rest & S & C).
  unfold checkUsageLimit, bind, new_Date. cbv zeta.
  rewrite db_select_ok by apply quiet.
  change (db (tick w)) with (db w). rewrite S.
  assert (B : (usage_limit <=? stitchedCount cu) = false)
    by (apply Z.leb_gt; lia).
  rewrite B. reflexivity.
Qed.

Lemma linkRowToStitch_quiet row sid c (w : World) :
  exists w', linkRowToStitch rt row sid c w = (w', inr tt).
Proof.
  unfold linkRowToStitch, bind.
  repeat (rewrite (db_write_quiet rt quiet); simpl). eauto.
Qed.

Lemma link_and_recompute_quiet row sid c (w : World) :
  exists w', link_and_recompute rt policy row sid c w = (w', inr tt).
Proof.
  unfold link_and_recompute.
  destruct (linkRowToStitch_quiet row sid c w) as (w1 & E1).
  rewrite (bind_ok _ _ _ _ _ E1). unfold bind at 1, update_result.
  rewrite (recomputeAttribution_quiet rt sid policy _ quiet).
  destruct (computeAttribution _ _); eauto.
Qed.

Lemma create_and_count_quiet row (w : World) :
  exists w' newId,
    create_and_count rt row acct w = (w', inr newId) /\
    usageCounters (db w') = usageCounters (fst (increment_usage acct (db w))) /\
    stitchedNew (result w') = stitchedNew (result w) + 1 /\
    List.length (stitchedLeads (db w')) = S (List.length (stitchedLeads (db w))).
Proof.
  unfold create_and_count, createNewStitch, bind, new_ulid, update_result.
  repeat (rewrite (db_write_quiet rt quiet); simpl).
  eexists. eexists. split; [reflexivity|]. split; [reflexivity|].
  split; [reflexivity|]. simpl. rewrite length_app. simpl. lia.
Qed.

(** One event: the counter, the count of new leads and the table of leads
    move together, and a lead is created only from below the limit. *)
Lemma process_row_usage (row : NormRow) (w : World) (u : Z) :
  usage_of acct ms me (db w) = Some u ->
  exists w' r u',
    process_row rt policy acct row w = (w', r) /\
    usage_of acct ms me (db w') = Some u' /\
    u' - stitchedNew (result w') = u - stitchedNew (result w) /\
    stitchedNew (result w) <= stitchedNew (result w') /\
    (stitchedNew (result w) < stitchedNew (result w') -> u' <= usage_limit) /\
    Z.of_nat (List.length (stitchedLeads (db w'))) - stitchedNew (result w') =
    Z.of_nat (List.length (stitchedLeads (db w))) - stitchedNew (result w).
Proof.
  intros U. destruct (Z_le_gt_dec usage_limit u) as [L|L].
  - pose proof (checkUsageLimit_at_limit_quiet w u U L) as C.
    apply (process_row_check_throws rt policy acct row) in C.
    exists (tick (tick w)), (inl (UsageLimitError
              "Monthly limit of 250 stitched leads exceeded")), u.
    split; [exact C|]. simpl. repeat split; try lia. exact U.
  - assert (C : checkUsageLimit rt acct w = (tick (tick w), inr tt))
      by (apply (checkUsageLimit_below_limit w u U); lia).
    destruct (findMatchingStitches_runs rt quiet row policy acct (tick (tick w)))
      as (w2 & E2 & D2 & R2).
    simpl in D2, R2.
    unfold process_row.
    rewrite (bind_ok _ _ _ _ _ C).
    destruct (candidates_of rt row policy acct (db (tick (tick w))))
      as [e|cands].
    { rewrite (bind_throws _ _ _ _ _ E2).
      exists w2, (inl e), u. split; [reflexivity|].
      rewrite D2, R2. repeat split; try lia. exact U. }
    rewrite (bind_ok _ _ _ _ _ E2). cbv zeta.
    destruct (fst (pickBestCandidate _ policy row)) as [c|].
    + change (bind (ret (stitchId c)) ?k w2)
        with (link_and_recompute rt policy row (stitchId c) (Some c) w2).
      destruct (link_and_recompute_quiet row (stitchId c) (Some c) w2)
        as (w' & E).
      pose proof (keeps_link_and_recompute rt same_usage same_usage_refl
                    same_usage_trans same_usage_tick same_usage_insert_link
                    same_usage_insert_audit same_usage_update_stitch
                    same_usage_incr_linksCreated policy row (stitchId c)
                    (Some c) _ _ _ E) as (SU & SN & SI).
      apply (f_equal (@List.length Z)) in SI. rewrite !length_map in SI.
      exists w', (inr tt), u. split; [exact E|].
      rewrite (usage_of_same _ _ _ _ _ SU), D2, SN, R2, SI, D2.
      repeat split; try lia. exact U.
    + destruct (create_and_count_quiet row w2)
        as (w3 & newId & E3 & U3 & N3 & L3).
      change (bind (bind (createNewStitch rt row acct) ?k1) ?k2 w2)
        with (bind (create_and_count rt row acct)
                (fun sid => link_and_recompute rt policy row sid None) w2).
      rewrite (bind_ok _ _ _ _ _ E3).
      destruct (link_and_recompute_quiet row newId None w3) as (w' & E).
      pose proof (keeps_link_and_recompute rt same_usage same_usage_refl
                    same_usage_trans same_usage_tick same_usage_insert_link
                    same_usage_insert_audit same_usage_update_stitch
                    same_usage_incr_linksCreated policy row newId
                    None _ _ _ E) as (SU & SN & SI).
      apply (f_equal (@List.length Z)) in SI. rewrite !length_map in SI.
      exists w', (inr tt), (u + 1). split; [exact E|].
      rewrite (usage_of_same _ _ _ _ _ SU), (usage_of_same _ _ _ _ _ U3).
      rewrite usage_of_increment, D2, SN, N3, R2, SI, L3, D2. simpl db.
      rewrite U. simpl option_map. repeat split; lia.
Qed.

(** The batch: the counter read by the check is the initial count plus the
    leads created, and stays within the limit once a lead is created. *)
Lemma process_rows_usage (rows : list NormRow) (w : World) (u : Z) :
  usage_of acct ms me (db w) = Some u ->
  exists w' u',
    process_rows rt policy acct rows w = (w', inr tt) /\
    usage_of acct ms me (db w') = Some u' /\
    u' - stitchedNew (result w') = u - stitchedNew (result w) /\
    stitchedNew (result w) <= stitchedNew (result w') /\
    (stitchedNew (result w) < stitchedNew (result w') -> u' <= usage_limit) /\
    Z.of_nat (List.length (stitchedLeads (db w'))) - stitchedNew (result w') =
    Z.of_nat (List.length (stitchedLeads (db w))) - stitchedNew (result w).
Proof.
  revert w u. induction rows as [|row rows IH]; intros w u U; simpl.
  - exists w, u. repeat split; auto; lia.
  - destruct (process_row_usage row w u U)
      as (w1 & r & u1 & E & U1 & Q1 & M1 & B1 & T1).
    assert (G : exists w2,
               process_row_caught rt policy acct row w = (w2, inr tt) /\
               db w2 = db w1 /\
               stitchedNew (result w2) = stitchedNew (result w1)).
    { rewrite process_row_caught_eq, E.
      destruct r as [e|x]; eexists; repeat split. }
    destruct G as (w2 & C2 & D2 & N2). rewrite (bind_ok _ _ _ _ _ C2).
    assert (U2 : usage_of acct ms me (db w2) = Some u1) by (rewrite D2; exact U1).
    destruct (IH w2 u1 U2) as (w' & u' & E' & U' & Q' & M' & B' & T').
    exists w', u'. split; [exact E'|]. split; [exact U'|].
    rewrite N2, D2 in *. repeat split; lia.
Qed.

End Batch.

(** C1, as amended.  The loop of [runMatch] and its [return], on any rows
    read, within one calendar month and on a database that rejects nothing,
    over an account whose plan limit L is the limit that the usage check
    enforces and whose usage counter for the month starts at U, not above
    L: the result is returned, the counter ends at min(L, U + the count of
    new leads), and that count is the number of leads added to the table;
    and an event processed when the counter has reached L throws the
    usage-limit error and leaves the database and the tallies as they
    were. *)
Theorem C1_usage_counter_invariant
  (rt : Runtime) (acct : Z) (policy : PolicyConfig) (rows : list NormRow)
  (w : World) (ms me U L : Z) :
  no_faults rt ->
  (forall k, startOfMonth rt (clock rt k) = ms /\
             endOfMonth rt (clock rt k) = me) ->
  usage_of acct ms me (db w) = Some U ->
  L = usage_limit ->
  U <= L ->
  (exists w' res,
     match_rows rt policy acct rows (set_result empty_result w)
       = (w', inr res) /\
     usage_of acct ms me (db w') = Some (Z.min L (U + stitchedNew res)) /\
     Z.of_nat (List.length (stitchedLeads (db w'))) =
       Z.of_nat (List.length (stitchedLeads (db w))) + stitchedNew res) /\
  (forall row w1 u,
     usage_of acct ms me (db w1) = Some u -> L <= u ->
     exists w2 msg,
       process_row rt policy acct row w1 = (w2, inl (UsageLimitError msg)) /\
       db w2 = db w1 /\ result w2 = result w1).
Proof.
  intros quiet one_month HU HL Hlimit. subst L. split.
  - destruct (match_rows_returns rt policy acct rows
                (set_result empty_result w)) as (w' & E & R).
    destruct (process_rows_usage rt policy acct ms me quiet one_month
                rows (set_result empty_result w) U HU)
      as (w'' & u' & E' & U' & Q & M & B & T).
    rewrite E in E'. inversion E'; subst w''. simpl in Q, M, B, T.
    exists w', (result w'). split; [exact R|]. split; [|lia].
    rewrite U'. f_equal. lia.
  - intros row w1 u Hu Hle.
    pose proof (checkUsageLimit_at_limit_quiet rt acct ms me quiet one_month
                  w1 u Hu Hle) as T.
    apply (process_row_check_throws rt policy acct row) in T.
    eexists. eexists. split; [exact T|]. split; reflexivity.
Qed.

(** One slot is left: the first event takes it and the second is refused
    (on the deployed runtime). *)
Lemma C1_witness_one_slot_left :
  let rows := [Fixture.chat_a; Fixture.chat_b] in
  let w := Fixture.world (Fixture.database [] [] rows [Fixture.counter 249]) in
  let ms := 90 * msPerDay in
  let me := 119 * msPerDay in
  (exists w' res,
     match_rows Fixture.deployed Fixture.policy 1 rows
       (set_result empty_result w) = (w', inr res) /\
     usage_of 1 ms me (db w') = Some (Z.min 250 (249 + stitchedNew res)) /\
     Z.of_nat (List.length (stitchedLeads (db w'))) =
       Z.of_nat (List.length (stitchedLeads (db w))) + stitchedNew res) /\
  (forall row w1 u,
     usage_of 1 ms me (db w1) = Some u -> 250 <= u ->
     exists w2 msg,
       process_row Fixture.deployed Fixture.policy 1 row w1
         = (w2, inl (UsageLimitError msg)) /\
       db w2 = db w1 /\ result w2 = result w1).
Proof.
  intros rows w ms me.
  apply (C1_usage_counter_invariant Fixture.deployed 1 Fixture.policy rows w
           ms me 249 250).
  - intros k. reflexivity.
  - intros k. split; vm_compute; reflexivity.
  - vm_compute. reflexivity.
  - reflexivity.
  - lia.
Defined.

(** The batch of the witness. *)
Example match_rows_one_slot_left :
  let rows := [Fixture.chat_a; Fixture.chat_b] in
  let w := Fixture.world (Fixture.database [] [] rows [Fixture.counter 249]) in
  let (w', r) := match_rows Fixture.deployed Fixture.policy 1 rows w in
  r = inr {| stitchedNew := 1; linksCreated := 1;
             errors := ["Failed to process row 15: Monthly limit of 250 stitched leads exceeded"] |} /\
  map stitchedCount (usageCounters (db w')) = [250] /\
  map sl_id (stitchedLeads (db w')) = [1].
Proof. vm_compute. repeat split; reflexivity. Qed.

(** C1 as the specification words it fails on a batch in which the database
    rejects the update of the usage counter: the lead of the event has been
    inserted and counted, the counter stays at U, below min(L, U + the count
    of new leads), and the event is reported as failed although it created
    a lead. *)
Lemma C1_counterexample_rejected_update :
  let rt := Fixture.deployed_rejecting 4 in
  let rows := [Fixture.chat_a] in
  let w := Fixture.world (Fixture.database [] [] rows [Fixture.counter 0]) in
  let ms := 90 * msPerDay in
  let me := 119 * msPerDay in
  usage_of 1 ms me (db w) = Some 0 /\
  exists w' res,
    match_rows rt Fixture.policy 1 rows w = (w', inr res) /\
    stitchedNew res = 1 /\
    map sl_id (stitchedLeads (db w')) = [1] /\
    errors res = ["Failed to process row 14: connection terminated"] /\
    usage_of 1 ms me (db w') = Some 0 /\
    usage_of 1 ms me (db w') <> Some (Z.min 250 (0 + stitchedNew res)).
Proof.
  cbv zeta. split; [vm_compute; reflexivity|].
  eexists. eexists. split; [vm_compute; reflexivity|].
  split; [reflexivity|]. split; [reflexivity|]. split; [reflexivity|].
  split; [vm_compute; reflexivity|]. vm_compute. discriminate.
Qed.

(* ================================================================== *)
(** * Further properties of the engine *)

(** ** Events without keys *)

Lemma keyless_no_keys (row : NormRow) :
  keyless row = true -> generateMatchingKeys row = [].
Proof.
  unfold keyless, generateMatchingKeys, set_if_truthy, Js.truthy.
  destruct (phone row) as [[|? ?]|]; try discriminate;
  destruct (email row) as [[|? ?]|]; try discriminate;
  destruct (gclid row) as [[|? ?]|]; try discriminate;
  destruct (clientId row) as [[|? ?]|]; try discriminate;
  destruct (name row) as [[|? ?]|]; try reflexivity;
  destruct (location row) as [[|? ?]|]; try reflexivity; discriminate.
Qed.

(** X1.  An event without a key yields no candidate, and the generator asks the
    database nothing: the world is left as it is, whatever the runtime. *)
Theorem keyless_event_has_no_candidates
  (rt : Runtime) (row : NormRow) (policy : PolicyConfig) (acct : Z) (w : World) :
  keyless row = true ->
  findMatchingStitches rt row policy acct w = (w, inr []).
Proof.
  intros K. unfold findMatchingStitches. cbv zeta.
  rewrite (keyless_no_keys row K).
  unfold phone_pass, email_pass, click_pass, fuzzy_pass. reflexivity.
Qed.

Lemma keyless_event_witness_chat :
  findMatchingStitches (Fixture.rt_rejecting 0) Fixture.chat_a Fixture.policy 1
    (Fixture.world (Fixture.database [Fixture.lead_named] [] [] []))
  = (Fixture.world (Fixture.database [Fixture.lead_named] [] [] []), inr []).
Proof.
  apply (keyless_event_has_no_candidates (Fixture.rt_rejecting 0) Fixture.chat_a).
  reflexivity.
Defined.

(** ** The winner of the resolver *)

Lemma Qlt_bool_iff (x y : Q) : Qlt_bool x y = true <-> (x < y)%Q.
Proof.
  unfold Qlt_bool. rewrite negb_true_iff. split.
  - intros H. apply Qnot_le_lt. intros C. apply Qle_bool_iff in C. congruence.
  - intros H. destruct (Qle_bool y x) eqn:E; [|reflexivity].
    apply Qle_bool_iff in E. exfalso. apply (Qlt_not_le _ _ H E).
Qed.

Lemma Qlt_bool_false_iff (x y : Q) : Qlt_bool x y = false <-> (y <= x)%Q.
Proof.
  unfold Qlt_bool. rewrite negb_false_iff. apply Qle_bool_iff.
Qed.

Lemma goes_after_by_weight (a b : MatchCandidate) :
  goes_after by_weight_desc a b = Qlt_bool (weight a) (weight b).
Proof.
  unfold goes_after, by_weight_desc.
  destruct (Qlt_bool (weight a) (weight b)) eqn:E.
  - apply Qlt_bool_iff in E. apply Qlt_bool_iff. lra.
  - apply Qlt_bool_false_iff in E. apply Qlt_bool_false_iff. lra.
Qed.

(** The sort puts first the first of the candidates that none outweighs. *)
Lemma js_sort_head (pre post : list MatchCandidate) (c : MatchCandidate) :
  (forall x, In x pre -> (weight x < weight c)%Q) ->
  (forall x, In x post -> (weight x <= weight c)%Q) ->
  exists rest, js_sort by_weight_desc (pre ++ c :: post) = c :: rest.
Proof.
  intros Hpre Hpost.
  assert (P : exists rest, js_sort by_weight_desc (c :: post) = c :: rest).
  { clear Hpre. simpl.
    assert (O : forall x, In x (js_sort by_weight_desc post) ->
                          (weight x <= weight c)%Q).
    { intros x Hx. apply Hpost.
      apply (Permutation_in _ (js_sort_perm by_weight_desc post) Hx). }
    destruct (js_sort by_weight_desc post) as [|y s]; simpl; [eauto|].
    rewrite goes_after_by_weight.
    assert (F : Qlt_bool (weight c) (weight y) = false).
    { apply Qlt_bool_false_iff, O. left. reflexivity. }
    rewrite F. eauto. }
  induction pre as [|x pre IH]; [exact P|].
  simpl. destruct IH as (rest & ->).
  { intros y Hy. apply Hpre. right. exact Hy. }
  simpl. rewrite goes_after_by_weight.
  assert (T : Qlt_bool (weight x) (weight c) = true).
  { apply Qlt_bool_iff, Hpre. left. reflexivity. }
  rewrite T. eauto.
Qed.

Lemma pick_sorted_head policy row (c0 c1 : MatchCandidate) rest :
  fst (pick_sorted policy row (c0 :: c1 :: rest)) = Some c0.
Proof.
  unfold pick_sorted. destruct (Qlt_bool _ _); [reflexivity|].
  destruct (apply_tie_breakers _ _ _) eqn:T; [|reflexivity].
  apply apply_tie_breakers_first in T. subst. reflexivity.
Qed.

Lemma pick_first_of_greatest
  (pre post : list MatchCandidate) (c : MatchCandidate)
  (policy : PolicyConfig) (row : NormRow) :
  (forall x, In x pre -> (weight x < weight c)%Q) ->
  (forall x, In x post -> (weight x <= weight c)%Q) ->
  fst (pickBestCandidate (pre ++ c :: post) policy row) = Some c.
Proof.
  intros Hpre Hpost.
  destruct (js_sort_head pre post c Hpre Hpost) as (rest & S).
  pose proof (js_sort_length by_weight_desc (pre ++ c :: post)) as L.
  destruct (pre ++ c :: post) as [|a [|b l]] eqn:E.
  - destruct pre; discriminate E.
  - destruct pre as [|x pre]; simpl in E.
    + inversion E; subst. reflexivity.
    + inversion E as [[Ea Eb]]. destruct pre; discriminate Eb.
  - change (pickBestCandidate (a :: b :: l) policy row)
      with (pick_sorted policy row (js_sort by_weight_desc (a :: b :: l))).
    rewrite S in *. destruct rest as [|c1 rest]; [discriminate L|].
    apply pick_sorted_head.
Qed.

(** X2.  The winner is the first candidate, in the order of the array, among
    those of the greatest weight: a candidate that outweighs all the
    candidates before it and that no candidate after it outweighs.  Neither
    the policy's tie breakers nor the event have a part in it. *)
Theorem winner_is_first_of_greatest_weight
  (pre post : list MatchCandidate) (c : MatchCandidate)
  (policy : PolicyConfig) (row : NormRow) :
  (forall x, In x pre -> (weight x < weight c)%Q) ->
  (forall x, In x post -> (weight x <= weight c)%Q) ->
  fst (pickBestCandidate (pre ++ c :: post) policy row) = Some c.
Proof. apply pick_first_of_greatest. Qed.

Lemma winner_witness_tie :
  fst (pickBestCandidate
         ([MoreData.by_email] ++ MoreData.by_phone :: [MoreData.by_phone_again])
         Fixture.policy Fixture.call_day100)
  = Some MoreData.by_phone.
Proof.
  apply (winner_is_first_of_greatest_weight [MoreData.by_email]
           [MoreData.by_phone_again] MoreData.by_phone).
  - intros x [<-|[]]. reflexivity.
  - intros x [<-|[]]. discriminate.
Defined.

(** There is no winner exactly when there is no candidate. *)
Lemma no_winner_iff_no_candidate candidates policy row :
  fst (pickBestCandidate candidates policy row) = None <-> candidates = [].
Proof.
  split; [|intros ->; reflexivity].
  destruct candidates as [|c [|c' rest]]; [reflexivity|discriminate|].
  change (pickBestCandidate (c :: c' :: rest) policy row)
    with (pick_sorted policy row (js_sort by_weight_desc (c :: c' :: rest))).
  pose proof (js_sort_length by_weight_desc (c :: c' :: rest)) as L.
  destruct (js_sort by_weight_desc (c :: c' :: rest)) as [|c0 [|c1 r]];
    try discriminate L.
  rewrite pick_sorted_head. discriminate.
Qed.

(** ** The passes of the generator *)

Ltac keys_of_row row :=
  unfold generateMatchingKeys; cbv zeta;
  destruct (name row) as [[|? ?]|]; destruct (location row) as [[|? ?]|];
  rewrite ?map_get_map_set, ?map_get_set_if_truthy; simpl.

Lemma generateMatchingKeys_email (row : NormRow) :
  map_get (generateMatchingKeys row) "email" =
  if Js.truthy (email row) then email row else None.
Proof. keys_of_row row; destruct (Js.truthy (email row)); reflexivity. Qed.

Lemma generateMatchingKeys_gclid (row : NormRow) :
  map_get (generateMatchingKeys row) "gclid" =
  if Js.truthy (gclid row) then gclid row else None.
Proof. keys_of_row row; destruct (Js.truthy (gclid row)); reflexivity. Qed.

Lemma in_p2_candidates row policy e ms (c : MatchCandidate) :
  In c (p2_candidates row policy e ms) <->
  exists m, In m ms /\
    isWithinWindow (occurredAt row) (leadCreatedAt m)
      (w_email_exact (windows policy)) = true /\
    c = {| stitchId := sl_id m;
           weight := wt_email_exact (weights policy);
           pass := "P2";
           matchedOn := ["email"];
           reason := ("Email exact match: " ++ e)%string;
           confidence := one_deterministic (confidence_rules policy) |}.
Proof.
  unfold p2_candidates. rewrite in_flat_map. split.
  - intros (m & Hm & Hc). exists m. split; [exact Hm|].
    destruct (isWithinWindow _ _ _); simpl in Hc; [|contradiction].
    destruct Hc as [<-|[]]. auto.
  - intros (m & Hm & Hw & ->). exists m. split; [exact Hm|].
    rewrite Hw. left. reflexivity.
Qed.

Lemma in_p3_candidates row policy byGclid clickKey ms (c : MatchCandidate) :
  In c (p3_candidates row policy byGclid clickKey ms) <->
  exists m, In m ms /\
    isWithinWindow (occurredAt row) (cm_occurredAt m)
      (w_click_chain (windows policy)) = true /\
    c = {| stitchId := cm_stitchId m;
           weight := wt_click_chain (weights policy);
           pass := "P3";
           matchedOn := [if byGclid then "gclid" else "client_id"];
           reason := ("Click chain match: " ++ clickKey)%string;
           confidence := click_only (confidence_rules policy) |}.
Proof.
  unfold p3_candidates. rewrite in_flat_map. split.
  - intros (m & Hm & Hc). exists m. split; [exact Hm|].
    destruct (isWithinWindow _ _ _); simpl in Hc; [|contradiction].
    destruct Hc as [<-|[]]. auto.
  - intros (m & Hm & Hw & ->). exists m. split; [exact Hm|].
    rewrite Hw. left. reflexivity.
Qed.

(** A candidate carries the weight the policy gives to its pass. *)
Lemma candidate_weight rt row policy acct d cands (c : MatchCandidate) :
  candidates_of rt row policy acct d = inr cands ->
  In c cands ->
  weight c = weight_of_pass policy (pass c).
Proof.
  intros C. apply candidates_of_inr in C. destruct C as (fuzzy & P4 & ->).
  rewrite !in_app_iff. intros [H|[H|[H|H]]].
  - unfold p1_of in H. destruct (map_get _ _); [|destruct H].
    apply in_p1_candidates in H. destruct H as (m & _ & _ & ->). reflexivity.
  - unfold p2_of in H. destruct (map_get _ _); [|destruct H].
    apply in_p2_candidates in H. destruct H as (m & _ & _ & ->). reflexivity.
  - unfold p3_of in H. cbv zeta in H.
    destruct (clickKey_of _) as [[|? ?]|]; try destruct H.
    apply in_p3_candidates in H. destruct H as (m & _ & _ & ->). reflexivity.
  - unfold p4_of in P4.
    destruct (map_has _ _); try (inversion P4; subst; destruct H).
    destruct (name row) as [[|? ?]|]; try (inversion P4; subst; destruct H).
    destruct (location row) as [[|? ?]|]; try (inversion P4; subst; destruct H).
    destruct (in_p4_candidates _ _ _ _ _ _ _ _ P4 H) as (m & pushed & _ & S & Hp).
    unfold p4_step in S.
    destruct (sl_name m) as [[|? ?]|]; try (inversion S; subst; destruct Hp).
    destruct (sl_location m) as [[|? ?]|]; try (inversion S; subst; destruct Hp).
    cbv zeta in S.
    destruct (negb (isWithinWindow _ _ _)); [inversion S; subst; destruct Hp|].
    destruct (calculateSimilarity _ _ _) as [e|sim]; [discriminate S|].
    inversion S; subst. unfold p4_after_similarity in Hp.
    destruct (Qlt_bool _ _); [destruct Hp|]. cbv zeta in Hp.
    destruct (negb (_ || _)); [destruct Hp|].
    match type of Hp with In _ (if ?b then _ else _) => destruct b end;
      [|destruct Hp].
    destruct Hp as [<-|[]]. reflexivity.
Qed.

Lemma weight_of_pass_le (policy : PolicyConfig) (p : string) :
  phone_weight_leads policy ->
  (weight_of_pass policy p <= wt_phone_exact (weights policy))%Q.
Proof.
  intros (A & B & C). unfold weight_of_pass.
  destruct (String.eqb p "P1"); [apply Qle_refl|].
  destruct (String.eqb p "P2"); [exact A|].
  destruct (String.eqb p "P3"); [exact B|exact C].
Qed.

(** When the phone pass has emitted a candidate and the phone weight is not
    outweighed, the first candidate of the phone pass wins. *)
Lemma first_phone_candidate_wins
  (rt : Runtime) (row : NormRow) (policy : PolicyConfig) (acct : Z) (d : Db)
  (cands : list MatchCandidate)
  (c0 : MatchCandidate) (rest : list MatchCandidate) :
  candidates_of rt row policy acct d = inr cands ->
  p1_of row policy acct d = c0 :: rest ->
  phone_weight_leads policy ->
  fst (pickBestCandidate cands policy row) = Some c0 /\
  hd_error cands = Some c0.
Proof.
  intros C P1 Lead.
  pose proof C as C'. apply candidates_of_inr in C'.
  destruct C' as (fuzzy & P4 & S). rewrite P1 in S.
  change ((c0 :: rest) ++ p2_of row policy acct d ++
          p3_of row policy acct d ++ fuzzy)
    with ([] ++ c0 :: (rest ++ p2_of row policy acct d ++
                       p3_of row policy acct d ++ fuzzy)) in S.
  assert (H0 : In c0 cands) by (rewrite S; left; reflexivity).
  assert (T0 : pass c0 = "P1").
  { apply (p1_of_pass row policy acct d). rewrite P1. left. reflexivity. }
  split; [|rewrite S; reflexivity].
  rewrite S. apply pick_first_of_greatest.
  - intros x [].
  - intros x Hx.
    assert (Hx' : In x cands) by (rewrite S; simpl; right; exact Hx).
    rewrite (candidate_weight _ _ _ _ _ _ _ C Hx').
    rewrite (candidate_weight _ _ _ _ _ _ _ C H0), T0. simpl.
    apply weight_of_pass_le, Lead.
Qed.

(** X3.  When the phone weight is not outweighed and the generator returns a P1
    candidate, the winner is the first candidate returned, and it is a P1
    candidate: the first lead of the table whose phone and window match. *)
Theorem phone_match_wins_when_phone_weight_leads
  (rt : Runtime) (row : NormRow) (policy : PolicyConfig) (acct : Z)
  (w w' : World) (cands : list MatchCandidate) (c : MatchCandidate) :
  findMatchingStitches rt row policy acct w = (w', inr cands) ->
  In c cands -> pass c = "P1" ->
  phone_weight_leads policy ->
  exists winner,
    fst (pickBestCandidate cands policy row) = Some winner /\
    hd_error cands = Some winner /\ pass winner = "P1".
Proof.
  intros E Hc Hp Lead.
  apply findMatchingStitches_returns in E. destruct E as [C _].
  assert (N : p1_of row policy acct (db w) <> []).
  { intros Z0. destruct (candidates_of_inr _ _ _ _ _ _ C) as (fuzzy & P4 & S).
    rewrite S, Z0 in Hc. simpl in Hc.
    rewrite !in_app_iff in Hc. destruct Hc as [H|[H|H]].
    - apply p2_of_pass in H. congruence.
    - apply p3_of_pass in H. congruence.
    - apply (p4_of_inv _ _ _ _ _ _ _ P4) in H. destruct H as [H _].
      congruence. }
  destruct (p1_of row policy acct (db w)) as [|c0 rest] eqn:P1;
    [contradiction N; reflexivity|].
  destruct (first_phone_candidate_wins rt row policy acct (db w) cands c0 rest
              C P1 Lead) as [W H].
  exists c0. split; [exact W|]. split; [exact H|].
  apply (p1_of_pass row policy acct (db w)). rewrite P1. left. reflexivity.
Qed.

Lemma phone_match_wins_witness :
  let w := Fixture.world MoreData2.db_full in
  exists cands,
    candidates_of Fixture.rt MoreData2.form_full Fixture.policy 1 (db w)
      = inr cands /\
    exists winner,
      fst (pickBestCandidate cands Fixture.policy MoreData2.form_full)
        = Some winner /\
      hd_error cands = Some winner /\
      pass winner = "P1".
Proof.
  intros w. eexists. split; [vm_compute; reflexivity|].
  apply (phone_match_wins_when_phone_weight_leads Fixture.rt MoreData2.form_full
           Fixture.policy 1 w (tick (tick (tick w))) _
           {| stitchId := 1; weight := 1; pass := "P1"; matchedOn := ["phone"];
              reason := "Phone exact match: 5125550101";
              confidence := 9 # 10 |}).
  - vm_compute. reflexivity.
  - left. reflexivity.
  - reflexivity.
  - repeat split; discriminate.
Defined.

(** The P2 candidates of the array the generator returns. *)
Lemma email_candidate_iff rt row policy acct d e lead cands :
  email row = Some e -> e <> "" ->
  In lead (stitchedLeads d) ->
  sl_accountId lead = acct ->
  sl_email lead = Some e ->
  NoDup (map sl_id (stitchedLeads d)) ->
  candidates_of rt row policy acct d = inr cands ->
  ((exists c, In c cands /\ pass c = "P2" /\ stitchId c = sl_id lead) <->
   isWithinWindow (occurredAt row) (leadCreatedAt lead)
     (w_email_exact (windows policy)) = true).
Proof.
  intros He Hne Hin Hacct Hemail Hids C.
  apply candidates_of_inr in C. destruct C as (fuzzy & P4 & ->).
  assert (K : map_get (generateMatchingKeys row) "email" = Some e).
  { rewrite generateMatchingKeys_email, He.
    destruct e; [contradiction Hne; reflexivity|reflexivity]. }
  split.
  - intros (c & Hc & Hpass & Hid).
    rewrite !in_app_iff in Hc.
    destruct Hc as [Hc|[Hc|[Hc|Hc]]].
    + apply p1_of_pass in Hc. congruence.
    + unfold p2_of in Hc. rewrite K in Hc.
      apply in_p2_candidates in Hc. destruct Hc as (m & Hm & Hw & ->).
      simpl in Hid. unfold select_email_matches in Hm.
      apply filter_In in Hm. destruct Hm as [Hm _].
      rewrite <- (NoDup_map_inj sl_id _ m lead Hids Hm Hin Hid). exact Hw.
    + apply p3_of_pass in Hc. congruence.
    + apply (p4_of_inv _ _ _ _ _ _ _ P4) in Hc. destruct Hc as [Hc _].
      congruence.
  - intros Hw.
    exists {| stitchId := sl_id lead;
              weight := wt_email_exact (weights policy);
              pass := "P2";
              matchedOn := ["email"];
              reason := ("Email exact match: " ++ e)%string;
              confidence := one_deterministic (confidence_rules policy) |}.
    split; [|split; reflexivity].
    apply in_or_app. right. apply in_or_app. left.
    unfold p2_of. rewrite K. apply in_p2_candidates.
    exists lead. split; [|split; [exact Hw|reflexivity]].
    unfold select_email_matches. apply filter_In. split; [exact Hin|].
    rewrite Hacct, Z.eqb_refl, Hemail. simpl. apply String.eqb_refl.
Qed.

(** X4.  For an event with a non-empty email and a lead of the account with the
    identical email value: whenever the generator returns, the array it
    returns holds a P2 candidate for that lead if and only if the event's
    time and the lead's creation time are at most [windows.email_exact] days
    apart; and the generator does return when the database rejects no query
    and the fuzzy pass cannot throw (the event lacks a name or a location,
    or [jaroWinkler] is bound to a function). *)
Theorem email_exact_iff_within_window
  (rt : Runtime) (row : NormRow) (policy : PolicyConfig) (acct : Z)
  (w : World) (e : string) (lead : StitchedLead) :
  email row = Some e -> e <> "" ->
  In lead (stitchedLeads (db w)) ->
  sl_accountId lead = acct ->
  sl_email lead = Some e ->
  NoDup (map sl_id (stitchedLeads (db w))) ->
  (forall w' cands,
     findMatchingStitches rt row policy acct w = (w', inr cands) ->
     ((exists c, In c cands /\ pass c = "P2" /\ stitchId c = sl_id lead) <->
      within_days (occurredAt row) (leadCreatedAt lead)
        (w_email_exact (windows policy)))) /\
  (no_faults rt -> fuzzy_pass_safe rt row ->
   exists w' cands,
     findMatchingStitches rt row policy acct w = (w', inr cands)).
Proof.
  intros He Hne Hin Hacct Hemail Hids. split.
  - intros w' cands E.
    apply findMatchingStitches_returns in E. destruct E as [C _].
    unfold within_days. rewrite <- isWithinWindow_spec.
    apply (email_candidate_iff rt row policy acct (db w) e lead cands); auto.
  - intros quiet Safe.
    destruct (findMatchingStitches_safe rt quiet row policy acct w Safe)
      as (w' & cands & E & _).
    eauto.
Qed.

(** On the deployed runtime: a form without a name, two days after the
    creation of the lead with its email. *)
Lemma email_exact_witness :
  let w := Fixture.world MoreData2.db_full in
  exists cands w',
    findMatchingStitches Fixture.deployed MoreData2.form_full Fixture.policy 1 w
      = (w', inr cands) /\
    ((exists c, In c cands /\ pass c = "P2" /\
                stitchId c = sl_id MoreData2.lead_with_email) <->
     within_days (occurredAt MoreData2.form_full)
       (leadCreatedAt MoreData2.lead_with_email)
       (w_email_exact (windows Fixture.policy))).
Proof.
  intros w.
  destruct (email_exact_iff_within_window Fixture.deployed MoreData2.form_full
              Fixture.policy 1 w "ana@example.com" MoreData2.lead_with_email)
    as [Iff Returns].
  - reflexivity.
  - discriminate.
  - left. reflexivity.
  - reflexivity.
  - reflexivity.
  - simpl. constructor; [intros []|constructor].
  - destruct Returns as (w' & cands & E).
    + intros k. reflexivity.
    + left. reflexivity.
    + exists cands, w'. split; [exact E|exact (Iff w' cands E)].
Defined.

Lemma in_select_click_matches acct byGclid clickKey d (m : ClickMatch) :
  In m (select_click_matches acct byGclid clickKey d) <->
  exists r l,
    In r (normalizedRows d) /\ In l (stitchLinks d) /\
    accountId r = acct /\
    (if byGclid then gclid r else clientId r) = Some clickKey /\
    normalizedRowId l = id r /\
    m = {| cm_stitchId := lk_stitchId l; cm_occurredAt := occurredAt r |}.
Proof.
  unfold select_click_matches. rewrite in_flat_map. split.
  - intros (r & Hr & Hm).
    destruct ((accountId r =? acct) && col_eq _ clickKey)%bool eqn:C;
      [|destruct Hm].
    apply andb_true_iff in C. destruct C as [A K]. apply Z.eqb_eq in A.
    apply in_map_iff in Hm. destruct Hm as (l & <- & Hl).
    apply filter_In in Hl. destruct Hl as [Hl I]. apply Z.eqb_eq in I.
    exists r, l. repeat split; auto.
    unfold col_eq in K. destruct (if byGclid then gclid r else clientId r);
      [|discriminate]. apply String.eqb_eq in K. subst. reflexivity.
  - intros (r & l & Hr & Hl & A & K & I & ->).
    exists r. split; [exact Hr|].
    rewrite A, Z.eqb_refl, K. simpl. rewrite String.eqb_refl.
    apply in_map_iff. exists l. split; [reflexivity|].
    apply filter_In. split; [exact Hl|]. apply Z.eqb_eq, I.
Qed.

(** The P3 candidates of the array the generator returns, for an event with
    a click identifier. *)
Lemma click_candidates_spec rt row policy acct d g cands :
  gclid row = Some g -> g <> "" ->
  candidates_of rt row policy acct d = inr cands ->
  (forall sid,
     (exists c, In c cands /\ pass c = "P3" /\ stitchId c = sid) <->
     (exists r l,
        In r (normalizedRows d) /\ In l (stitchLinks d) /\
        accountId r = acct /\ gclid r = Some g /\
        normalizedRowId l = id r /\ lk_stitchId l = sid /\
        within_days (occurredAt row) (occurredAt r)
          (w_click_chain (windows policy)))) /\
  (forall c, In c cands -> pass c = "P3" -> matchedOn c = ["gclid"]).
Proof.
  intros Hg Hne C.
  apply candidates_of_inr in C. destruct C as (fuzzy & P4 & ->).
  assert (K : map_get (generateMatchingKeys row) "gclid" = Some g).
  { rewrite generateMatchingKeys_gclid, Hg.
    destruct g; [contradiction Hne; reflexivity|reflexivity]. }
  assert (P3 : p3_of row policy acct d =
               p3_candidates row policy true g
                 (select_click_matches acct true g d)).
  { unfold p3_of, clickKey_of, map_has. cbv zeta. rewrite K.
    destruct g; [contradiction Hne; reflexivity|reflexivity]. }
  assert (Only : forall c,
             In c (p1_of row policy acct d ++ p2_of row policy acct d ++
                   p3_of row policy acct d ++ fuzzy) ->
             pass c = "P3" -> In c (p3_of row policy acct d)).
  { intros c Hc Hp. rewrite !in_app_iff in Hc.
    destruct Hc as [Hc|[Hc|[Hc|Hc]]]; [| |exact Hc|].
    - apply p1_of_pass in Hc. congruence.
    - apply p2_of_pass in Hc. congruence.
    - apply (p4_of_inv _ _ _ _ _ _ _ P4) in Hc. destruct Hc as [Hc _].
      congruence. }
  split.
  - intros sid. unfold within_days. split.
    + intros (c & Hc & Hp & Hid). apply Only in Hc; [|exact Hp].
      rewrite P3 in Hc. apply in_p3_candidates in Hc.
      destruct Hc as (m & Hm & Hw & ->). simpl in Hid.
      apply in_select_click_matches in Hm.
      destruct Hm as (r & l & Hr & Hl & A & G & I & ->). simpl in *.
      exists r, l. repeat split; auto.
      apply isWithinWindow_spec, Hw.
    + intros (r & l & Hr & Hl & A & G & I & S & Hw).
      exists {| stitchId := lk_stitchId l;
                weight := wt_click_chain (weights policy);
                pass := "P3";
                matchedOn := ["gclid"];
                reason := ("Click chain match: " ++ g)%string;
                confidence := click_only (confidence_rules policy) |}.
      split; [|split; [reflexivity|]].
      * apply in_or_app. right. apply in_or_app. right.
        apply in_or_app. left. rewrite P3. apply in_p3_candidates.
        exists {| cm_stitchId := lk_stitchId l; cm_occurredAt := occurredAt r |}.
        split; [|split; [|reflexivity]].
        -- apply in_select_click_matches. exists r, l. repeat split; auto.
        -- apply isWithinWindow_spec, Hw.
      * simpl. exact S.
  - intros c Hc Hp. apply Only in Hc; [|exact Hp].
    rewrite P3 in Hc. apply in_p3_candidates in Hc.
    destruct Hc as (m & _ & _ & ->). reflexivity.
Qed.

(** X5.  For an event with a non-empty ad-click identifier: whenever the
    generator returns, the array it returns holds a P3 candidate for a lead
    exactly when some event of the account with the same ad-click identifier
    is linked to that lead and lies within [windows.click_chain] days of the
    event, and every P3 candidate is matched on "gclid": the event's client
    identifier is not looked at; and the generator does return when the
    database rejects no query and the fuzzy pass cannot throw (the event
    lacks a name or a location, or [jaroWinkler] is bound to a function). *)
Theorem click_chain_follows_gclid
  (rt : Runtime) (row : NormRow) (policy : PolicyConfig) (acct : Z)
  (w : World) (g : string) :
  gclid row = Some g -> g <> "" ->
  (forall w' cands,
     findMatchingStitches rt row policy acct w = (w', inr cands) ->
     (forall sid,
        (exists c, In c cands /\ pass c = "P3" /\ stitchId c = sid) <->
        (exists r l,
           In r (normalizedRows (db w)) /\ In l (stitchLinks (db w)) /\
           accountId r = acct /\ gclid r = Some g /\
           normalizedRowId l = id r /\ lk_stitchId l = sid /\
           within_days (occurredAt row) (occurredAt r)
             (w_click_chain (windows policy)))) /\
     (forall c, In c cands -> pass c = "P3" -> matchedOn c = ["gclid"])) /\
  (no_faults rt -> fuzzy_pass_safe rt row ->
   exists w' cands,
     findMatchingStitches rt row policy acct w = (w', inr cands)).
Proof.
  intros Hg Hne. split.
  - intros w' cands E.
    apply findMatchingStitches_returns in E. destruct E as [C _].
    apply (click_candidates_spec rt row policy acct (db w) g cands Hg Hne C).
  - intros quiet Safe.
    destruct (findMatchingStitches_safe rt quiet row policy acct w Safe)
      as (w' & cands & E & _).
    eauto.
Qed.

(** On the deployed runtime: a form with the click identifier of an earlier
    event that is linked to lead 1. *)
Lemma click_chain_witness :
  let w := Fixture.world MoreData2.db_full in
  exists cands w',
    findMatchingStitches Fixture.deployed MoreData2.form_full Fixture.policy 1 w
      = (w', inr cands) /\
    (forall sid,
       (exists c, In c cands /\ pass c = "P3" /\ stitchId c = sid) <->
       (exists r l,
          In r (normalizedRows (db w)) /\ In l (stitchLinks (db w)) /\
          accountId r = 1 /\ gclid r = Some "gclid-1" /\
          normalizedRowId l = id r /\ lk_stitchId l = sid /\
          within_days (occurredAt MoreData2.form_full) (occurredAt r)
            (w_click_chain (windows Fixture.policy)))) /\
    (forall c, In c cands -> pass c = "P3" -> matchedOn c = ["gclid"]).
Proof.
  intros w.
  destruct (click_chain_follows_gclid Fixture.deployed MoreData2.form_full
              Fixture.policy 1 w "gclid-1") as [Spec Returns].
  - reflexivity.
  - discriminate.
  - destruct Returns as (w' & cands & E).
    + intros k. reflexivity.
    + left. reflexivity.
    + exists cands, w'. split; [exact E|exact (Spec w' cands E)].
Defined.

(** ** The fuzzy pass and the distance of phones *)

Lemma count_mismatches_nonneg (a b : string) : 0 <= count_mismatches a b.
Proof.
  revert b. induction a as [|c a IH]; intros [|d b]; simpl; try lia.
  specialize (IH b). destruct (Ascii.eqb c d); lia.
Qed.

Lemma count_mismatches_sym (a b : string) :
  count_mismatches a b = count_mismatches b a.
Proof.
  revert b. induction a as [|c a IH]; intros [|d b]; simpl; try reflexivity.
  rewrite (IH b), (Ascii.eqb_sym c d). reflexivity.
Qed.

Lemma count_mismatches_bound (a b : string) :
  count_mismatches a b <= Z.of_nat (String.length a).
Proof.
  revert b. induction a as [|c a IH]; intros [|d b]; simpl String.length;
    simpl count_mismatches; try lia.
  specialize (IH b). destruct (Ascii.eqb c d); lia.
Qed.

Lemma count_mismatches_zero (a b : string) :
  String.length a = String.length b ->
  (count_mismatches a b = 0 <-> a = b).
Proof.
  revert b. induction a as [|c a IH]; intros [|d b]; simpl; intros L;
    try discriminate L.
  - split; reflexivity.
  - injection L as L. specialize (IH b L).
    pose proof (count_mismatches_nonneg a b) as N.
    destruct (Ascii.eqb c d) eqn:E.
    + apply Ascii.eqb_eq in E. subst d. split.
      * intros H. f_equal. apply IH. lia.
      * intros H. inversion H; subst. apply proj2 in IH.
        rewrite (IH eq_refl). reflexivity.
    + apply Ascii.eqb_neq in E. split; [lia|].
      intros H. inversion H. contradiction.
Qed.

(** X6.  [calculateHammingDistance] is symmetric, zero exactly on equal strings,
    and at most the greater of the two lengths; on strings of different
    lengths it is that greater length. *)
Theorem hamming_distance_facts (a b : string) :
  calculateHammingDistance a b = calculateHammingDistance b a /\
  (calculateHammingDistance a b = 0 <-> a = b) /\
  0 <= calculateHammingDistance a b <=
    Z.max (Z.of_nat (String.length a)) (Z.of_nat (String.length b)) /\
  (String.length a <> String.length b ->
   calculateHammingDistance a b =
     Z.max (Z.of_nat (String.length a)) (Z.of_nat (String.length b))).
Proof.
  unfold calculateHammingDistance. cbv zeta.
  destruct (Z.of_nat (String.length a) =? Z.of_nat (String.length b)) eqn:L;
    simpl.
  - apply Z.eqb_eq in L. assert (L' : String.length a = String.length b) by lia.
    rewrite Z.eqb_sym, (proj2 (Z.eqb_eq _ _) L). simpl.
    split; [apply count_mismatches_sym|].
    split; [apply count_mismatches_zero, L'|].
    split; [|intros N; contradiction].
    pose proof (count_mismatches_nonneg a b).
    pose proof (count_mismatches_bound a b). lia.
  - apply Z.eqb_neq in L. rewrite Z.eqb_sym.
    assert (L' : (Z.of_nat (String.length a) =? Z.of_nat (String.length b)) = false)
      by (apply Z.eqb_neq; exact L).
    rewrite L'. simpl.
    split; [apply Z.max_comm|]. split; [|split; [lia|reflexivity]].
    split.
    + intros H. exfalso. lia.
    + intros ->. contradiction L. reflexivity.
Qed.

(** What a candidate of the fuzzy loop tells about its lead. *)
Lemma in_p4_step_conditions rt row policy rname rlocation m pushed c :
  p4_step rt row policy rname rlocation m = inr pushed -> In c pushed ->
  stitchId c = sl_id m /\
  exists mname mlocation,
    sl_name m = Some mname /\ sl_location m = Some mlocation /\
    isWithinWindow (occurredAt row) (leadCreatedAt m)
      (w_fuzzy_match (windows policy)) = true /\
    locations_overlap rlocation mlocation /\
    (forall p q, phone row = Some p -> sl_phone m = Some q ->
                 p <> "" -> q <> "" -> phones_close p q).
Proof.
  unfold p4_step.
  destruct (sl_name m) as [[|c1 n]|]; try (intros [= <-] []).
  destruct (sl_location m) as [[|c2 l]|]; try (intros [= <-] []).
  cbv zeta.
  destruct (isWithinWindow _ _ _) eqn:W; [|intros [= <-] []].
  simpl negb. cbv iota.
  destruct (calculateSimilarity rt rname (String c1 n)) as [e|sim];
    [discriminate|].
  intros [= <-]. unfold p4_after_similarity.
  destruct (Qlt_bool _ _); [intros []|]. cbv zeta.
  destruct (_ || _)%bool eqn:Loc; [|intros []]. simpl negb. cbv iota.
  match goal with |- In _ (if ?b then _ else _) -> _ => destruct b eqn:Ph end;
    [|intros []].
  intros [<-|[]]. split; [reflexivity|].
  exists (String c1 n), (String c2 l).
  split; [reflexivity|]. split; [reflexivity|]. split; [reflexivity|].
  split; [unfold locations_overlap; apply orb_true_iff in Loc; exact Loc|].
  intros p q Hp Hq Np Nq. rewrite Hp, Hq in Ph.
  destruct p as [|a p']; [contradiction Np; reflexivity|].
  destruct q as [|b q']; [contradiction Nq; reflexivity|].
  apply Z.leb_le in Ph. unfold calculateHammingDistance in Ph. cbv zeta in Ph.
  unfold phones_close.
  assert (La : (1 <= String.length (String a p'))%nat) by (simpl; lia).
  assert (Lb : (1 <= String.length (String b q'))%nat) by (simpl; lia).
  remember (String.length (String a p')) as na.
  remember (String.length (String b q')) as nb.
  destruct (Z.of_nat na =? Z.of_nat nb) eqn:L; simpl negb in Ph; cbv iota in Ph.
  - apply Z.eqb_eq in L. split; [lia|exact Ph].
  - apply Z.eqb_neq in L. lia.
Qed.

(** X7.  Every P4 candidate the generator returns points to a lead of the
    account, with a non-null name and location, created within
    [windows.fuzzy_match] days of the event, whose location contains the
    event's or is contained in it up to case, and whose phone, when both the
    event and the lead have one, has the length of the event's phone and
    differs from it in at most one position. *)
Theorem fuzzy_candidate_window_location_phone
  (rt : Runtime) (row : NormRow) (policy : PolicyConfig) (acct : Z)
  (w w' : World) (cands : list MatchCandidate) (c : MatchCandidate) :
  findMatchingStitches rt row policy acct w = (w', inr cands) ->
  In c cands -> pass c = "P4" ->
  exists m rlocation mname mlocation,
    In m (stitchedLeads (db w)) /\ sl_accountId m = acct /\
    stitchId c = sl_id m /\
    location row = Some rlocation /\
    sl_name m = Some mname /\ sl_location m = Some mlocation /\
    within_days (occurredAt row) (leadCreatedAt m)
      (w_fuzzy_match (windows policy)) /\
    locations_overlap rlocation mlocation /\
    (forall p q, phone row = Some p -> sl_phone m = Some q ->
                 p <> "" -> q <> "" -> phones_close p q).
Proof.
  intros E Hc Hpass.
  apply findMatchingStitches_returns in E. destruct E as [C _].
  apply candidates_of_inr in C. destruct C as (fuzzy & P4 & ->).
  rewrite !in_app_iff in Hc.
  destruct Hc as [Hc|[Hc|[Hc|Hc]]].
  - apply p1_of_pass in Hc. congruence.
  - apply p2_of_pass in Hc. congruence.
  - apply p3_of_pass in Hc. congruence.
  - unfold p4_of in P4.
    destruct (map_has _ _); try (inversion P4; subst; destruct Hc).
    destruct (name row) as [[|c1 n]|]; try (inversion P4; subst; destruct Hc).
    destruct (location row) as [[|c2 l]|];
      try (inversion P4; subst; destruct Hc).
    destruct (in_p4_candidates _ _ _ _ _ _ _ _ P4 Hc)
      as (m & pushed & Hm & S & Hp).
    destruct (in_p4_step_conditions _ _ _ _ _ _ _ _ S Hp)
      as (I & mname & mloc & N & L & W & O & P).
    unfold select_fuzzy_matches in Hm. apply filter_In in Hm.
    destruct Hm as [Hm F].
    apply andb_true_iff in F. destruct F as [F _].
    apply andb_true_iff in F. destruct F as [F _]. apply Z.eqb_eq in F.
    exists m, (String c2 l), mname, mloc.
    split; [exact Hm|]. split; [exact F|]. split; [exact I|].
    split; [reflexivity|]. split; [exact N|]. split; [exact L|].
    split; [apply isWithinWindow_spec, W|]. split; [exact O|exact P].
Qed.

Lemma fuzzy_candidate_witness :
  let w := Fixture.world (Fixture.database [Fixture.lead_named] [] [] []) in
  exists m rlocation mname mlocation,
    In m (stitchedLeads (db w)) /\ sl_accountId m = 1 /\
    sl_id Fixture.lead_named = sl_id m /\
    location Fixture.form_named = Some rlocation /\
    sl_name m = Some mname /\ sl_location m = Some mlocation /\
    within_days (occurredAt Fixture.form_named) (leadCreatedAt m)
      (w_fuzzy_match (windows Fixture.policy)) /\
    locations_overlap rlocation mlocation /\
    (forall p q, phone Fixture.form_named = Some p -> sl_phone m = Some q ->
                 p <> "" -> q <> "" -> phones_close p q).
Proof.
  intros w.
  pose (c := {| stitchId := 1;
                weight := 5 # 10;
                pass := "P4";
                matchedOn := ["name"; "location"];
                reason := "Fuzzy match: name similarity 1.00, location match";
                confidence := 5 # 10 |}).
  apply (fuzzy_candidate_window_location_phone Fixture.rt Fixture.form_named
           Fixture.policy 1 w (tick w) [c] c).
  - vm_compute. reflexivity.
  - left. reflexivity.
  - reflexivity.
Defined.

(** ** Attribution modes *)

Lemma update_stitch_twice (sid : Z) (a : Attribution) (d : Db) :
  fst (update_stitch sid a (fst (update_stitch sid a d))) =
  fst (update_stitch sid a d).
Proof.
  unfold update_stitch. simpl. f_equal.
  rewrite map_map. apply map_ext. intros l.
  destruct (sl_id l =? sid) eqn:E; simpl; rewrite E; reflexivity.
Qed.

(** X8.  Recomputing the attribution of a lead twice in succession, the links
    being unchanged and the database rejecting nothing, leaves the database
    as the first recomputation left it. *)
Theorem recomputeAttribution_twice
  (rt : Runtime) (sid : Z) (policy : PolicyConfig) (w : World) :
  no_faults rt ->
  exists w1 w2,
    recomputeAttribution rt sid policy w = (w1, inr tt) /\
    recomputeAttribution rt sid policy w1 = (w2, inr tt) /\
    db w2 = db w1.
Proof.
  intros quiet.
  rewrite (recomputeAttribution_quiet rt sid policy w quiet).
  destruct (computeAttribution policy (select_linked_rows sid (db w)))
    as [a|] eqn:C.
  - eexists. eexists. split; [reflexivity|].
    rewrite (recomputeAttribution_quiet rt sid policy _ quiet).
    change (select_linked_rows sid
              (db (tick (set_db (fst (update_stitch sid a (db w))) (tick w)))))
      with (select_linked_rows sid (db w)).
    rewrite C. split; [reflexivity|]. simpl db. apply update_stitch_twice.
  - eexists. eexists. split; [reflexivity|].
    rewrite (recomputeAttribution_quiet rt sid policy _ quiet).
    change (db (tick w)) with (db w). rewrite C. split; reflexivity.
Qed.

Lemma recomputeAttribution_twice_witness :
  let w := Fixture.world (Fixture.linked_to_lead1 MoreData3.two_touches) in
  exists w1 w2,
    recomputeAttribution Fixture.rt 1 Fixture.policy w = (w1, inr tt) /\
    recomputeAttribution Fixture.rt 1 Fixture.policy w1 = (w2, inr tt) /\
    db w2 = db w1.
Proof.
  apply (recomputeAttribution_twice Fixture.rt 1 Fixture.policy).
  intros k. reflexivity.
Defined.

Lemma find_narrowed {A : Type} (p q : A -> bool) (l : list A) (r : A) :
  find p l = Some r -> (forall x, q x = true -> p x = true) -> q r = true ->
  find q l = Some r.
Proof.
  intros F Imp Qr. induction l as [|x l IH]; simpl in *; [discriminate|].
  destruct (p x) eqn:Px.
  - inversion F; subst. rewrite Qr. reflexivity.
  - destruct (q x) eqn:Qx; [|apply IH, F].
    apply Imp in Qx. congruence.
Qed.

Lemma find_none_narrowed {A : Type} (q : A -> bool) (l : list A) :
  (forall x, In x l -> q x = false) -> find q l = None.
Proof.
  induction l as [|x l IH]; simpl; [reflexivity|]. intros H.
  rewrite (H x (or_introl eq_refl)). apply IH. intros y Hy. apply H. auto.
Qed.

Lemma paid_medium_channel (m : option string) :
  is_paid_medium m = true ->
  exists s, m = Some s /\ Js.or_default m "" = s /\ channel_of s = "paid_search".
Proof.
  unfold is_paid_medium. destruct m as [[|c s]|]; try discriminate.
  intros H. exists (String c s). split; [reflexivity|]. split; [reflexivity|].
  unfold channel_of.
  assert (E : Js.str_in (Js.toLowerCase (String c s)) ["cpc"; "ppc"; "paid"]
              = true).
  { unfold Js.str_in in H. apply existsb_exists in H.
    destruct H as (k & Hk & E). apply String.eqb_eq in E. rewrite E.
    destruct Hk as [<-|[<-|[<-|[]]]]; reflexivity. }
  rewrite E. reflexivity.
Qed.

(** X9.  Under [paid_last], when the latest paid event carries a UTM source, the
    final triple is that event's source, medium and campaign, the paid-last
    source is its source, and the channel is "paid_search". *)
Theorem paid_last_takes_latest_paid_event
  (policy : PolicyConfig) (linkedRows : list NormRow) (r : NormRow) (s : string) :
  attribution_mode policy = paid_last ->
  latest_paid_event linkedRows = Some r ->
  utmSource r = Some s -> s <> "" ->
  exists a,
    computeAttribution policy linkedRows = Some a /\
    a_paidLastSource a = s /\ a_finalSource a = s /\
    Some (a_finalMedium a) = utmMedium r /\
    a_finalCampaign a = Js.or_default (utmCampaign r) "" /\
    a_finalChannel a = "paid_search".
Proof.
  intros Hm L Hs Ne. unfold latest_paid_event in L.
  assert (P : find_paidLastSource linkedRows = s).
  { unfold find_paidLastSource.
    rewrite (find_same _ medium_is_paid) by (intros; apply is_paid_medium_spec).
    rewrite L, Hs. destruct s; [contradiction Ne; reflexivity|reflexivity]. }
  assert (Paid : is_paid_medium (utmMedium r) = true).
  { rewrite is_paid_medium_spec. apply (find_some _ _ L). }
  assert (F : find (fun x => col_eq (utmSource x) s &&
                             is_paid_medium (utmMedium x))%bool
                   (rev linkedRows) = Some r).
  { apply (find_narrowed medium_is_paid); [exact L| |].
    - intros x H. apply andb_true_iff in H. destruct H as [_ H].
      rewrite <- is_paid_medium_spec. exact H.
    - rewrite Hs, Paid. simpl. rewrite String.eqb_refl. reflexivity. }
  destruct (paid_medium_channel _ Paid) as (m & Em & Om & Ch).
  unfold computeAttribution.
  destruct linkedRows as [|firstRow rest]; [discriminate L|].
  cbv zeta. rewrite Hm, P. unfold apply_attribution_mode.
  destruct s as [|c s']; [contradiction Ne; reflexivity|].
  rewrite F. eexists. split; [reflexivity|]. simpl.
  rewrite Hs, Om, Ch, Em. repeat split; reflexivity.
Qed.

Lemma paid_last_witness_two_touches :
  exists a,
    computeAttribution Fixture.policy MoreData3.two_touches = Some a /\
    a_paidLastSource a = "google" /\ a_finalSource a = "google" /\
    Some (a_finalMedium a) = utmMedium Fixture.click_google /\
    a_finalCampaign a = Js.or_default (utmCampaign Fixture.click_google) "" /\
    a_finalChannel a = "paid_search".
Proof.
  apply (paid_last_takes_latest_paid_event Fixture.policy MoreData3.two_touches
           Fixture.click_google "google").
  - reflexivity.
  - reflexivity.
  - reflexivity.
  - discriminate.
Defined.

(** X10.  Under [paid_last], when the latest paid event carries no UTM source and
    no linked event has the UTM source "paid", the paid-last source is
    "paid" and the final triple is left empty, with the channel "direct":
    the fall-back to the last touch is not taken. *)
Theorem paid_last_without_source_leaves_triple_empty
  (policy : PolicyConfig) (linkedRows : list NormRow) (r : NormRow) :
  attribution_mode policy = paid_last ->
  latest_paid_event linkedRows = Some r ->
  Js.truthy (utmSource r) = false ->
  (forall x, In x linkedRows -> utmSource x <> Some "paid") ->
  exists a,
    computeAttribution policy linkedRows = Some a /\
    a_paidLastSource a = "paid" /\
    a_finalSource a = "" /\ a_finalMedium a = "" /\ a_finalCampaign a = "" /\
    a_finalChannel a = "direct".
Proof.
  intros Hm L Hs No. unfold latest_paid_event in L.
  assert (P : find_paidLastSource linkedRows = "paid").
  { unfold find_paidLastSource.
    rewrite (find_same _ medium_is_paid) by (intros; apply is_paid_medium_spec).
    rewrite L. unfold Js.truthy in Hs.
    destruct (utmSource r) as [[|? ?]|]; try reflexivity; discriminate. }
  assert (F : find (fun x => col_eq (utmSource x) "paid" &&
                             is_paid_medium (utmMedium x))%bool
                   (rev linkedRows) = None).
  { apply find_none_narrowed. intros x Hx. apply in_rev in Hx.
    specialize (No x Hx). unfold col_eq.
    destruct (utmSource x) as [u|]; [|reflexivity].
    destruct (String.eqb u "paid") eqn:E; [|reflexivity].
    apply String.eqb_eq in E. congruence. }
  unfold computeAttribution.
  destruct linkedRows as [|firstRow rest]; [discriminate L|].
  cbv zeta. rewrite Hm, P. unfold apply_attribution_mode.
  rewrite F. eexists. split; [reflexivity|]. simpl. repeat split; reflexivity.
Qed.

Lemma paid_last_without_source_witness :
  exists a,
    computeAttribution Fixture.policy [Fixture.click_no_source] = Some a /\
    a_paidLastSource a = "paid" /\
    a_finalSource a = "" /\ a_finalMedium a = "" /\ a_finalCampaign a = "" /\
    a_finalChannel a = "direct".
Proof.
  apply (paid_last_without_source_leaves_triple_empty Fixture.policy
           [Fixture.click_no_source] Fixture.click_no_source).
  - reflexivity.
  - reflexivity.
  - reflexivity.
  - intros x [<-|[]]. discriminate.
Defined.

(** X11.  [paid_last] without a paid event, and [call_first] without an event of
    source type "calls", compute what [last_touch] computes. *)
Theorem modes_fall_back_to_last_touch
  (policy policy' : PolicyConfig) (linkedRows : list NormRow) :
  attribution_mode policy' = last_touch ->
  (attribution_mode policy = paid_last /\ latest_paid_event linkedRows = None) \/
  (attribution_mode policy = call_first /\
   forall r, In r linkedRows -> sourceType r <> "calls") ->
  computeAttribution policy linkedRows = computeAttribution policy' linkedRows.
Proof.
  intros Hl H. unfold computeAttribution.
  destruct linkedRows as [|firstRow rest]; [reflexivity|].
  cbv zeta. rewrite Hl. destruct H as [[Hm L]|[Hm L]]; rewrite Hm.
  - assert (P : find_paidLastSource (firstRow :: rest) = "").
    { unfold find_paidLastSource, latest_paid_event in *.
      rewrite (find_same _ medium_is_paid)
        by (intros; apply is_paid_medium_spec).
      rewrite L. reflexivity. }
    rewrite P. reflexivity.
  - assert (F : find (fun r => String.eqb (sourceType r) "calls")
                     (firstRow :: rest) = None).
    { apply find_none_narrowed. intros x Hx.
      destruct (String.eqb (sourceType x) "calls") eqn:E; [|reflexivity].
      apply String.eqb_eq in E. contradiction (L x Hx). }
    unfold apply_attribution_mode. rewrite F. reflexivity.
Qed.

Lemma modes_fall_back_witness :
  computeAttribution (Fixture.policy_with call_first) MoreData3.two_touches =
  computeAttribution (Fixture.policy_with last_touch) MoreData3.two_touches.
Proof.
  apply modes_fall_back_to_last_touch.
  - reflexivity.
  - right. split; [reflexivity|].
    intros r [<-|[<-|[]]]; discriminate.
Defined.

(** ** What a match job keeps, whatever the database rejects *)

Section KeepsJob.

Variable rt : Runtime.
Variable P : World -> World -> Prop.
Hypothesis P_refl : forall w, P w w.
Hypothesis P_trans : forall w1 w2 w3, P w1 w2 -> P w2 w3 -> P w1 w3.
Hypothesis P_tick : forall w, P w (tick w).
Hypothesis P_insert_stitch : forall row acct sid w,
  P w (set_db (fst (insert_stitch row acct sid (db w))) w).
Hypothesis P_increment_usage : forall acct w,
  P w (set_db (fst (increment_usage acct (db w))) w).
Hypothesis P_insert_link : forall row sid c w,
  P w (set_db (fst (insert_link row sid c (db w))) w).
Hypothesis P_insert_audit : forall row sid c w,
  P w (set_db (fst (insert_audit row sid c (db w))) w).
Hypothesis P_update_stitch : forall sid a w,
  P w (set_db (fst (update_stitch sid a (db w))) w).
Hypothesis P_result : forall f w, P w (set_result (f (result w)) w).

Lemma keeps_job_process_row policy acct row :
  keeps P (process_row rt policy acct row).
Proof.
  unfold process_row.
  apply keeps_bind; auto. { apply keeps_checkUsageLimit; auto. }
  intros _. apply keeps_bind; auto. { apply keeps_findMatchingStitches; auto. }
  intros cands. cbv zeta.
  apply keeps_bind; auto.
  { destruct (fst (pickBestCandidate cands policy row)).
    - apply keeps_ret; auto.
    - apply keeps_bind; auto.
      { unfold createNewStitch. apply keeps_bind; auto.
        - apply keeps_new_ulid; auto.
        - intros sid. apply keeps_db_write; auto. }
      intros newId. apply keeps_bind; auto.
      { apply keeps_update_result; auto. }
      intros _. apply keeps_bind; auto.
      { apply keeps_db_write; auto. }
      intros _. apply keeps_ret; auto. }
  intros sid.
  apply (keeps_link_and_recompute rt P P_refl P_trans P_tick); auto.
Qed.

Lemma keeps_job_process_rows policy acct rows :
  keeps P (process_rows rt policy acct rows).
Proof.
  induction rows as [|row rows IH]; simpl.
  - apply keeps_ret; auto.
  - apply keeps_bind; auto.
    unfold process_row_caught. apply keeps_try_catch; auto.
    + apply keeps_job_process_row.
    + intros e. apply keeps_update_result; auto.
Qed.

Lemma keeps_job_runMatch acct uploadIds policy :
  keeps P (runMatch rt acct uploadIds policy).
Proof.
  unfold runMatch.
  apply keeps_bind; auto.
  { apply keeps_update_result. intros w0.
    apply (P_result (fun _ => empty_result)). }
  intros _. apply keeps_try_catch; auto.
  - apply keeps_bind; auto.
    { intros w w' r E. unfold select_batch in E.
      destruct (faults rt (steps w)); [inversion E; apply P_tick|].
      destruct (list_operand rt uploadIds); inversion E; apply P_tick. }
    intros rows. unfold match_rows.
    apply keeps_bind; auto. { apply keeps_job_process_rows. }
    intros _. intros w w' r E. inversion E. apply P_refl.
  - intros e. apply keeps_throw; auto.
Qed.

End KeepsJob.

Lemma extends_refl {A : Type} (l : list A) : extends l l.
Proof. exists []. symmetry. apply app_nil_r. Qed.

Lemma extends_trans {A : Type} (l1 l2 l3 : list A) :
  extends l1 l2 -> extends l2 l3 -> extends l1 l3.
Proof.
  intros (a & ->) (b & ->). exists (a ++ b). symmetry. apply app_assoc.
Qed.

Lemma extends_one {A : Type} (l : list A) (x : A) : extends l (l ++ [x]).
Proof. exists [x]. reflexivity. Qed.

Lemma grows_refl (w : World) : grows w w.
Proof. repeat split; try apply extends_refl. Qed.

Lemma grows_trans (w1 w2 w3 : World) : grows w1 w2 -> grows w2 w3 -> grows w1 w3.
Proof.
  intros (A & B & C & D) (A' & B' & C' & D'). split; [congruence|].
  split; [apply (extends_trans _ _ _ B B')|].
  split; [apply (extends_trans _ _ _ C C')|apply (extends_trans _ _ _ D D')].
Qed.

Lemma grows_update_stitch sid a (w : World) :
  grows w (set_db (fst (update_stitch sid a (db w))) w).
Proof.
  split; [reflexivity|]. split; [|split; apply extends_refl].
  simpl. rewrite map_map.
  rewrite (map_ext (fun l => lead_identity
                               (if sl_id l =? sid then set_attribution a l else l))
                   lead_identity).
  - apply extends_refl.
  - intros l. destruct (sl_id l =? sid); reflexivity.
Qed.

Lemma grows_same_tables (w w' : World) :
  normalizedRows (db w') = normalizedRows (db w) ->
  stitchedLeads (db w') = stitchedLeads (db w) ->
  stitchLinks (db w') = stitchLinks (db w) ->
  auditTrail (db w') = auditTrail (db w) ->
  grows w w'.
Proof.
  intros A B C D. unfold grows. rewrite A, B, C, D.
  repeat split; apply extends_refl.
Qed.

Lemma grows_tick (w : World) : grows w (tick w).
Proof. apply grows_same_tables; reflexivity. Qed.

Lemma grows_insert_stitch row acct sid (w : World) :
  grows w (set_db (fst (insert_stitch row acct sid (db w))) w).
Proof.
  split; [reflexivity|]. split; [|split; apply extends_refl].
  simpl. rewrite map_app. apply extends_one.
Qed.

Lemma grows_increment_usage acct (w : World) :
  grows w (set_db (fst (increment_usage acct (db w))) w).
Proof. apply grows_same_tables; reflexivity. Qed.

Lemma grows_insert_link row sid c (w : World) :
  grows w (set_db (fst (insert_link row sid c (db w))) w).
Proof.
  split; [reflexivity|].
  split; [apply extends_refl|]. split; [apply extends_one|apply extends_refl].
Qed.

Lemma grows_insert_audit row sid c (w : World) :
  grows w (set_db (fst (insert_audit row sid c (db w))) w).
Proof.
  split; [reflexivity|].
  split; [apply extends_refl|]. split; [apply extends_refl|apply extends_one].
Qed.

Lemma grows_result f (w : World) : grows w (set_result (f (result w)) w).
Proof. apply grows_same_tables; reflexivity. Qed.

(** X12.  A match job, and each recomputation within it, only adds to the tables
    of leads, links and audit entries, whatever the database rejects: the
    events are left as they are, and every lead that was there keeps its
    identifier, account, creation time, name, phone, email, location and
    confidence. *)
Theorem runMatch_only_adds
  (rt : Runtime) (acct : Z) (uploadIds : list Z) (policy : PolicyConfig)
  (w : World) :
  grows w (fst (runMatch rt acct uploadIds policy w)).
Proof.
  destruct (runMatch rt acct uploadIds policy w) as [w' r] eqn:E.
  apply (keeps_job_runMatch rt grows grows_refl grows_trans grows_tick
           grows_insert_stitch grows_increment_usage grows_insert_link
           grows_insert_audit grows_update_stitch grows_result
           acct uploadIds policy w w' r E).
Qed.

Lemma ids_fresh_insert_stitch row acct sid (d : Db) :
  ids_fresh d -> ids_fresh (fst (insert_stitch row acct sid d)).
Proof.
  intros [N B]. unfold ids_fresh. simpl. split.
  - rewrite map_app. simpl. apply NoDup_app.
    + exact N.
    + constructor; [intros []|constructor].
    + intros x Hx [<-|[]]. apply in_map_iff in Hx.
      destruct Hx as (l & E & Hl). specialize (B l Hl). lia.
  - intros l Hl. apply in_app_iff in Hl. destruct Hl as [Hl|[<-|[]]].
    + specialize (B l Hl). lia.
    + simpl. lia.
Qed.

Lemma ids_fresh_update_stitch sid a (d : Db) :
  ids_fresh d -> ids_fresh (fst (update_stitch sid a d)).
Proof.
  intros [N B]. unfold ids_fresh. simpl. split.
  - rewrite map_map.
    rewrite (map_ext (fun l => sl_id (if sl_id l =? sid
                                      then set_attribution a l else l)) sl_id).
    + exact N.
    + intros l. destruct (sl_id l =? sid); reflexivity.
  - intros l Hl. apply in_map_iff in Hl. destruct Hl as (l0 & <- & Hl0).
    specialize (B l0 Hl0). destruct (sl_id l0 =? sid); exact B.
Qed.

(** X13.  A match job keeps the identifiers of the leads distinct and below the
    serial of the table, whatever the database rejects. *)
Theorem runMatch_keeps_lead_ids_distinct
  (rt : Runtime) (acct : Z) (uploadIds : list Z) (policy : PolicyConfig)
  (w : World) :
  ids_fresh (db w) ->
  ids_fresh (db (fst (runMatch rt acct uploadIds policy w))).
Proof.
  destruct (runMatch rt acct uploadIds policy w) as [w' r] eqn:E.
  assert (Same : forall w0 w1 : World,
             stitchedLeads (db w1) = stitchedLeads (db w0) ->
             nextStitchDbId (db w1) = nextStitchDbId (db w0) ->
             keeps_ids_fresh w0 w1).
  { intros w0 w1 A B. unfold keeps_ids_fresh, ids_fresh. rewrite A, B. auto. }
  apply (keeps_job_runMatch rt keeps_ids_fresh) in E; try exact E.
  - intros w0 H. exact H.
  - intros w1 w2 w3 A B H. apply B, A, H.
  - intros w0. apply Same; reflexivity.
  - intros row a sid w0 H. apply (ids_fresh_insert_stitch row a sid (db w0) H).
  - intros a w0. apply Same; reflexivity.
  - intros row sid c w0. apply Same; reflexivity.
  - intros row sid c w0. apply Same; reflexivity.
  - intros sid a w0 H. apply (ids_fresh_update_stitch sid a (db w0) H).
  - intros f w0. apply Same; reflexivity.
Qed.

Lemma runMatch_keeps_ids_witness :
  ids_fresh
    (db (fst (runMatch (Fixture.rt_rejecting 9) 1 [1] Fixture.policy
                (Fixture.world
                   (Fixture.database [Fixture.lead_day100] []
                      [Fixture.chat_a; Fixture.chat_b] [Fixture.counter 0]))))).
Proof.
  apply runMatch_keeps_lead_ids_distinct.
  split.
  - simpl. constructor; [intros []|constructor].
  - intros l [<-|[]]. reflexivity.
Defined.

(** ** The books of a job *)

Lemma bump_zero (acct : Z) (counters : list UsageCounter) :
  bump acct 0 counters = counters.
Proof.
  unfold bump. induction counters as [|u l IH]; simpl; [reflexivity|].
  rewrite IH. destruct (uc_accountId u =? acct); [|reflexivity].
  destruct u; simpl. rewrite Z.add_0_r. reflexivity.
Qed.

Lemma bump_bump (acct a b : Z) (counters : list UsageCounter) :
  bump acct b (bump acct a counters) = bump acct (a + b) counters.
Proof.
  unfold bump. rewrite map_map. apply map_ext. intros u.
  destruct (uc_accountId u =? acct) eqn:E; simpl; rewrite E; [|reflexivity].
  rewrite Z.add_assoc. reflexivity.
Qed.

Lemma rows_in_app {A : Type} (l : list A) (x : A) :
  rows_in (l ++ [x]) = rows_in l + 1.
Proof. unfold rows_in. rewrite length_app. simpl. lia. Qed.

Lemma rows_in_map {A B : Type} (f : A -> B) (l : list A) :
  rows_in (map f l) = rows_in l.
Proof. unfold rows_in. rewrite length_map. reflexivity. Qed.

Lemma tally_refl (acct : Z) (w : World) : tally acct w w.
Proof. exists 0. rewrite bump_zero. repeat split; lia. Qed.

Lemma tally_trans (acct : Z) (w1 w2 w3 : World) :
  tally acct w1 w2 -> tally acct w2 w3 -> tally acct w1 w3.
Proof.
  intros (a & A1 & A2 & A3 & A4 & A5 & A6) (b & B1 & B2 & B3 & B4 & B5 & B6).
  exists (a + b). rewrite B1, A1, bump_bump. repeat split; lia.
Qed.

(** A step that leaves the counted things as they are. *)
Lemma tally_same (acct : Z) (w w' : World) :
  usageCounters (db w') = usageCounters (db w) ->
  rows_in (stitchedLeads (db w')) = rows_in (stitchedLeads (db w)) ->
  stitchLinks (db w') = stitchLinks (db w) ->
  auditTrail (db w') = auditTrail (db w) ->
  stitchedNew (result w') = stitchedNew (result w) ->
  linksCreated (result w') = linksCreated (result w) ->
  tally acct w w'.
Proof.
  intros A B C D E F. exists 0. rewrite bump_zero, A, B, C, D, E, F.
  repeat split; lia.
Qed.

Lemma tally_tick (acct : Z) (w : World) : tally acct w (tick w).
Proof. apply tally_same; reflexivity. Qed.

Lemma tally_update_stitch acct sid a (w : World) :
  tally acct w (set_db (fst (update_stitch sid a (db w))) w).
Proof. apply tally_same; try reflexivity. simpl. apply rows_in_map. Qed.

Section Books.

Variable rt : Runtime.
Variable policy : PolicyConfig.
Variable acct : Z.

Lemma db_write_cases {A : Type} (u : Db -> Db * A) (w : World) :
  (exists msg, db_write rt u w = (tick w, inl (Error msg))) \/
  db_write rt u w = (tick (set_db (fst (u (db w))) w), inr (snd (u (db w)))).
Proof.
  destruct (faults rt (steps w)) as [msg|] eqn:F.
  - left. exists msg. apply db_write_rejected, F.
  - right. apply db_write_ok, F.
Qed.

(** The new lead is counted at once; the usage counter follows, unless the
    database rejects its update. *)
Lemma keeps_tally_create row : keeps (tally acct) (create_and_count rt row acct).
Proof.
  intros w w' r E.
  unfold create_and_count, createNewStitch, bind, new_ulid, update_result in E.
  destruct (db_write_cases (insert_stitch row acct (ulid rt (steps w))) (tick w))
    as [(msg & D)|D]; rewrite D in E.
  - inversion E; subst. apply tally_same; reflexivity.
  - match type of E with
    | context [db_write rt (increment_usage acct) ?w1] =>
        destruct (db_write_cases (increment_usage acct) w1) as [(msg & D')|D'];
          rewrite D' in E
    end.
    + inversion E; subst. exists 0. rewrite bump_zero. simpl.
      rewrite rows_in_app. repeat split; lia.
    + inversion E; subst. exists 1. simpl.
      rewrite rows_in_app. repeat split; lia.
Qed.

(** The link is counted once its audit entry is written. *)
Lemma keeps_tally_link row sid c :
  keeps (tally acct) (link_and_recompute rt policy row sid c).
Proof.
  intros w w' r E.
  unfold link_and_recompute, linkRowToStitch, bind, update_result in E.
  destruct (db_write_cases (insert_link row sid c) w) as [(msg & D)|D];
    rewrite D in E.
  - inversion E; subst. apply tally_tick.
  - match type of E with
    | context [db_write rt (insert_audit row sid c) ?w1] =>
        destruct (db_write_cases (insert_audit row sid c) w1) as [(msg & D')|D'];
          rewrite D' in E
    end.
    + inversion E; subst. exists 0. rewrite bump_zero. simpl.
      rewrite rows_in_app. repeat split; lia.
    + simpl in E.
      match type of E with
      | recomputeAttribution rt sid policy ?w2 = _ =>
          apply (tally_trans acct w w2 w')
      end.
      * exists 0. rewrite bump_zero. simpl. rewrite !rows_in_app.
        repeat split; lia.
      * apply (keeps_recomputeAttribution rt (tally acct) (tally_refl acct)
                 (tally_trans acct) (tally_tick acct) (tally_update_stitch acct)
                 sid policy _ _ _ E).
Qed.

Lemma keeps_tally_process_row row :
  keeps (tally acct) (process_row rt policy acct row).
Proof.
  pose proof (tally_refl acct) as R. pose proof (tally_trans acct) as T.
  pose proof (tally_tick acct) as K.
  unfold process_row.
  apply keeps_bind; auto. { apply keeps_checkUsageLimit; auto. }
  intros _. apply keeps_bind; auto. { apply keeps_findMatchingStitches; auto. }
  intros cands. cbv zeta.
  apply keeps_bind; auto.
  - destruct (fst (pickBestCandidate cands policy row)).
    + apply keeps_ret; auto.
    + apply keeps_tally_create.
  - intros sid. apply keeps_tally_link.
Qed.

Lemma keeps_tally_process_rows rows :
  keeps (tally acct) (process_rows rt policy acct rows).
Proof.
  induction rows as [|row rows IH]; simpl.
  - apply keeps_ret. apply tally_refl.
  - apply keeps_bind; [apply tally_trans| |intros _; exact IH].
    unfold process_row_caught. apply keeps_try_catch; [apply tally_trans| |].
    + apply keeps_tally_process_row.
    + intros e. apply keeps_update_result. intros w.
      apply tally_same; reflexivity.
Qed.

(** What a job that returns has run. *)
Lemma runMatch_returned (uploadIds : list Z) (w w' : World) (res : MatchResult) :
  runMatch rt acct uploadIds policy w = (w', inr res) ->
  faults rt (steps w) = None /\ res = result w' /\
  process_rows rt policy acct (select_rows acct uploadIds (db w)) (loop_start w)
    = (w', inr tt).
Proof.
  unfold runMatch, bind at 1, update_result, try_catch, bind at 1,
    select_batch. simpl.
  destruct (faults rt (steps w)) as [msg|] eqn:F;
    [unfold throw; discriminate|].
  destruct (list_operand rt uploadIds); [unfold throw; discriminate|].
  change (tick (set_result empty_result w)) with (loop_start w).
  destruct (match_rows_returns rt policy acct
              (select_rows acct uploadIds (db w)) (loop_start w))
    as (w'' & P & R).
  rewrite R. intros E. inversion E; subst. auto.
Qed.

End Books.

(** X14.  The books of a job that returns, whatever the database rejected along
    the way: the leads added are exactly those counted as new; every usage
    counter of the account went up by one same number, at most the count of
    new leads, and no counter of another account moved; the links counted
    are at most the audit entries added, which are at most the links
    added. *)
Theorem runMatch_books_under_faults
  (rt : Runtime) (acct : Z) (uploadIds : list Z) (policy : PolicyConfig)
  (w w' : World) (res : MatchResult) :
  runMatch rt acct uploadIds policy w = (w', inr res) ->
  rows_in (stitchedLeads (db w')) =
    rows_in (stitchedLeads (db w)) + stitchedNew res /\
  (exists k, 0 <= k <= stitchedNew res /\
             usageCounters (db w') = bump acct k (usageCounters (db w))) /\
  0 <= linksCreated res /\
  linksCreated res <= rows_in (auditTrail (db w')) - rows_in (auditTrail (db w)) /\
  rows_in (auditTrail (db w')) - rows_in (auditTrail (db w)) <=
    rows_in (stitchLinks (db w')) - rows_in (stitchLinks (db w)).
Proof.
  intros E. apply runMatch_returned in E. destruct E as (_ & -> & E).
  apply keeps_tally_process_rows in E.
  destruct E as (k & A & B & C & D & F & G). simpl in *.
  repeat split; try lia. exists k. split; [lia|exact A].
Qed.

Lemma runMatch_books_under_faults_witness :
  let w := Fixture.world
             (Fixture.database [] [] [Fixture.chat_a; Fixture.chat_b]
                [Fixture.counter 0]) in
  let run := runMatch (Fixture.rt_rejecting 5) 1 [1] Fixture.policy w in
  let w' := fst run in
  let res := {| stitchedNew := 2; linksCreated := 1;
                errors := ["Failed to process row 14: connection terminated"] |} in
  rows_in (stitchedLeads (db w')) =
    rows_in (stitchedLeads (db w)) + stitchedNew res /\
  (exists k, 0 <= k <= stitchedNew res /\
             usageCounters (db w') = bump 1 k (usageCounters (db w))) /\
  0 <= linksCreated res /\
  linksCreated res <= rows_in (auditTrail (db w')) - rows_in (auditTrail (db w)) /\
  rows_in (auditTrail (db w')) - rows_in (auditTrail (db w)) <=
    rows_in (stitchLinks (db w')) - rows_in (stitchLinks (db w)).
Proof.
  intros w run w' res.
  apply (runMatch_books_under_faults (Fixture.rt_rejecting 5) 1 [1] Fixture.policy w).
  vm_compute. reflexivity.
Defined.

(** ** The books of a job on a database that rejects nothing *)

Section QuietBooks.

Variable rt : Runtime.
Variable policy : PolicyConfig.
Variable acct : Z.
Hypothesis quiet : no_faults rt.

Lemma link_and_recompute_quiet_books row sid c (w : World) :
  exists w',
    link_and_recompute rt policy row sid c w = (w', inr tt) /\
    usageCounters (db w') = usageCounters (db w) /\
    rows_in (stitchedLeads (db w')) = rows_in (stitchedLeads (db w)) /\
    stitchedNew (result w') = stitchedNew (result w) /\
    rows_in (stitchLinks (db w')) = rows_in (stitchLinks (db w)) + 1 /\
    rows_in (auditTrail (db w')) = rows_in (auditTrail (db w)) + 1 /\
    linksCreated (result w') = linksCreated (result w) + 1 /\
    errors (result w') = errors (result w).
Proof.
  unfold link_and_recompute, linkRowToStitch, bind, update_result.
  repeat (rewrite (db_write_quiet rt quiet); simpl).
  rewrite (recomputeAttribution_quiet rt sid policy _ quiet).
  destruct (computeAttribution _ _); eexists; (split; [reflexivity|]); simpl;
    rewrite ?rows_in_map, ?rows_in_app; repeat split; reflexivity.
Qed.

Lemma create_and_count_quiet_books row (w : World) :
  exists w' newId,
    create_and_count rt row acct w = (w', inr newId) /\
    usageCounters (db w') = bump acct 1 (usageCounters (db w)) /\
    rows_in (stitchedLeads (db w')) = rows_in (stitchedLeads (db w)) + 1 /\
    stitchedNew (result w') = stitchedNew (result w) + 1 /\
    stitchLinks (db w') = stitchLinks (db w) /\
    auditTrail (db w') = auditTrail (db w) /\
    linksCreated (result w') = linksCreated (result w) /\
    errors (result w') = errors (result w).
Proof.
  unfold create_and_count, createNewStitch, bind, new_ulid, update_result.
  repeat (rewrite (db_write_quiet rt quiet); simpl).
  eexists. eexists. split; [reflexivity|]. simpl. rewrite rows_in_app.
  repeat split; reflexivity.
Qed.

(** On a database that rejects nothing an event is either refused by the
    usage check or lost to what the generator throws, nothing being written,
    or processed to the end. *)
Lemma process_row_quiet_books row (w : World) :
  exists w' r,
    process_row rt policy acct row w = (w', r) /\
    ((exists e, r = inl e /\ same_data w w') \/
     (r = inr tt /\ processed acct w w')).
Proof.
  destruct (checkUsageLimit rt acct w) as [w1 [e|[]]] eqn:C.
  - exists w1, (inl e). split; [apply process_row_check_throws, C|].
    left. exists e. split; [reflexivity|].
    apply (keeps_checkUsageLimit rt same_data same_data_refl same_data_trans
             same_data_tick acct _ _ _ C).
  - assert (S1 : same_data w w1).
    { apply (keeps_checkUsageLimit rt same_data same_data_refl same_data_trans
               same_data_tick acct _ _ _ C). }
    destruct (findMatchingStitches_runs rt quiet row policy acct w1)
      as (w2 & E2 & S2).
    destruct (same_data_trans _ _ _ S1 S2) as [D R].
    unfold process_row.
    rewrite (bind_ok _ _ _ _ _ C).
    destruct (candidates_of rt row policy acct (db w1)) as [e|cands].
    { rewrite (bind_throws _ _ _ _ _ E2).
      exists w2, (inl e). split; [reflexivity|]. left. exists e.
      split; [reflexivity|split; assumption]. }
    rewrite (bind_ok _ _ _ _ _ E2). cbv zeta.
    destruct (fst (pickBestCandidate _ policy row)) as [c|].
    + change (bind (ret (stitchId c)) ?k w2)
        with (link_and_recompute rt policy row (stitchId c) (Some c) w2).
      destruct (link_and_recompute_quiet_books row (stitchId c) (Some c) w2)
        as (w' & E & A1 & A2 & A3 & A4 & A5 & A6 & A7).
      exists w', (inr tt). split; [exact E|]. right. split; [reflexivity|].
      exists 0. rewrite bump_zero, A1, A2, A3, A4, A5, A6, A7, D, R.
      repeat split; auto; lia.
    + destruct (create_and_count_quiet_books row w2)
        as (w3 & newId & E3 & B1 & B2 & B3 & B4 & B5 & B6 & B7).
      change (bind (bind (createNewStitch rt row acct) ?k1) ?k2 w2)
        with (bind (create_and_count rt row acct)
                (fun sid => link_and_recompute rt policy row sid None) w2).
      rewrite (bind_ok _ _ _ _ _ E3).
      destruct (link_and_recompute_quiet_books row newId None w3)
        as (w' & E & A1 & A2 & A3 & A4 & A5 & A6 & A7).
      exists w', (inr tt). split; [exact E|]. right. split; [reflexivity|].
      exists 1. rewrite A1, A2, A3, A4, A5, A6, A7, B1, B2, B3, B4, B5, B6, B7.
      rewrite D, R. repeat split; auto; lia.
Qed.

Lemma balanced_refl (w : World) : balanced acct 0 w w.
Proof.
  unfold balanced. rewrite Z.sub_diag, bump_zero. repeat split; lia.
Qed.

Lemma process_rows_quiet_books (rows : list NormRow) (w : World) :
  exists w',
    process_rows rt policy acct rows w = (w', inr tt) /\
    balanced acct (rows_in rows) w w'.
Proof.
  revert w. induction rows as [|row rows IH]; intros w.
  - exists w. split; [reflexivity|apply balanced_refl].
  - destruct (process_row_quiet_books row w) as (w1 & r & E & H).
    assert (G : exists w2,
               process_row_caught rt policy acct row w = (w2, inr tt) /\
               balanced acct 1 w w2).
    { rewrite process_row_caught_eq, E.
      destruct H as [(e & -> & D & R)|(-> & k & K & A1 & A2 & A3 & A4 & A5 & A6 & A7)].
      - eexists. split; [reflexivity|]. unfold balanced. simpl.
        rewrite D, R, Z.sub_diag, bump_zero. unfold rows_in.
        rewrite length_app. simpl. repeat split; lia.
      - eexists. split; [reflexivity|]. unfold balanced.
        rewrite A1, A2, A3, A4, A5, A6, A7.
        replace (stitchedNew (result w) + k - stitchedNew (result w)) with k
          by lia.
        repeat split; lia. }
    destruct G as (w2 & E2 & B2).
    destruct (IH w2) as (w' & E' & B').
    exists w'. split.
    + simpl. rewrite (bind_ok _ _ _ _ _ E2). exact E'.
    + destruct B2 as (A1 & A2 & A3 & A4 & A5).
      destruct B' as (C1 & C2 & C3 & C4 & C5).
      unfold balanced. rewrite C1, A1, bump_bump.
      replace (rows_in (row :: rows)) with (1 + rows_in rows)
        by (unfold rows_in; simpl List.length; lia).
      split; [f_equal; lia|]. repeat split; lia.
Qed.

End QuietBooks.

(** X15.  On a database that rejects nothing, the loop of [runMatch] and its
    [return], on any rows read, return with balanced books: the leads added
    are the new leads counted, every usage counter of the account has gone
    up by that count, the links added and the audit entries added are each
    the links counted, and every event of the batch is either counted as
    linked or has its line in the error list. *)
Theorem match_rows_books_balance_exactly
  (rt : Runtime) (acct : Z) (policy : PolicyConfig) (rows : list NormRow)
  (w : World) :
  no_faults rt ->
  exists w' res,
    match_rows rt policy acct rows (set_result empty_result w)
      = (w', inr res) /\
    rows_in (stitchedLeads (db w')) =
      rows_in (stitchedLeads (db w)) + stitchedNew res /\
    usageCounters (db w') = bump acct (stitchedNew res) (usageCounters (db w)) /\
    rows_in (stitchLinks (db w')) =
      rows_in (stitchLinks (db w)) + linksCreated res /\
    rows_in (auditTrail (db w')) =
      rows_in (auditTrail (db w)) + linksCreated res /\
    rows_in (errors res) + linksCreated res = rows_in rows.
Proof.
  intros quiet.
  destruct (match_rows_returns rt policy acct rows (set_result empty_result w))
    as (w' & E & R).
  destruct (process_rows_quiet_books rt policy acct quiet rows
              (set_result empty_result w))
    as (w'' & E' & A1 & A2 & A3 & A4 & A5).
  rewrite E in E'. inversion E'; subst w''.
  exists w', (result w'). split; [exact R|].
  simpl in A1, A2, A3, A4, A5. rewrite Z.sub_0_r in A1.
  unfold rows_in in *. simpl in A5.
  split; [lia|]. split; [exact A1|]. repeat split; lia.
Qed.

(** On the deployed runtime, one slot being left: a chat becomes a lead, a
    call is linked to the lead with its phone, a second chat is refused. *)
Lemma match_rows_books_exact_witness :
  let rows := [Fixture.chat_a; Fixture.call_day100; Fixture.chat_b] in
  let w := Fixture.world
             (Fixture.database [Fixture.lead_day100] [] rows
                [Fixture.counter 249]) in
  exists w' res,
    match_rows Fixture.deployed Fixture.policy 1 rows
      (set_result empty_result w) = (w', inr res) /\
    rows_in (stitchedLeads (db w')) =
      rows_in (stitchedLeads (db w)) + stitchedNew res /\
    usageCounters (db w') = bump 1 (stitchedNew res) (usageCounters (db w)) /\
    rows_in (stitchLinks (db w')) =
      rows_in (stitchLinks (db w)) + linksCreated res /\
    rows_in (auditTrail (db w')) =
      rows_in (auditTrail (db w)) + linksCreated res /\
    rows_in (errors res) + linksCreated res = rows_in rows.
Proof.
  intros rows w.
  apply (match_rows_books_balance_exactly Fixture.deployed 1 Fixture.policy rows).
  intros k. reflexivity.
Defined.

(** ** From an event to its lead *)

Section NewLead.

Variable rt : Runtime.
Variable policy : PolicyConfig.
Variable acct : Z.
Variables ms me : Z.

Hypothesis quiet : no_faults rt.
Hypothesis one_month : forall k,
  startOfMonth rt (clock rt k) = ms /\ endOfMonth rt (clock rt k) = me.

Lemma lead_identity_update sid a (leads : list StitchedLead) :
  map lead_identity
    (map (fun l => if sl_id l =? sid then set_attribution a l else l) leads)
  = map lead_identity leads.
Proof.
  rewrite map_map. apply map_ext. intros l.
  destruct (sl_id l =? sid); reflexivity.
Qed.

(** What the recomputation leaves of the database. *)
Lemma recomputeAttribution_quiet_frame sid (w : World) :
  exists w',
    recomputeAttribution rt sid policy w = (w', inr tt) /\
    map lead_identity (stitchedLeads (db w')) =
      map lead_identity (stitchedLeads (db w)) /\
    stitchLinks (db w') = stitchLinks (db w) /\
    auditTrail (db w') = auditTrail (db w) /\
    normalizedRows (db w') = normalizedRows (db w) /\
    usageCounters (db w') = usageCounters (db w) /\
    nextStitchDbId (db w') = nextStitchDbId (db w) /\
    result w' = result w.
Proof.
  rewrite (recomputeAttribution_quiet rt sid policy w quiet).
  destruct (computeAttribution _ _); eexists; (split; [reflexivity|]); simpl;
    rewrite ?lead_identity_update; repeat split; reflexivity.
Qed.

(** An event that passes the usage check and for which no pass emits a
    candidate: the lead, the link, the counts. *)
Lemma process_row_new_lead (row : NormRow) (w : World) (u : Z) :
  usage_of acct ms me (db w) = Some u -> u < usage_limit ->
  candidates_of rt row policy acct (db w) = inr [] ->
  exists w' sid,
    process_row rt policy acct row w = (w', inr tt) /\
    map lead_identity (stitchedLeads (db w')) =
      map lead_identity (stitchedLeads (db w)) ++
      [seeded_identity row acct (nextStitchDbId (db w)) sid] /\
    stitchLinks (db w') =
      stitchLinks (db w) ++ [link_of row (nextStitchDbId (db w)) None] /\
    rows_in (auditTrail (db w')) = rows_in (auditTrail (db w)) + 1 /\
    normalizedRows (db w') = normalizedRows (db w) /\
    usageCounters (db w') = bump acct 1 (usageCounters (db w)) /\
    nextStitchDbId (db w') = nextStitchDbId (db w) + 1 /\
    stitchedNew (result w') = stitchedNew (result w) + 1 /\
    linksCreated (result w') = linksCreated (result w) + 1 /\
    errors (result w') = errors (result w).
Proof.
  intros U L NoC.
  pose proof (checkUsageLimit_below_limit rt acct ms me quiet one_month w u U L)
    as C.
  destruct (findMatchingStitches_runs rt quiet row policy acct (tick (tick w)))
    as (w2 & E2 & D2 & R2).
  change (db (tick (tick w))) with (db w) in E2, D2. rewrite NoC in E2.
  change (result (tick (tick w))) with (result w) in R2.
  unfold process_row.
  rewrite (bind_ok _ _ _ _ _ C), (bind_ok _ _ _ _ _ E2). cbv zeta.
  change (fst (pickBestCandidate [] policy row)) with (@None MatchCandidate).
  cbv iota.
  unfold bind at 1. unfold bind at 1.
  unfold createNewStitch, bind at 1, new_ulid.
  rewrite (db_write_quiet rt quiet).
  unfold bind at 1, update_result. unfold bind at 1.
  rewrite (db_write_quiet rt quiet). unfold ret.
  unfold linkRowToStitch, bind at 1, bind at 1.
  rewrite (db_write_quiet rt quiet). rewrite (db_write_quiet rt quiet).
  unfold bind at 1.
  match goal with
  | |- context [recomputeAttribution rt ?sid policy ?w3] =>
      destruct (recomputeAttribution_quiet_frame sid w3)
        as (w' & E & A1 & A2 & A3 & A4 & A5 & A6 & A7)
  end.
  exists w', (ulid rt (steps w2)). split; [exact E|].
  rewrite A1, A2, A3, A4, A5, A6, A7. simpl.
  rewrite D2, R2, map_app, rows_in_app. simpl.
  repeat split; reflexivity.
Qed.

Lemma keyless_candidates_of (row : NormRow) (d : Db) :
  keyless row = true -> candidates_of rt row policy acct d = inr [].
Proof.
  intros K. unfold candidates_of, p1_of, p2_of, p3_of, p4_of.
  rewrite (keyless_no_keys row K). reflexivity.
Qed.

Lemma link_and_recompute_quiet_frame row sid c (w : World) :
  exists w',
    link_and_recompute rt policy row sid c w = (w', inr tt) /\
    stitchLinks (db w') = stitchLinks (db w) ++ [link_of row sid c] /\
    map lead_identity (stitchedLeads (db w')) =
      map lead_identity (stitchedLeads (db w)) /\
    rows_in (auditTrail (db w')) = rows_in (auditTrail (db w)) + 1 /\
    usageCounters (db w') = usageCounters (db w) /\
    stitchedNew (result w') = stitchedNew (result w) /\
    linksCreated (result w') = linksCreated (result w) + 1.
Proof.
  unfold link_and_recompute, linkRowToStitch, bind at 1, bind at 1.
  rewrite (db_write_quiet rt quiet). rewrite (db_write_quiet rt quiet).
  unfold bind at 1, update_result.
  match goal with
  | |- context [recomputeAttribution rt sid policy ?w3] =>
      destruct (recomputeAttribution_quiet_frame sid w3)
        as (w' & E & A1 & A2 & A3 & A4 & A5 & A6 & A7)
  end.
  exists w'. split; [exact E|].
  rewrite A1, A2, A3, A5, A7. simpl. rewrite rows_in_app.
  repeat split; reflexivity.
Qed.

(** The phone pass on a table whose leads are the old ones, none of which
    has the phone, followed by one lead that has it. *)
Lemma p1_of_after_new_lead (row : NormRow) (p : string) (d d1 : Db)
  (seed : NormRow) (newId : Z) (sid : string) :
  phone row = Some p -> p <> "" -> phone seed = Some p ->
  (forall l, In l (stitchedLeads d) -> sl_accountId l = acct ->
             sl_phone l <> Some p) ->
  map lead_identity (stitchedLeads d1) =
    map lead_identity (stitchedLeads d) ++ [seeded_identity seed acct newId sid] ->
  isWithinWindow (occurredAt row) (occurredAt seed)
    (w_phone_exact (windows policy)) = true ->
  p1_of row policy acct d1 = [phone_candidate policy p newId].
Proof.
  intros Hp Ne Hs Old Ids W.
  unfold p1_of. rewrite generateMatchingKeys_phone, Hp.
  assert (T : Js.truthy (Some p) = true)
    by (destruct p; [contradiction Ne; reflexivity|reflexivity]).
  rewrite T. unfold select_phone_matches.
  apply map_eq_app in Ids. destruct Ids as (l0 & l1 & -> & I0 & I1).
  destruct l1 as [|n [|? ?]]; try discriminate I1.
  inversion I1 as [[A B C D E F G H J]]. clear I1.
  rewrite filter_app.
  rewrite (filter_none _ l0).
  - simpl. rewrite B, Z.eqb_refl, F, Hs. simpl. rewrite String.eqb_refl.
    simpl. rewrite D, W, A. reflexivity.
  - intros x Hx.
    assert (Hi : In (lead_identity x) (map lead_identity (stitchedLeads d))).
    { rewrite <- I0. apply in_map, Hx. }
    apply in_map_iff in Hi. destruct Hi as (y & Ey & Hy).
    inversion Ey as [[A' B' C' D' E' F' G' H' J']].
    match goal with
    | |- (?a =? ?b) && col_eq ?c p = false =>
        destruct (a =? b) eqn:Q; [|reflexivity];
        apply Z.eqb_eq in Q; simpl; unfold col_eq;
        destruct c as [q|] eqn:Px; [|reflexivity]
    end.
    destruct (String.eqb q p) eqn:Qp; [|reflexivity].
    apply String.eqb_eq in Qp. subst q.
    exfalso. apply (Old y Hy); congruence.
Qed.

End NewLead.

(** X16.  An event without a key, processed when the usage counter of the month
    is below the limit and the database rejects nothing, becomes a new lead:
    the lead takes the next identifier and is seeded with the event's time,
    name, phone, email and location and the confidence 1; the event is
    linked to it under the pass "NEW"; the usage counters of the account and
    the count of new leads go up by one. *)
Theorem keyless_event_becomes_new_lead
  (rt : Runtime) (policy : PolicyConfig) (acct ms me : Z) (row : NormRow)
  (w : World) (u : Z) :
  no_faults rt ->
  (forall k, startOfMonth rt (clock rt k) = ms /\
             endOfMonth rt (clock rt k) = me) ->
  usage_of acct ms me (db w) = Some u -> u < usage_limit ->
  keyless row = true ->
  exists w' sid,
    process_row rt policy acct row w = (w', inr tt) /\
    map lead_identity (stitchedLeads (db w')) =
      map lead_identity (stitchedLeads (db w)) ++
      [(nextStitchDbId (db w), acct, sid, occurredAt row, name row, phone row,
        email row, location row, 1%Q)] /\
    stitchLinks (db w') =
      stitchLinks (db w) ++
      [{| lk_accountId := accountId row;
          lk_stitchId := nextStitchDbId (db w);
          normalizedRowId := id row;
          matchPass := "NEW";
          lk_keys := [];
          lk_windowDays := 0;
          lk_reason := "New lead created" |}] /\
    usageCounters (db w') = bump acct 1 (usageCounters (db w)) /\
    stitchedNew (result w') = stitchedNew (result w) + 1.
Proof.
  intros quiet one_month U L K.
  destruct (process_row_new_lead rt policy acct ms me quiet one_month row w u
              U L (keyless_candidates_of rt policy acct row (db w) K))
    as (w' & sid & E & A1 & A2 & A3 & A4 & A5 & A6 & A7 & A8 & A9).
  exists w', sid. repeat split; assumption.
Qed.

Lemma keyless_new_lead_witness :
  let w := Fixture.world
             (Fixture.database [Fixture.lead_day100] [] [Fixture.chat_a]
                [Fixture.counter 3]) in
  let row := Fixture.chat_a in
  exists w' sid,
    process_row Fixture.rt Fixture.policy 1 row w = (w', inr tt) /\
    map lead_identity (stitchedLeads (db w')) =
      map lead_identity (stitchedLeads (db w)) ++
      [(nextStitchDbId (db w), 1, sid, occurredAt row, name row, phone row,
        email row, location row, 1%Q)] /\
    stitchLinks (db w') =
      stitchLinks (db w) ++
      [{| lk_accountId := accountId row;
          lk_stitchId := nextStitchDbId (db w);
          normalizedRowId := id row;
          matchPass := "NEW";
          lk_keys := [];
          lk_windowDays := 0;
          lk_reason := "New lead created" |}] /\
    usageCounters (db w') = bump 1 1 (usageCounters (db w)) /\
    stitchedNew (result w') = stitchedNew (result w) + 1.
Proof.
  intros w row.
  apply (keyless_event_becomes_new_lead Fixture.rt Fixture.policy 1
           (90 * msPerDay) (119 * msPerDay) row w 3).
  - intros k. reflexivity.
  - intros k. split; vm_compute; reflexivity.
  - vm_compute. reflexivity.
  - reflexivity.
  - reflexivity.
Defined.

(** X17.  Two events with the same non-empty phone, at most [windows.phone_exact]
    days apart, processed one after the other on a database that rejects
    nothing, with two slots left under the usage limit: when the generator
    returns no candidate for the first event, no lead of the account has
    that phone yet, the fuzzy pass of the second event cannot throw (the
    event lacks a name or a location, or [jaroWinkler] is bound to a
    function) and the phone weight is not outweighed, the first event
    creates a lead and the second is linked to that lead under the pass P1,
    matched on the phone; no second lead is created. *)
Theorem second_event_links_to_lead_of_first
  (rt : Runtime) (policy : PolicyConfig) (acct ms me : Z) (e1 e2 : NormRow)
  (w : World) (u : Z) (p : string) :
  no_faults rt ->
  (forall k, startOfMonth rt (clock rt k) = ms /\
             endOfMonth rt (clock rt k) = me) ->
  usage_of acct ms me (db w) = Some u -> u + 1 < usage_limit ->
  phone e1 = Some p -> phone e2 = Some p -> p <> "" ->
  candidates_of rt e1 policy acct (db w) = inr [] ->
  fuzzy_pass_safe rt e2 ->
  (forall l, In l (stitchedLeads (db w)) -> sl_accountId l = acct ->
             sl_phone l <> Some p) ->
  within_days (occurredAt e2) (occurredAt e1) (w_phone_exact (windows policy)) ->
  phone_weight_leads policy ->
  exists w1 w2,
    process_row rt policy acct e1 w = (w1, inr tt) /\
    process_row rt policy acct e2 w1 = (w2, inr tt) /\
    stitchLinks (db w2) =
      stitchLinks (db w) ++
      [link_of e1 (nextStitchDbId (db w)) None;
       link_of e2 (nextStitchDbId (db w))
         (Some (phone_candidate policy p (nextStitchDbId (db w))))] /\
    rows_in (stitchedLeads (db w2)) = rows_in (stitchedLeads (db w)) + 1 /\
    stitchedNew (result w2) = stitchedNew (result w) + 1.
Proof.
  intros quiet one_month U L P1 P2 Ne NoC Safe Old W Lead.
  destruct (process_row_new_lead rt policy acct ms me quiet one_month e1 w u
              U ltac:(lia) NoC)
    as (w1 & sid & E1 & A1 & A2 & A3 & A4 & A5 & A6 & A7 & A8 & A9).
  exists w1.
  assert (U1 : usage_of acct ms me (db w1) = Some (u + 1)).
  { rewrite (usage_of_same acct ms me (fst (increment_usage acct (db w))) (db w1))
      by exact A5.
    rewrite usage_of_increment, U. reflexivity. }
  pose proof (checkUsageLimit_below_limit rt acct ms me quiet one_month w1
                (u + 1) U1 L) as C.
  destruct (findMatchingStitches_safe rt quiet e2 policy acct (tick (tick w1))
              Safe) as (w2 & cands & E2 & C2 & D2 & R2).
  change (db (tick (tick w1))) with (db w1) in C2, D2.
  change (result (tick (tick w1))) with (result w1) in R2.
  assert (Pass : p1_of e2 policy acct (db w1) =
                 [phone_candidate policy p (nextStitchDbId (db w))]).
  { apply (p1_of_after_new_lead policy acct e2 p (db w) (db w1) e1 _ sid);
      auto. apply isWithinWindow_spec, W. }
  destruct (first_phone_candidate_wins rt e2 policy acct (db w1) cands _ _
              C2 Pass Lead) as [Win _].
  pose proof (process_row_winner rt policy acct e2 w1 _ _ _ _ C E2 Win) as R.
  simpl stitchId in R.
  destruct (link_and_recompute_quiet_frame rt policy quiet e2
              (nextStitchDbId (db w))
              (Some (phone_candidate policy p (nextStitchDbId (db w)))) w2)
    as (w3 & E3 & B1 & B2 & B3 & B4 & B5 & B6).
  exists w3. split; [exact E1|]. split; [rewrite R; exact E3|].
  rewrite B1, D2, A2, <- app_assoc. split; [reflexivity|].
  split.
  - rewrite <- (rows_in_map lead_identity), B2, D2, A1.
    rewrite <- (rows_in_map lead_identity (stitchedLeads (db w))).
    apply rows_in_app.
  - rewrite B5, R2, A7. reflexivity.
Qed.

(** On the deployed runtime: two calls from the same phone, ten days
    apart, on an account without leads. *)
Lemma second_event_witness_two_calls :
  let w := Fixture.world MoreData4.fresh_account in
  let e1 := MoreData4.first_call in
  let e2 := MoreData4.second_call in
  exists w1 w2,
    process_row Fixture.deployed Fixture.policy 1 e1 w = (w1, inr tt) /\
    process_row Fixture.deployed Fixture.policy 1 e2 w1 = (w2, inr tt) /\
    stitchLinks (db w2) =
      stitchLinks (db w) ++
      [link_of e1 (nextStitchDbId (db w)) None;
       link_of e2 (nextStitchDbId (db w))
         (Some (phone_candidate Fixture.policy "5125550101"
                  (nextStitchDbId (db w))))] /\
    rows_in (stitchedLeads (db w2)) = rows_in (stitchedLeads (db w)) + 1 /\
    stitchedNew (result w2) = stitchedNew (result w) + 1.
Proof.
  intros w e1 e2.
  apply (second_event_links_to_lead_of_first Fixture.deployed Fixture.policy 1
           (90 * msPerDay) (119 * msPerDay) e1 e2 w 0 "5125550101").
  - intros k. reflexivity.
  - intros k. split; vm_compute; reflexivity.
  - vm_compute. reflexivity.
  - reflexivity.
  - reflexivity.
  - reflexivity.
  - discriminate.
  - vm_compute. reflexivity.
  - left. reflexivity.
  - intros l [].
  - vm_compute. discriminate.
  - repeat split; discriminate.
Defined.

(** * The normalizer *)

Module NormalizerFacts.
Import Normalizer.

(** ** Strings *)

Lemma lower_ascii_idem (c : ascii) :
  Js.lower_ascii (Js.lower_ascii c) = Js.lower_ascii c.
Proof. destruct c as [[] [] [] [] [] [] [] []]; reflexivity. Qed.

Lemma is_space_lower (c : ascii) :
  Js.is_space (Js.lower_ascii c) = Js.is_space c.
Proof. destruct c as [[] [] [] [] [] [] [] []]; reflexivity. Qed.

Lemma toLowerCase_idem (s : string) :
  Js.toLowerCase (Js.toLowerCase s) = Js.toLowerCase s.
Proof.
  induction s as [|c s IH]; simpl; [reflexivity|].
  rewrite lower_ascii_idem, IH. reflexivity.
Qed.

Lemma trimStart_lower (s : string) :
  Js.trimStart (Js.toLowerCase s) = Js.toLowerCase (Js.trimStart s).
Proof.
  induction s as [|c s IH]; simpl; [reflexivity|].
  rewrite is_space_lower. destruct (Js.is_space c); [exact IH|reflexivity].
Qed.

Lemma trimEnd_lower (s : string) :
  Js.trimEnd (Js.toLowerCase s) = Js.toLowerCase (Js.trimEnd s).
Proof.
  induction s as [|c s IH]; simpl; [reflexivity|].
  rewrite IH, is_space_lower.
  destruct (Js.trimEnd s); simpl; [destruct (Js.is_space c)|]; reflexivity.
Qed.

Lemma trim_lower (s : string) :
  Js.trim (Js.toLowerCase s) = Js.toLowerCase (Js.trim s).
Proof. unfold Js.trim. rewrite trimStart_lower, trimEnd_lower. reflexivity. Qed.

Lemma trimEnd_idem (s : string) : Js.trimEnd (Js.trimEnd s) = Js.trimEnd s.
Proof.
  induction s as [|c s IH]; simpl; [reflexivity|].
  destruct (Js.trimEnd s) as [|d t] eqn:E.
  - destruct (Js.is_space c) eqn:S; simpl; [reflexivity|].
    rewrite S. reflexivity.
  - change (Js.trimEnd (String c (String d t)))
      with (match Js.trimEnd (String d t) with
            | EmptyString =>
                if Js.is_space c then EmptyString else String c EmptyString
            | u => String c u
            end).
    rewrite IH. reflexivity.
Qed.

Lemma trimStart_starts_clean (s : string) : starts_clean (Js.trimStart s).
Proof.
  induction s as [|c s IH]; simpl; [exact I|].
  destruct (Js.is_space c) eqn:S; [exact IH|exact S].
Qed.

Lemma trimStart_clean (s : string) : starts_clean s -> Js.trimStart s = s.
Proof. destruct s as [|c s]; simpl; [reflexivity|]. intros ->. reflexivity. Qed.

Lemma trimEnd_starts_clean (s : string) :
  starts_clean s -> starts_clean (Js.trimEnd s).
Proof.
  destruct s as [|c s]; simpl; [intros _; exact I|]. intros S.
  destruct (Js.trimEnd s); [rewrite S|]; exact S.
Qed.

Lemma trim_idem (s : string) : Js.trim (Js.trim s) = Js.trim s.
Proof.
  unfold Js.trim.
  rewrite (trimStart_clean (Js.trimEnd (Js.trimStart s))).
  - apply trimEnd_idem.
  - apply trimEnd_starts_clean, trimStart_starts_clean.
Qed.

(** The normal form of the UTM functions is a fixed point of both steps. *)
Lemma lower_of_normalized (s : string) :
  Js.toLowerCase (Js.trim (Js.toLowerCase s)) = Js.trim (Js.toLowerCase s).
Proof. rewrite <- trim_lower, toLowerCase_idem. reflexivity. Qed.

Lemma normalized_again (s : string) :
  Js.trim (Js.toLowerCase (Js.trim (Js.toLowerCase s))) =
  Js.trim (Js.toLowerCase s).
Proof. rewrite lower_of_normalized. apply trim_idem. Qed.

Lemma trimmed_again (s : string) :
  Js.toLowerCase (Js.trim (Js.toLowerCase (Js.trim s))) =
  Js.toLowerCase (Js.trim s).
Proof. rewrite <- (trim_lower s), trim_idem. apply lower_of_normalized. Qed.

(** ** The pattern test decides membership *)

Lemma append_empty (a b : string) :
  (a ++ b)%string = EmptyString -> a = EmptyString /\ b = EmptyString.
Proof. destruct a; simpl; [auto|discriminate]. Qed.

Lemma nullable_spec (r : regex) : nullable r = true <-> Matches r EmptyString.
Proof.
  split.
  - induction r; simpl; intros H; try discriminate.
    + constructor.
    + apply andb_prop in H. destruct H as [H1 H2].
      apply (MSeq r1 r2 EmptyString EmptyString); auto.
    + apply orb_prop in H. destruct H; [apply MAltL|apply MAltR]; auto.
    + constructor.
  - intros H. remember EmptyString as s eqn:Es.
    induction H; simpl; try discriminate; auto.
    + apply append_empty in Es. destruct Es as [-> ->].
      rewrite IHMatches1, IHMatches2; reflexivity.
    + rewrite (IHMatches Es); reflexivity.
    + rewrite (IHMatches Es), orb_true_r; reflexivity.
Qed.

Lemma star_cons (r : regex) (c : ascii) (s : string) :
  Matches (Star r) (String c s) ->
  exists s1 s2, s = (s1 ++ s2)%string /\
                Matches r (String c s1) /\ Matches (Star r) s2.
Proof.
  intros H. remember (Star r) as r' eqn:Er. remember (String c s) as s' eqn:Es.
  revert s Es.
  induction H; intros s0 Es; try discriminate.
  inversion Er; subst.
  destruct s1 as [|d s1]; simpl in Es.
  - apply IHMatches2; auto.
  - inversion Es; subst. exists s1, s2. auto.
Qed.

Lemma deriv_spec (c : ascii) (r : regex) (s : string) :
  Matches (deriv c r) s <-> Matches r (String c s).
Proof.
  revert s. induction r; intros s; simpl.
  - split; intros H; inversion H.
  - split; intros H; inversion H.
  - split; intros H.
    + destruct (p c) eqn:P; inversion H. constructor. exact P.
    + inversion H as [|? ? P| | | | |]; subst. rewrite P. constructor.
  - split; intros H.
    + inversion H as [| | |? ? ? L|? ? ? R| |]; subst.
      * inversion L as [| |? ? s1 s2 L1 L2| | | |]; subst.
        change (String c (s1 ++ s2)) with (String c s1 ++ s2)%string.
        constructor; [apply IHr1|]; assumption.
      * destruct (nullable r1) eqn:N; [|inversion R].
        change (String c s) with (EmptyString ++ String c s)%string.
        constructor; [apply nullable_spec, N|apply IHr2, R].
    + inversion H as [| |? ? s1 s2 L1 L2| | | |]; subst.
      match goal with E0 : (s1 ++ s2)%string = _ |- _ => rename E0 into E end.
      destruct s1 as [|d s1]; simpl in E.
      * subst s2. apply MAltR.
        apply nullable_spec in L1. rewrite L1. apply IHr2, L2.
      * inversion E; subst. apply MAltL.
        constructor; [apply IHr1|]; assumption.
  - split; intros H; inversion H; subst.
    + apply MAltL, IHr1. assumption.
    + apply MAltR, IHr2. assumption.
    + apply MAltL, IHr1. assumption.
    + apply MAltR, IHr2. assumption.
  - split; intros H.
    + inversion H as [| |? ? s1 s2 L1 L2| | | |]; subst.
      change (String c (s1 ++ s2)) with (String c s1 ++ s2)%string.
      apply MStarS; [apply IHr|]; assumption.
    + apply star_cons in H. destruct H as (s1 & s2 & -> & H1 & H2).
      constructor; [apply IHr|]; assumption.
Qed.

Lemma test_spec (r : regex) (s : string) : test r s = true <-> Matches r s.
Proof.
  revert r. induction s as [|c s IH]; intros r; simpl.
  - apply nullable_spec.
  - rewrite IH. apply deriv_spec.
Qed.

(** ** The strings of the address pattern *)

Lemma star_class (p : ascii -> bool) (s : string) :
  Matches (Star (Class p)) s <-> every p s = true.
Proof.
  split.
  - intros H. remember (Star (Class p)) as r eqn:Er.
    induction H; try discriminate; [reflexivity|].
    inversion Er; subst.
    inversion H as [|? ? P| | | | |]; subst. simpl.
    rewrite P. apply IHMatches2. reflexivity.
  - induction s as [|c s IH]; simpl; intros H; [constructor|].
    apply andb_prop in H. destruct H as [P E].
    change (String c s) with (String c EmptyString ++ s)%string.
    apply MStarS; [constructor; exact P|apply IH, E].
Qed.

Lemma plus_class (s : string) :
  Matches (Plus (Class not_space_or_at)) s <-> plain s.
Proof.
  unfold Plus, plain. split.
  - intros H. inversion H as [| |? ? s1 s2 L1 L2| | | |]; subst.
    inversion L1 as [|? ? P| | | | |]; subst. simpl.
    split; [discriminate|]. rewrite P. apply star_class, L2.
  - intros [Ne E]. destruct s as [|c s]; [contradiction Ne; reflexivity|].
    simpl in E. apply andb_prop in E. destruct E as [P E].
    change (String c s) with (String c EmptyString ++ s)%string.
    constructor; [constructor; exact P|apply star_class, E].
Qed.

Lemma literal_spec (x : ascii) (s : string) :
  Matches (literal x) s <-> s = String x EmptyString.
Proof.
  unfold literal. split.
  - intros H. inversion H as [|? ? P| | | | |]; subst.
    apply Ascii.eqb_eq in P. subst. reflexivity.
  - intros ->. constructor. apply Ascii.eqb_refl.
Qed.

Lemma emailRegex_spec (s : string) : test emailRegex s = true <-> email_shape s.
Proof.
  rewrite test_spec. unfold emailRegex, email_shape. split.
  - intros H. inversion H as [| |? ? l s2 Hl H2| | | |]; subst.
    inversion H2 as [| |? ? a s3 Ha H3| | | |]; subst.
    inversion H3 as [| |? ? d s4 Hd H4| | | |]; subst.
    inversion H4 as [| |? ? b t Hb Ht| | | |]; subst.
    apply literal_spec in Ha, Hb. subst a b.
    exists l, d, t. split; [reflexivity|].
    repeat split; apply plus_class; assumption.
  - intros (l & d & t & -> & Hl & Hd & Ht).
    constructor; [apply plus_class, Hl|].
    constructor; [apply literal_spec; reflexivity|].
    constructor; [apply plus_class, Hd|].
    constructor; [apply literal_spec; reflexivity|].
    apply plus_class, Ht.
Qed.

(** ** Lookup in the tables *)

Lemma own_in (mp : list (string * string)) (k v : string) :
  own mp k = Some v -> In v (map snd mp).
Proof.
  induction mp as [|[k' v'] mp IH]; simpl; [discriminate|].
  destruct (String.eqb k' k); [intros [= <-]; left; reflexivity|].
  intros H. right. apply IH, H.
Qed.

Lemma existsb_perm {A : Type} (f : A -> bool) (l l' : list A) :
  Permutation l l' -> existsb f l = existsb f l'.
Proof.
  induction 1; simpl; try congruence.
  destruct (f x), (f y); reflexivity.
Qed.

Section Table.

Variable mp : list (string * string).

(** The values of the table are left as they are. *)
Hypothesis values_fixed :
  forall v, In v (map snd mp) ->
            v <> EmptyString /\
            or_else (get mp (Js.trim (Js.toLowerCase v)))
              (Js.trim (Js.toLowerCase v)) = text v.

Lemma table_idempotent (m r : string) :
  or_else (get mp (Js.trim (Js.toLowerCase m))) (Js.trim (Js.toLowerCase m))
    = text r ->
  r <> EmptyString ->
  or_else (get mp (Js.trim (Js.toLowerCase r))) (Js.trim (Js.toLowerCase r))
    = text r.
Proof.
  remember (Js.trim (Js.toLowerCase m)) as n eqn:En.
  unfold get at 1. destruct (own mp n) as [v|] eqn:O.
  - destruct (values_fixed v (own_in mp n v O)) as [Nv Fv].
    destruct v as [|c v]; [contradiction Nv; reflexivity|].
    simpl. intros [= <-] _. exact Fv.
  - destruct (Js.str_in n object_prototype_keys) eqn:K; simpl;
      [discriminate|].
    intros [= <-] Ne.
    assert (Again : Js.trim (Js.toLowerCase n) = n)
      by (rewrite En; apply normalized_again).
    rewrite Again. unfold get. rewrite O, K. reflexivity.
Qed.

(** A result that is not a string is one of the two members of
    [Object.prototype] whose names are in lower case. *)
Lemma table_inherited (m k : string) :
  (forall x, own mp x <> None -> x <> "constructor" /\ x <> "__proto__") ->
  or_else (get mp (Js.trim (Js.toLowerCase m))) (Js.trim (Js.toLowerCase m))
    = inherited k <->
  k = Js.trim (Js.toLowerCase m) /\ (k = "constructor" \/ k = "__proto__").
Proof.
  intros Own.
  pose proof (lower_of_normalized m) as Low.
  remember (Js.trim (Js.toLowerCase m)) as n eqn:En. clear En.
  unfold get. split.
  - destruct (own mp n) as [[|c v]|] eqn:O;
      [unfold or_else; discriminate|unfold or_else; discriminate|].
    destruct (Js.str_in n object_prototype_keys) eqn:K; simpl;
      [|discriminate].
    intros [= <-]. split; [reflexivity|].
    unfold Js.str_in in K. apply existsb_exists in K.
    destruct K as (x & Hx & E). apply String.eqb_eq in E. subst x.
    simpl in Hx.
    repeat (destruct Hx as [<-|Hx];
            [first [left; reflexivity | right; reflexivity
                   | exfalso; vm_compute in Low; discriminate Low]|]).
    contradiction.
  - intros [-> K].
    destruct (own mp n) as [v|] eqn:O.
    + exfalso. destruct (Own n) as [A B]; [rewrite O; discriminate|].
      destruct K; contradiction.
    + destruct K as [-> | ->]; reflexivity.
Qed.

(** Any other result is a string. *)
Lemma table_text (m : string) :
  (forall x, own mp x <> None -> x <> "constructor" /\ x <> "__proto__") ->
  Js.trim (Js.toLowerCase m) <> "constructor" ->
  Js.trim (Js.toLowerCase m) <> "__proto__" ->
  exists r,
    or_else (get mp (Js.trim (Js.toLowerCase m))) (Js.trim (Js.toLowerCase m))
      = text r.
Proof.
  intros Own N1 N2.
  destruct (or_else (get mp (Js.trim (Js.toLowerCase m)))
              (Js.trim (Js.toLowerCase m))) as [|r|k] eqn:R.
  - exfalso. unfold or_else in R.
    destruct (get mp _) as [[| [|? ?] |?]|]; discriminate R.
  - eauto.
  - exfalso. apply (table_inherited m k Own) in R.
    destruct R as [-> [K|K]]; contradiction.
Qed.

End Table.

Lemma medium_values_fixed (v : string) :
  In v (map snd medium_mappings) ->
  v <> EmptyString /\
  or_else (get medium_mappings (Js.trim (Js.toLowerCase v)))
    (Js.trim (Js.toLowerCase v)) = text v.
Proof.
  simpl. intros H.
  repeat (destruct H as [<-|H]; [split; [discriminate|reflexivity]|]).
  contradiction.
Qed.

Lemma source_values_fixed (v : string) :
  In v (map snd source_mappings) ->
  v <> EmptyString /\
  or_else (get source_mappings (Js.trim (Js.toLowerCase v)))
    (Js.trim (Js.toLowerCase v)) = text v.
Proof.
  simpl. intros H.
  repeat (destruct H as [<-|H]; [split; [discriminate|reflexivity]|]).
  contradiction.
Qed.

Lemma own_keys (mp : list (string * string)) (x : string) :
  own mp x <> None -> In x (map fst mp).
Proof.
  induction mp as [|[k v] mp IH]; simpl; [intros H; contradiction H; reflexivity|].
  destruct (String.eqb k x) eqn:E; [apply String.eqb_eq in E; auto|].
  intros H. right. apply IH, H.
Qed.

Lemma medium_keys_not_inherited (x : string) :
  own medium_mappings x <> None -> x <> "constructor" /\ x <> "__proto__".
Proof.
  intros H. apply own_keys in H. simpl in H.
  repeat (destruct H as [<-|H]; [split; discriminate|]). contradiction.
Qed.

Lemma source_keys_not_inherited (x : string) :
  own source_mappings x <> None -> x <> "constructor" /\ x <> "__proto__".
Proof.
  intros H. apply own_keys in H. simpl in H.
  repeat (destruct H as [<-|H]; [split; discriminate|]). contradiction.
Qed.

End NormalizerFacts.

(** X18.  [normalizeEmail] returns an address exactly for a value that, trimmed
    and in lower case, reads [local@domain.tld] with the three parts not
    empty and free of white space and of [@]; the address returned is that
    trimmed, lower-case string.  Anything else, the empty string included,
    gives [null]. *)
Theorem normalizeEmail_returns_well_formed_address (e r : string) :
  Normalizer.normalizeEmail (Some e) = Some r <->
  r = Js.toLowerCase (Js.trim e) /\ Normalizer.email_shape r.
Proof.
  unfold Normalizer.normalizeEmail. destruct e as [|c s].
  - split; [discriminate|]. intros [-> S]. exfalso.
    apply NormalizerFacts.emailRegex_spec in S. discriminate S.
  - cbv zeta.
    destruct (Normalizer.test Normalizer.emailRegex
                (Js.toLowerCase (Js.trim (String c s)))) eqn:T.
    + split.
      * intros [= <-]. split; [reflexivity|].
        apply NormalizerFacts.emailRegex_spec, T.
      * intros [-> _]. reflexivity.
    + split; [discriminate|]. intros [-> S].
      apply NormalizerFacts.emailRegex_spec in S. congruence.
Qed.

(** X19.  [normalizeEmail] is idempotent: an address it returned is returned
    unchanged when normalized again. *)
Theorem normalizeEmail_idempotent (e : option string) (r : string) :
  Normalizer.normalizeEmail e = Some r ->
  Normalizer.normalizeEmail (Some r) = Some r.
Proof.
  destruct e as [[|c s]|]; try discriminate.
  unfold Normalizer.normalizeEmail at 1. cbv zeta.
  destruct (Normalizer.test Normalizer.emailRegex
              (Js.toLowerCase (Js.trim (String c s)))) eqn:T; [|discriminate].
  intros [= <-].
  pose proof (NormalizerFacts.trimmed_again (String c s)) as Again.
  remember (Js.toLowerCase (Js.trim (String c s))) as r eqn:Er. clear Er.
  destruct r as [|d r]; [discriminate T|].
  unfold Normalizer.normalizeEmail. cbv zeta. rewrite Again, T. reflexivity.
Qed.

Lemma normalizeEmail_idempotent_witness :
  Normalizer.normalizeEmail (Some "  Ann.Lee@Example.COM ")
    = Some "ann.lee@example.com" /\
  Normalizer.normalizeEmail (Some "ann.lee@example.com")
    = Some "ann.lee@example.com".
Proof.
  split; [reflexivity|].
  apply (normalizeEmail_idempotent (Some "  Ann.Lee@Example.COM ")).
  reflexivity.
Defined.

(** X20.  [normalizeUtmMedium] is idempotent on every result that is a
    non-empty string.  (A value of white space only gives the empty string,
    which normalized again gives [null].) *)
Theorem normalizeUtmMedium_idempotent (m : option string) (r : string) :
  Normalizer.normalizeUtmMedium m = Normalizer.text r ->
  r <> EmptyString ->
  Normalizer.normalizeUtmMedium (Some r) = Normalizer.text r.
Proof.
  destruct m as [[|c s]|]; try discriminate.
  intros H Ne. destruct r as [|d r]; [contradiction Ne; reflexivity|].
  apply (NormalizerFacts.table_idempotent Normalizer.medium_mappings
           NormalizerFacts.medium_values_fixed (String c s) (String d r) H Ne).
Qed.

Lemma normalizeUtmMedium_idempotent_witness :
  Normalizer.normalizeUtmMedium (Some " Google-Ads ") = Normalizer.text "cpc" /\
  Normalizer.normalizeUtmMedium (Some "cpc") = Normalizer.text "cpc".
Proof.
  split; [reflexivity|].
  apply (normalizeUtmMedium_idempotent (Some " Google-Ads ") "cpc");
    [reflexivity|discriminate].
Defined.

(** X21.  [normalizeUtmSource] is idempotent on every result that is a
    non-empty string. *)
Theorem normalizeUtmSource_idempotent (m : option string) (r : string) :
  Normalizer.normalizeUtmSource m = Normalizer.text r ->
  r <> EmptyString ->
  Normalizer.normalizeUtmSource (Some r) = Normalizer.text r.
Proof.
  destruct m as [[|c s]|]; try discriminate.
  intros H Ne. destruct r as [|d r]; [contradiction Ne; reflexivity|].
  apply (NormalizerFacts.table_idempotent Normalizer.source_mappings
           NormalizerFacts.source_values_fixed (String c s) (String d r) H Ne).
Qed.

Lemma normalizeUtmSource_idempotent_witness :
  Normalizer.normalizeUtmSource (Some "FB.com") = Normalizer.text "facebook" /\
  Normalizer.normalizeUtmSource (Some "facebook") = Normalizer.text "facebook".
Proof.
  split; [reflexivity|].
  apply (normalizeUtmSource_idempotent (Some "FB.com") "facebook");
    [reflexivity|discriminate].
Defined.

(** X22.  The two UTM functions return something that is not a string, a
    member of [Object.prototype] found by the table lookup, exactly when
    the value in lower case and trimmed is [constructor] or [__proto__];
    for every other value that is not empty they return a string. *)
Theorem utm_normalizers_return_prototype_members (m k : string) :
  (Normalizer.normalizeUtmMedium (Some m) = Normalizer.inherited k <->
   k = Js.trim (Js.toLowerCase m) /\ (k = "constructor" \/ k = "__proto__")) /\
  (Normalizer.normalizeUtmSource (Some m) = Normalizer.inherited k <->
   k = Js.trim (Js.toLowerCase m) /\ (k = "constructor" \/ k = "__proto__")) /\
  (m <> "" ->
   Js.trim (Js.toLowerCase m) <> "constructor" ->
   Js.trim (Js.toLowerCase m) <> "__proto__" ->
   (exists r, Normalizer.normalizeUtmMedium (Some m) = Normalizer.text r) /\
   (exists r, Normalizer.normalizeUtmSource (Some m) = Normalizer.text r)).
Proof.
  destruct m as [|c s].
  - split; [|split].
    + split; [discriminate|]. intros [-> [K|K]]; discriminate K.
    + split; [discriminate|]. intros [-> [K|K]]; discriminate K.
    + intros Ne. contradiction Ne. reflexivity.
  - split; [|split].
    + apply (NormalizerFacts.table_inherited Normalizer.medium_mappings
               (String c s) k NormalizerFacts.medium_keys_not_inherited).
    + apply (NormalizerFacts.table_inherited Normalizer.source_mappings
               (String c s) k NormalizerFacts.source_keys_not_inherited).
    + intros _ N1 N2. split.
      * apply (NormalizerFacts.table_text Normalizer.medium_mappings
                 (String c s) NormalizerFacts.medium_keys_not_inherited N1 N2).
      * apply (NormalizerFacts.table_text Normalizer.source_mappings
                 (String c s) NormalizerFacts.source_keys_not_inherited N1 N2).
Qed.

(** X23.  The attribution counts a normalized medium as paid exactly when it is
    [cpc], and every medium the attribution counts as paid before
    normalization ([cpc], [paid], [ppc] in any case) is normalized to
    [cpc]. *)
Theorem normalized_medium_paid_iff_cpc (m : option string) (r : string) :
  Normalizer.normalizeUtmMedium m = Normalizer.text r ->
  (is_paid_medium (Some r) = true <-> r = "cpc") /\
  (is_paid_medium m = true -> r = "cpc").
Proof.
  destruct m as [[|c s]|]; try discriminate.
  unfold Normalizer.normalizeUtmMedium. cbv zeta. intros H. split.
  - split; [|intros ->; reflexivity].
    pose proof (NormalizerFacts.lower_of_normalized (String c s)) as Low.
    remember (Js.trim (Js.toLowerCase (String c s))) as n eqn:En. clear En.
    unfold Normalizer.get in H.
    destruct (Normalizer.own Normalizer.medium_mappings n) as [v|] eqn:O.
    + apply NormalizerFacts.own_in in O. simpl in O.
      repeat (destruct O as [<-|O];
              [simpl in H; injection H as <-;
               first [reflexivity | intros P; discriminate P]|]).
      contradiction.
    + destruct (Js.str_in n Normalizer.object_prototype_keys);
        [discriminate H|].
      simpl in H. injection H as <-.
      intros P. unfold is_paid_medium in P.
      destruct n as [|d n]; [discriminate P|].
      rewrite Low in P. unfold Js.str_in in P.
      apply existsb_exists in P. destruct P as (x & Hx & E).
      apply String.eqb_eq in E. subst x. simpl in Hx.
      destruct Hx as [Hx|[Hx|[Hx|[]]]]; rewrite <- Hx in O;
        first [reflexivity | discriminate O | idtac].
      symmetry; exact Hx.
  - intros P. unfold is_paid_medium, Js.str_in in P.
    apply existsb_exists in P. destruct P as (x & Hx & E).
    apply String.eqb_eq in E. simpl in Hx.
    destruct Hx as [Hx|[Hx|[Hx|[]]]]; subst x; rewrite E in H;
      vm_compute in H; injection H as <-; reflexivity.
Qed.

Lemma normalized_medium_witness_ppc :
  (is_paid_medium (Some "cpc") = true <-> "cpc" = "cpc") /\
  (is_paid_medium (Some "PPC") = true -> "cpc" = "cpc").
Proof.
  apply (normalized_medium_paid_iff_cpc (Some "PPC") "cpc"). reflexivity.
Defined.

(** X24.  The source type detected from the headers of a file depends neither
    on the order of the columns nor on the case of their names. *)
Theorem detectSourceType_ignores_order_and_case (hs hs' : list string) :
  Permutation (map Js.toLowerCase hs) (map Js.toLowerCase hs') ->
  Normalizer.detectSourceType hs = Normalizer.detectSourceType hs'.
Proof.
  intros P. unfold Normalizer.detectSourceType. cbv zeta.
  rewrite !(NormalizerFacts.existsb_perm _ _ _ P). reflexivity.
Qed.

Lemma detectSourceType_witness_swapped :
  Normalizer.detectSourceType ["Name"; "Call Duration"] =
  Normalizer.detectSourceType ["CALL DURATION"; "name"].
Proof.
  apply detectSourceType_ignores_order_and_case. simpl. apply perm_swap.
Defined.


